(** * playwrap: a verification development

    The repository is a bookkeeping layer over Playwright.  This file embeds
    its six helper modules and the test fixture, and proves properties of
    them:

    - [stepSequenceHelper]  the promise chain of test steps and the rewriting
      of error stacks (chaining/stepSequenceHelper);
    - [testDataHelper]      the keyed store of test data;
    - [tabDataHelper]       the page-type table;
    - [frameworkDataHelper] the framework's variables and index lookups into
      the browser's contexts;
    - [browserHelper]       the working tab, the five tab operations and the
      closing of all contexts;
    - [requestHelper]       the focused API request context and its headers;
    - [playwrap]            the fixture that resets all of the above before a
      test and closes the contexts after it.

    Conventions.  A JavaScript [number] used as an index is a [Z]; a JavaScript
    string that is taken apart (an error stack) is a list of characters, a
    string that is only stored or compared (a key, a page type) is a [string];
    an array that is only read and written by index is a finite map from
    indices; a function that can throw returns its result or the failure
    together with the state it leaves behind. *)

From Stdlib Require Import Ascii String List ZArith Lia Bool.
From stdpp Require Import gmap strings list fin_maps.

Local Open Scope Z_scope.

(** ** JavaScript strings as used on error stacks *)

Module JsString.

Definition str := list ascii.

(** A string literal of the source, as a list of characters. *)
Definition lit (s : string) : str := list_ascii_of_string s.

Definition newline : ascii := "010"%char.

(** [s.split("\n")]: never empty, the rows of [s]. *)
Fixpoint split (sep : ascii) (s : str) : list str :=
  match s with
  | [] => [[]]
  | c :: s' =>
      if Ascii.eqb c sep then [] :: split sep s'
      else match split sep s' with
           | r :: rs => (c :: r) :: rs
           | [] => [[c]]
           end
  end.

(** [rows.join("\n")]. *)
Fixpoint join (sep : ascii) (rows : list str) : str :=
  match rows with
  | [] => []
  | [r] => r
  | r :: rs => r ++ sep :: join sep rs
  end.

(** [s.startsWith(p)], the test at one position of a substring search. *)
Fixpoint starts_with (p s : str) : bool :=
  match p, s with
  | [], _ => true
  | _ :: _, [] => false
  | a :: p', b :: s' => Ascii.eqb a b && starts_with p' s'
  end.

(** [s.includes(p)]. *)
Fixpoint includes (s p : str) : bool :=
  starts_with p s ||
  match s with
  | [] => false
  | _ :: s' => includes s' p
  end.

(** The first occurrence of [p] in [s]: the text before it and the text after it. *)
Fixpoint find (p s : str) : option (str * str) :=
  if starts_with p s then Some ([], List.skipn (List.length p) s)
  else match s with
       | [] => None
       | c :: s' =>
           match find p s' with
           | Some (a, b) => Some (c :: a, b)
           | None => None
           end
       end.

(** GetSubstitution of ECMAScript for a pattern that is a string (so without
    captures): in the replacement text [$$] stands for a dollar sign, [$&] for
    the matched text, [$`] for the text before the match and [$'] for the text
    after it; every other character, a lone dollar sign included, stands for
    itself. *)
Fixpoint substitution (rep matched before after : str) : str :=
  match rep with
  | [] => []
  | c :: rest =>
      if Ascii.eqb c "$" then
        match rest with
        | d :: rest' =>
            if Ascii.eqb d "$" then "$"%char :: substitution rest' matched before after
            else if Ascii.eqb d "&" then matched ++ substitution rest' matched before after
            else if Ascii.eqb d "`" then before ++ substitution rest' matched before after
            else if Ascii.eqb d "'" then after ++ substitution rest' matched before after
            else c :: substitution rest matched before after
        | [] => [c]
        end
      else c :: substitution rest matched before after
  end.

(** A replacement text has a pattern: a dollar sign followed by a dollar
    sign, an ampersand, a backtick or an apostrophe. *)
Fixpoint has_dollar_pattern (rep : str) : bool :=
  match rep with
  | [] => false
  | c :: rest =>
      Ascii.eqb c "$" &&
      match rest with
      | d :: _ =>
          Ascii.eqb d "$" || Ascii.eqb d "&" || Ascii.eqb d "`" || Ascii.eqb d "'"
      | [] => false
      end
      || has_dollar_pattern rest
  end.

(** [s.replace(p, rep)] with a string pattern: only the first occurrence. *)
Definition replace (s p rep : str) : str :=
  match find p s with
  | None => s
  | Some (a, b) => a ++ substitution rep p a b ++ b
  end.

(** A JavaScript string is truthy unless it is empty; [undefined] is falsy. *)
Definition truthy (s : option str) : bool :=
  match s with
  | Some (_ :: _) => true
  | _ => false
  end.

(** *** Regular expressions

    The syntax of the patterns the source uses, matched through Brzozowski
    derivatives.  [Sym p] is one character satisfying [p]. *)
Inductive regex : Type :=
| Void
| Eps
| Sym (p : ascii -> bool)
| Alt (r1 r2 : regex)
| Cat (r1 r2 : regex)
| Star (r : regex).

Definition Chr (c : ascii) : regex := Sym (Ascii.eqb c).
Definition Plus (r : regex) : regex := Cat r (Star r).

(** The dot of a pattern without the [s] flag: any character but a line
    terminator.  Of the four line terminators of ECMAScript, the line feed and
    the carriage return are 8-bit characters. *)
Definition is_line_terminator (c : ascii) : bool :=
  Ascii.eqb c "010" || Ascii.eqb c "013".
Definition Dot : regex := Sym (fun c => negb (is_line_terminator c)).
(** A character the dot stands for. *)
Definition not_line_terminator (c : ascii) : bool := negb (is_line_terminator c).

(** The class [[0-9]]. *)
Definition is_digit (c : ascii) : bool :=
  (48 <=? nat_of_ascii c)%nat && (nat_of_ascii c <=? 57)%nat.
Definition Digit : regex := Sym is_digit.

(** A run of literal characters. *)
Fixpoint Literal (s : str) : regex :=
  match s with
  | [] => Eps
  | c :: s' => Cat (Chr c) (Literal s')
  end.

Fixpoint nullable (r : regex) : bool :=
  match r with
  | Void => false
  | Eps => true
  | Sym _ => false
  | Alt r1 r2 => nullable r1 || nullable r2
  | Cat r1 r2 => nullable r1 && nullable r2
  | Star _ => true
  end.

Fixpoint deriv (c : ascii) (r : regex) : regex :=
  match r with
  | Void => Void
  | Eps => Void
  | Sym p => if p c then Eps else Void
  | Alt r1 r2 => Alt (deriv c r1) (deriv c r2)
  | Cat r1 r2 =>
      if nullable r1 then Alt (Cat (deriv c r1) r2) (deriv c r2)
      else Cat (deriv c r1) r2
  | Star r1 => Cat (deriv c r1) (Star r1)
  end.

(** Some prefix of [s] matches [r]. *)
Fixpoint match_prefix (r : regex) (s : str) : bool :=
  nullable r ||
  match s with
  | [] => false
  | c :: s' => match_prefix (deriv c r) s'
  end.

(** [r.test(s)] for a pattern without flags: some substring of [s] matches. *)
Fixpoint test (r : regex) (s : str) : bool :=
  match_prefix r s ||
  match s with
  | [] => false
  | _ :: s' => test r s'
  end.

(** No character the pattern can consume is a newline. *)
Fixpoint newline_free (r : regex) : bool :=
  match r with
  | Void | Eps => true
  | Sym p => negb (p newline)
  | Alt r1 r2 | Cat r1 r2 => newline_free r1 && newline_free r2
  | Star r1 => newline_free r1
  end.

(** What a pattern matches. *)
Inductive matches : regex -> str -> Prop :=
| matches_eps : matches Eps []
| matches_sym p c : p c = true -> matches (Sym p) [c]
| matches_alt_l r1 r2 s : matches r1 s -> matches (Alt r1 r2) s
| matches_alt_r r1 r2 s : matches r2 s -> matches (Alt r1 r2) s
| matches_cat r1 r2 s1 s2 :
    matches r1 s1 -> matches r2 s2 -> matches (Cat r1 r2) (s1 ++ s2)
| matches_star_nil r : matches (Star r) []
| matches_star_cons r s1 s2 :
    matches r s1 -> matches (Star r) s2 -> matches (Star r) (s1 ++ s2).

End JsString.

(** ** chaining/stepSequenceHelper *)

Module stepSequenceHelper.
Import JsString.

(** An [Error] object as far as the helper looks at it: its message and its
    [stack] property, which an engine may leave undefined.  Assigning to
    [error.stack] keeps the object and its message. *)
Record Error : Type := mkError {
  err_message : str;
  err_stack : option str;
}.

Definition set_stack (e : Error) (stack : str) : Error :=
  {| err_message := err_message e; err_stack := Some stack |}.

(** What a callback can reject with, or a handler throw: an [Error], or a
    value for which [instanceof Error] is false. *)
Inductive thrown : Type :=
| ThrownError (e : Error)
| ThrownValue (v : string).

Inductive settled : Type :=
| Fulfilled
| Rejected (reason : thrown).

(** [const testFilePath = /(\\|\/).+.spec.ts:[0-9]+:[0-9]+/;]
    The dots before [spec] and before [ts] are not escaped in the source: each
    stands for any character. *)
Definition testFilePath : regex :=
  Cat (Alt (Chr "\") (Chr "/"))
 (Cat (Plus Dot)
 (Cat Dot
 (Cat (Literal (lit "spec"))
 (Cat Dot
 (Cat (Literal (lit "ts:"))
 (Cat (Plus Digit)
 (Cat (Chr ":")
      (Plus Digit)))))))).

(** The pattern as a template literal prints it. *)
Definition testFilePath_source : str :=
  lit "/(\\|\/).+.spec.ts:[0-9]+:[0-9]+/".

Definition found_0_rows : str :=
  lit "Found 0 rows matching " ++ testFilePath_source.
Definition found_multiple_rows : str :=
  lit "Found multiple rows matching " ++ testFilePath_source.

Section Helper.

(** [import.meta.url] of the helper module. *)
Variable moduleUrl : str.
(** The stack the engine gives an [Error] that the helper itself creates,
    from its message. *)
Variable engineStack : str -> option str.

Definition newError (message : str) : Error :=
  {| err_message := message; err_stack := engineStack message |}.

(** [getTestCallRowInStack]: the row of the stack that points into a spec
    file; it throws when there is none or more than one. *)
Definition getTestCallRowInStack (callStack : str) : Error + str :=
  let testCallRows := List.filter (test testFilePath) (split newline callStack) in
  match testCallRows with
  | [] => inl (newError found_0_rows)
  | [] :: _ => inl (newError found_0_rows)
  | testCallRow :: rest =>
      if (1 <? List.length testCallRows)%nat then inl (newError found_multiple_rows)
      else inr testCallRow
  end.

(** The rewritten stack: the row of the [await] replaced by the row of the
    step's call, and the rows of the helper module dropped. *)
Definition rewrite_stack (stack promiseAwaitRow stepCallRow : str) : str :=
  join newline
    (List.filter (fun row => negb (includes row moduleUrl))
       (split newline (replace stack promiseAwaitRow stepCallRow))).

(** The handler [addStep] passes to [catch]; [myStack] is [myError.stack],
    captured when the step was added.  It returns normally (the promise is
    fulfilled) or throws (the promise is rejected). *)
Definition onRejected (myStack : option str) (error : thrown) : settled :=
  match error with
  | ThrownError e =>
      match err_stack e, myStack with
      | Some stack, Some myStack' =>
          if truthy (Some stack) && truthy (Some myStack') then
            if includes stack moduleUrl && test testFilePath myStack' then
              match getTestCallRowInStack myStack' with
              | inl thrownByLookup => Rejected (ThrownError thrownByLookup)
              | inr stepCallRow =>
                  match getTestCallRowInStack stack with
                  | inl thrownByLookup => Rejected (ThrownError thrownByLookup)
                  | inr promiseAwaitRow =>
                      Rejected (ThrownError
                        (set_stack e (rewrite_stack stack promiseAwaitRow stepCallRow)))
                  end
              end
            else Rejected (ThrownError e)
          else Rejected (ThrownError e)
      | _, _ => Rejected (ThrownError e)
      end
  | ThrownValue _ => Fulfilled
  end.

(** The [Error] the handler throws when the promise was rejected with [e]. *)
Definition rethrow (myStack : option str) (e : Error) : Error :=
  match onRejected myStack (ThrownError e) with
  | Rejected (ThrownError e') => e'
  | _ => e
  end.

(** An [Error] passed through the handlers of the steps added later. *)
Definition rethrow_all (stacks : list (option str)) (e : Error) : Error :=
  fold_left (fun e' myStack => rethrow myStack e') stacks e.

(** *** The promise chain

    [W] is the state the callbacks of the steps act on.  Playwright's
    [test.step] runs the callback and reports the step; the report is the list
    of the titles of the steps that ran, in the order they began.  A promise
    is the computation that settles it. *)
Variable W : Type.

Record state : Type := mkState {
  world : W;
  report : list string;
}.

Definition callback : Type := W -> settled * W.
Definition promise : Type := state -> settled * state.

(** [Promise.resolve()]. *)
Definition resolved : promise := fun st => (Fulfilled, st).

(** [test.step(title, callback)]. *)
Definition test_step (title : string) (cb : callback) : promise :=
  fun st =>
    let (r, w) := cb (world st) in
    (r, {| world := w; report := report st ++ [title] |}).

(** [p.then(onFulfilled)]. *)
Definition then_ (p : promise) (onFulfilled : promise) : promise :=
  fun st =>
    match p st with
    | (Fulfilled, st') => onFulfilled st'
    | (Rejected reason, st') => (Rejected reason, st')
    end.

(** [p.catch(handler)]. *)
Definition catch_ (p : promise) (handler : thrown -> settled) : promise :=
  fun st =>
    match p st with
    | (Fulfilled, st') => (Fulfilled, st')
    | (Rejected reason, st') => (handler reason, st')
    end.

(** [addStep(title, callback)], as the new value of [stepSequence]. *)
Definition addStep (myStack : option str) (title : string) (cb : callback)
    (stepSequence : promise) : promise :=
  let step := test_step title cb in
  catch_ (then_ stepSequence step) (onRejected myStack).

(** A call of [addStep]: the stack of the [Error] created at the call, the
    title and the callback. *)
Record Step : Type := mkStep {
  step_stack : option str;
  step_title : string;
  step_callback : callback;
}.

(** [stepSequence] after a run of [addStep] calls on a reset sequence. *)
Definition stepSequence (steps : list Step) : promise :=
  fold_left
    (fun seq s => addStep (step_stack s) (step_title s) (step_callback s) seq)
    steps resolved.

(** [resetStepSequence()], as the new value of [stepSequence]. *)
Definition resetStepSequence : promise := resolved.

(** [stepSequence] after a run of [addStep] calls on the sequence [seq]. *)
Definition added (steps : list Step) (seq : promise) : promise :=
  fold_left
    (fun seq' s => addStep (step_stack s) (step_title s) (step_callback s) seq')
    steps seq.

(** The chain, read from its first step. *)
Fixpoint run_from (steps : list Step) (st : state) : settled * state :=
  match steps with
  | [] => (Fulfilled, st)
  | s :: rest =>
      match test_step (step_title s) (step_callback s) st with
      | (Rejected (ThrownError e), st') =>
          (Rejected (ThrownError (rethrow_all (step_stack <$> steps) e)), st')
      | (_, st') => run_from rest st'
      end
  end.

(** The steps one after the other, each on the state the one before left,
    up to the first that rejects with an [Error]: the state reached, the
    titles of the steps that ran, and that [Error] if there is one. *)
Fixpoint in_order (steps : list Step) (w : W) : option Error * W * list string :=
  match steps with
  | [] => (None, w, [])
  | s :: rest =>
      match step_callback s w with
      | (Rejected (ThrownError e), w') => (Some e, w', [step_title s])
      | (_, w') =>
          let '(r, w'', ran) := in_order rest w' in
          (r, w'', step_title s :: ran)
      end
  end.

(** The [Error]s the handlers of the chain can throw for [e]: [e] itself or
    an [Error] that [getTestCallRowInStack] created, as it is or with its
    stack rewritten. *)
Definition rethrown_of (e e' : Error) : Prop :=
  exists base,
    (base = e \/ base = newError found_0_rows \/
     base = newError found_multiple_rows) /\
    (e' = base \/ exists stack, e' = set_stack base stack).

(** The same, by the conditions under which each of them is thrown.  The
    lookup of the row of a spec file fails on a stack in two ways: no row of
    the stack matches the pattern, or more than one row does. *)
Inductive lookup_fails (callStack : str) : Error -> Prop :=
| lookup_no_row :
    List.filter (test testFilePath) (split newline callStack) = [] ->
    lookup_fails callStack (newError found_0_rows)
| lookup_several_rows :
    (1 < List.length (List.filter (test testFilePath) (split newline callStack)))%nat ->
    lookup_fails callStack (newError found_multiple_rows).

(** What the handler of a step added with the stack [myStack] throws for the
    [Error] it receives: that [Error]; or that [Error] with its stack
    rewritten, when its stack mentions the helper module and both lookups
    find their row; or the [Error] of a lookup that fails, on [myStack] or on
    the stack of the [Error] received. *)
Inductive handler_throws (myStack : option str) (e : Error) : Error -> Prop :=
| throws_received : handler_throws myStack e e
| throws_rewritten (callStack stack stepCallRow promiseAwaitRow : str) :
    myStack = Some callStack ->
    err_stack e = Some stack ->
    includes stack moduleUrl = true ->
    List.filter (test testFilePath) (split newline callStack) = [stepCallRow] ->
    List.filter (test testFilePath) (split newline stack) = [promiseAwaitRow] ->
    handler_throws myStack e
      (set_stack e (rewrite_stack stack promiseAwaitRow stepCallRow))
| throws_lookup (callStack : str) (thrownByLookup : Error) :
    myStack = Some callStack \/ err_stack e = Some callStack ->
    lookup_fails callStack thrownByLookup ->
    handler_throws myStack e thrownByLookup.

(** An [Error] passed from handler to handler, through the handlers of the
    steps whose calls had the stacks [stacks], in the order of the calls. *)
Inductive rejects_with : list (option str) -> Error -> Error -> Prop :=
| rejects_with_nil (e : Error) : rejects_with [] e e
| rejects_with_cons (myStack : option str) (stacks : list (option str))
    (e e1 e' : Error) :
    handler_throws myStack e e1 ->
    rejects_with stacks e1 e' ->
    rejects_with (myStack :: stacks) e e'.

End Helper.

Arguments world {W} _.
Arguments report {W} _.
Arguments mkState {W} _ _.
Arguments step_stack {W} _.
Arguments step_title {W} _.
Arguments step_callback {W} _.
Arguments mkStep {W} _ _ _.
Arguments resolved {W} _.
Arguments resetStepSequence {W} _.
Arguments test_step {W} _ _ _.
Arguments then_ {W} _ _ _.
Arguments catch_ {W} _ _ _.
Arguments in_order {W} _ _.

End stepSequenceHelper.

(** ** JavaScript arrays as the helpers use them *)

Module JsArray.

(** [a[i]]: [undefined] outside the array, also for a negative index. *)
Definition at_index {A : Type} (a : list A) (i : Z) : option A :=
  if i <? 0 then None else a !! Z.to_nat i.

(** [a.indexOf(x)]: the first position of [x], or -1. *)
Fixpoint indexOf {A : Type} `{EqDecision A} (a : list A) (x : A) : Z :=
  match a with
  | [] => -1
  | y :: a' =>
      if decide (x = y) then 0
      else let i := indexOf a' x in
           if i <? 0 then -1 else i + 1
  end.

(** [a.length - 1]. *)
Definition latest_index {A : Type} (a : list A) : Z :=
  Z.of_nat (List.length a) - 1.

(** [a.splice(start, 1)], as the array it leaves: a negative [start] counts
    from the end, and nothing is removed at or past the end. *)
Definition splice1 {A : Type} (a : list A) (start : Z) : list A :=
  let len := Z.of_nat (List.length a) in
  let from := if start <? 0 then Z.max (len + start) 0 else Z.min start len in
  take (Z.to_nat from) a ++ drop (S (Z.to_nat from)) a.

End JsArray.

(** ** data/testDataHelper *)

Module testDataHelper.
Import JsArray.

(** [const testData = new Map<string, string[]>()]. *)
Definition resetTestData : gmap string (list string) := ∅.

(** [pushTestData(key, value)], as the map it leaves. *)
Definition pushTestData (key value : string)
    (testData : gmap string (list string)) : gmap string (list string) :=
  match testData !! key with
  | None => <[key := [value]]> testData
  | Some values => <[key := values ++ [value]]> testData
  end.

(** [getTestData(key, index)]: the value, or [None] where the source throws
    [No test data found for "key" at "index"]. *)
Definition getTestData (key : string) (index : Z)
    (testData : gmap string (list string)) : option string :=
  match testData !! key with
  | None => None
  | Some values =>
      match at_index values index with
      | None => None
      | Some value => if decide (value = ""%string) then None else Some value
      end
  end.

(** A test's calls of [pushTestData], in order, on a reset store. *)
Definition pushed (calls : list (string * string)) : gmap string (list string) :=
  fold_left (fun testData kv => pushTestData kv.1 kv.2 testData) calls resetTestData.

(** The values the calls pushed under [key], in order. *)
Definition values_pushed (key : string) (calls : list (string * string)) : list string :=
  snd <$> List.filter (fun kv => bool_decide (kv.1 = key)) calls.

End testDataHelper.

(** ** What a step of the browser helper can fail with

    Every failure is an [Error] in the source: one thrown by a helper, a
    failed [expect], or the [TypeError] of calling a method of the undefined
    working tab.  The constructors carry the numbers the messages print. *)

Inductive failure : Type :=
| NoPageTypesFound (contextIndex : Z)
| ContextDoesNotExist (contextIndex : Z)
| PageDoesNotExist (pageIndex contextIndex : Z)
| WorkingTabUndefined
| TargetClosed
| ExpectContextNotFound (contextIndex : Z)
| ExpectTabNotFound (contextIndex tabIndex : Z)
| ExpectAlreadyWorkingOnTab (contextIndex tabIndex : Z)
| ExpectPageType (actual : option string) (expected : string)
| ExpectNotWorkingContext (contextIndex : Z)
| ExpectNotWorkingTab (contextIndex tabIndex : Z).

(** ** data/tabDataHelper *)

Module tabDataHelper.
Import JsArray.

(** [const pageTypes: string[][] = []].  The outer array is pushed to and
    spliced; an inner array is only read and written by index, so it is the
    finite map from the indices written to the page types. *)
Definition resetPageTypes : list (gmap Z string) := [].

Definition contextPageTypes (contextIndex : Z) (pageTypes : list (gmap Z string))
    : failure + gmap Z string :=
  match at_index pageTypes contextIndex with
  | None => inl (NoPageTypesFound contextIndex)
  | Some contextPageTypes => inr contextPageTypes
  end.

(** [pageType(contextIndex, tabIndex)]; [inr None] is [undefined]. *)
Definition pageType (contextIndex tabIndex : Z) (pageTypes : list (gmap Z string))
    : failure + option string :=
  match contextPageTypes contextIndex pageTypes with
  | inl e => inl e
  | inr types => inr (types !! tabIndex)
  end.

Definition initializeContextPageTypes (pageTypes : list (gmap Z string))
    : list (gmap Z string) :=
  pageTypes ++ [∅].

Definition updatePageType (contextIndex tabIndex : Z) (pageType : string)
    (pageTypes : list (gmap Z string)) : failure + list (gmap Z string) :=
  match contextPageTypes contextIndex pageTypes with
  | inl e => inl e
  | inr types =>
      inr (<[Z.to_nat contextIndex := <[tabIndex := pageType]> types]> pageTypes)
  end.

Definition initializePageType (contextIndex tabIndex : Z)
    (pageTypes : list (gmap Z string)) : failure + list (gmap Z string) :=
  match contextPageTypes contextIndex pageTypes with
  | inl e => inl e
  | inr types =>
      inr (<[Z.to_nat contextIndex := <[tabIndex := "Blank"%string]> types]> pageTypes)
  end.

Definition removeContextPageTypes (contextIndex : Z)
    (pageTypes : list (gmap Z string)) : list (gmap Z string) :=
  splice1 pageTypes contextIndex.

End tabDataHelper.

(** ** The browser, and the state of the helpers that track it *)

Module Browser.
Import JsArray.

(** A page is an object: it has an identity, and [page.context()] names the
    context it was opened in, open or closed. *)
Record Page : Type := mkPage {
  page_id : nat;
  page_context : nat;
}.

(** A browser context that is open, with its open pages in the order they
    were opened ([context.pages()]). *)
Record BrowserContext : Type := mkContext {
  context_id : nat;
  context_pages : list Page;
}.

#[global] Instance Page_eq_dec : EqDecision Page.
Proof. solve_decision. Defined.

(** [contexts] is [browser.contexts()], the open contexts in the order they
    were created; [workingTab] and [pageTypes] are the variables of
    browserHelper and tabDataHelper; [nextId] names the next object. *)
Record World : Type := mkWorld {
  contexts : list BrowserContext;
  workingTab : option Page;
  pageTypes : list (gmap Z string);
  nextId : nat;
}.

(** A computation on the world that can throw. *)
Definition M (A : Type) : Type := World -> (failure + A) * World.

Definition ret {A : Type} (a : A) : M A := fun w => (inr a, w).
Definition throw {A : Type} (e : failure) : M A := fun w => (inl e, w).
Definition bind {A B : Type} (m : M A) (k : A -> M B) : M B :=
  fun w =>
    match m w with
    | (inl e, w') => (inl e, w')
    | (inr a, w') => k a w'
    end.

Declare Scope browser_scope.
Delimit Scope browser_scope with browser.
Notation "x <- m ;; k" := (bind m (fun x => k))
  (at level 100, m at next level, right associativity) : browser_scope.
Notation "m ;;; k" := (bind m (fun _ => k))
  (at level 100, right associativity) : browser_scope.
Local Open Scope browser_scope.

Definition get_contexts : M (list BrowserContext) := fun w => (inr (contexts w), w).
Definition set_pageTypes (types : list (gmap Z string)) : M unit :=
  fun w => (inr tt, {| contexts := contexts w; workingTab := workingTab w;
                       pageTypes := types; nextId := nextId w |}).
Definition set_workingTab (page : Page) : M unit :=
  fun w => (inr tt, {| contexts := contexts w; workingTab := Some page;
                       pageTypes := pageTypes w; nextId := nextId w |}).

(** A helper of tabDataHelper that reads the table. *)
Definition reading {A : Type} (f : list (gmap Z string) -> failure + A) : M A :=
  fun w => (f (pageTypes w), w).
(** A helper of tabDataHelper that writes the table, or throws and leaves it. *)
Definition writing (f : list (gmap Z string) -> failure + list (gmap Z string)) : M unit :=
  fun w =>
    match f (pageTypes w) with
    | inl e => (inl e, w)
    | inr types => set_pageTypes types w
    end.

(** [expect(condition, message)]: passes, or throws the failure. *)
Definition expect (condition : bool) (e : failure) : M unit :=
  if condition then ret tt else throw e.

(** *** Playwright *)

(** The pages of the context named [c]: none once it is closed. *)
Definition pages_of (c : nat) (cs : list BrowserContext) : list Page :=
  match List.find (fun ctx => Nat.eqb (context_id ctx) c) cs with
  | Some ctx => context_pages ctx
  | None => []
  end.

(** [browser.newContext()]: a new context without pages, last in
    [browser.contexts()]. *)
Definition browser_newContext : M nat :=
  fun w =>
    (inr (nextId w),
     {| contexts := contexts w ++ [ {| context_id := nextId w; context_pages := [] |} ];
        workingTab := workingTab w; pageTypes := pageTypes w;
        nextId := S (nextId w) |}).

Definition add_page (c : nat) (page : Page) (ctx : BrowserContext) : BrowserContext :=
  if Nat.eqb (context_id ctx) c
  then {| context_id := context_id ctx; context_pages := context_pages ctx ++ [page] |}
  else ctx.

(** [context.newPage()]: a new page, last in [context.pages()]; it rejects on
    a closed context. *)
Definition context_newPage (c : nat) : M Page :=
  fun w =>
    if existsb (fun ctx => Nat.eqb (context_id ctx) c) (contexts w) then
      let page := {| page_id := nextId w; page_context := c |} in
      (inr page,
       {| contexts := add_page c page <$> contexts w;
          workingTab := workingTab w; pageTypes := pageTypes w;
          nextId := S (nextId w) |})
    else (inl TargetClosed, w).

Definition remove_page (page : Page) (ctx : BrowserContext) : BrowserContext :=
  {| context_id := context_id ctx;
     context_pages := List.filter (fun p => negb (bool_decide (p = page))) (context_pages ctx) |}.

(** [page.close()]: the page leaves its context's pages. *)
Definition page_close (page : Page) : M unit :=
  fun w =>
    (inr tt,
     {| contexts := remove_page page <$> contexts w;
        workingTab := workingTab w; pageTypes := pageTypes w; nextId := nextId w |}).

(** [context.close()]: the context leaves [browser.contexts()]. *)
Definition context_close (c : nat) : M unit :=
  fun w =>
    (inr tt,
     {| contexts := List.filter (fun ctx => negb (Nat.eqb (context_id ctx) c)) (contexts w);
        workingTab := workingTab w; pageTypes := pageTypes w; nextId := nextId w |}).

(** [context.pages()] on a context object the caller holds: its pages now. *)
Definition pages_now (c : nat) : M (list Page) :=
  cs <- get_contexts ;; ret (pages_of c cs).

(** A context after the pages of a list were closed. *)
Definition remove_pages (pages : list Page) (ctx : BrowserContext) : BrowserContext :=
  fold_left (fun ctx' page => remove_page page ctx') pages ctx.

(** [for (const page of pages) await page.close()]. *)
Fixpoint close_pages (pages : list Page) : M unit :=
  match pages with
  | [] => ret tt
  | page :: rest => page_close page ;;; close_pages rest
  end.

End Browser.

(** ** data/frameworkDataHelper *)

Module frameworkDataHelper.
Import JsArray Browser.
Local Open Scope browser_scope.

(** The options of the error listeners (types/frameworkTypes), with the
    three fields the fixture sets and [errorListener.attachTo] reads. *)
Record ErrorListenerOptions : Type := mkErrorListenerOptions {
  failOnJsError : bool;
  failOnConnectionError : bool;
  failOnRequestError : bool;
}.

(** The four variables of the module, undefined until [init]; Playwright's
    [APIRequest] and [Browser] are objects, named by numbers. *)
Record FrameworkData : Type := mkFrameworkData {
  apiRequest : option nat;
  baseUrl : option string;
  browser : option nat;
  errorListenerOptions : option ErrorListenerOptions;
}.

(** [init(frameworkData)], as the variables it leaves. *)
Definition init (apiRequest' : nat) (baseUrl' : string) (browser' : nat)
    (errorListenerOptions' : ErrorListenerOptions) : FrameworkData :=
  {| apiRequest := Some apiRequest'; baseUrl := Some baseUrl';
     browser := Some browser';
     errorListenerOptions := Some errorListenerOptions' |}.

(** The browser is the one of the world: [browser.contexts()] is [contexts]. *)

Definition getContext (contextIndex : Z) : M BrowserContext :=
  cs <- get_contexts ;;
  match at_index cs contextIndex with
  | None => throw (ContextDoesNotExist contextIndex)
  | Some context => ret context
  end.

Definition getPage (contextIndex pageIndex : Z) : M Page :=
  context <- getContext contextIndex ;;
  match at_index (context_pages context) pageIndex with
  | None => throw (PageDoesNotExist pageIndex contextIndex)
  | Some page => ret page
  end.

End frameworkDataHelper.

(** ** channel/browserHelper *)

Module browserHelper.
Import JsArray Browser.
Local Open Scope browser_scope.

(** [workingTab.context()]; calling it on the undefined working tab throws. *)
Definition workingContext : M nat :=
  fun w =>
    match workingTab w with
    | None => (inl WorkingTabUndefined, w)
    | Some page => (inr (page_context page), w)
    end.

Definition workingContextIndex : M Z :=
  c <- workingContext ;;
  cs <- get_contexts ;;
  ret (indexOf (context_id <$> cs) c).

Definition workingTabIndex : M Z :=
  c <- workingContext ;;
  cs <- get_contexts ;;
  fun w =>
    match workingTab w with
    | None => (inl WorkingTabUndefined, w)
    | Some page => (inr (indexOf (pages_of c cs) page), w)
    end.

Definition latestContextIndex : M Z :=
  cs <- get_contexts ;;
  ret (latest_index cs).

Definition latestTabIndex (contextIndex : Z) : M Z :=
  context <- frameworkDataHelper.getContext contextIndex ;;
  ret (latest_index (context_pages context)).

Definition updateWorkingTab (contextIndex tabIndex : Z) : M unit :=
  page <- frameworkDataHelper.getPage contextIndex tabIndex ;;
  set_workingTab page.

(** The callback of the step [openNewTabInCurrentContext] adds.  Attaching the
    error listeners to the new page changes nothing the helpers track and is
    left out, here and in [openNewTabInNewContext]. *)
Definition openNewTabInCurrentContext (currentPageType : string) : M unit :=
  ci <- workingContextIndex ;;
  ti <- workingTabIndex ;;
  writing (tabDataHelper.updatePageType ci ti currentPageType) ;;;
  c <- workingContext ;;
  newPage <- context_newPage c ;;
  ci <- workingContextIndex ;;
  ci' <- workingContextIndex ;;
  ti <- latestTabIndex ci' ;;
  writing (tabDataHelper.initializePageType ci ti) ;;;
  ci <- workingContextIndex ;;
  ci' <- workingContextIndex ;;
  ti <- latestTabIndex ci' ;;
  updateWorkingTab ci ti.

(** A page type passed as an optional argument counts when it is given and
    not the empty string. *)
Definition given (pageType : option string) : option string :=
  match pageType with
  | Some t => if decide (t = ""%string) then None else Some t
  | None => None
  end.

(** The callback of the step [openNewTabInNewContext] adds.  The optional
    [openAuthenticatedContextCb] is any computation that returns a context. *)
Definition openNewTabInNewContext (openAuthenticatedContextCb : option (M nat))
    (currentPageType : option string) : M unit :=
  match given currentPageType with
  | Some t =>
      ci <- workingContextIndex ;;
      ti <- workingTabIndex ;;
      writing (tabDataHelper.updatePageType ci ti t)
  | None => ret tt
  end ;;;
  newContext <- match openAuthenticatedContextCb with
                | Some cb => cb
                | None => browser_newContext
                end ;;
  newTab <- context_newPage newContext ;;
  writing (fun types => inr (tabDataHelper.initializeContextPageTypes types)) ;;;
  ci <- latestContextIndex ;;
  writing (tabDataHelper.initializePageType ci 0) ;;;
  ci <- latestContextIndex ;;
  updateWorkingTab ci 0.

(** The callback of the step [switchWorkingTab] adds. *)
Definition switchWorkingTab (contextIndex tabIndex : Z)
    (currentPageType nextPageType : string) : M unit :=
  latest <- latestContextIndex ;;
  expect (contextIndex <=? latest) (ExpectContextNotFound contextIndex) ;;;
  latestTab <- latestTabIndex contextIndex ;;
  expect (tabIndex <=? latestTab) (ExpectTabNotFound contextIndex tabIndex) ;;;
  wci <- workingContextIndex ;;
  alreadyWorkingOnTheTab <-
    (if contextIndex =? wci
     then wti <- workingTabIndex ;; ret (tabIndex =? wti)
     else ret false) ;;
  expect (negb alreadyWorkingOnTheTab)
    (ExpectAlreadyWorkingOnTab contextIndex tabIndex) ;;;
  actualPageType <- reading (tabDataHelper.pageType contextIndex tabIndex) ;;
  expect (bool_decide (actualPageType = Some nextPageType))
    (ExpectPageType actualPageType nextPageType) ;;;
  ci <- workingContextIndex ;;
  ti <- workingTabIndex ;;
  writing (tabDataHelper.updatePageType ci ti currentPageType) ;;;
  updateWorkingTab contextIndex tabIndex.

(** The callback of the step [closeContext] adds. *)
Definition closeContext (contextIndex : Z) : M unit :=
  context <- frameworkDataHelper.getContext contextIndex ;;
  wci <- workingContextIndex ;;
  expect (negb (contextIndex =? wci)) (ExpectNotWorkingContext contextIndex) ;;;
  close_pages (context_pages context) ;;;
  context_close (context_id context) ;;;
  writing (fun types => inr (tabDataHelper.removeContextPageTypes contextIndex types)).

(** The callback of the step [closeTab] adds. *)
Definition closeTab (contextIndex tabIndex : Z) : M unit :=
  page <- frameworkDataHelper.getPage contextIndex tabIndex ;;
  wci <- workingContextIndex ;;
  attemptingToCloseWorkingTab <-
    (if contextIndex =? wci
     then wti <- workingTabIndex ;; ret (tabIndex =? wti)
     else ret false) ;;
  expect (negb attemptingToCloseWorkingTab)
    (ExpectNotWorkingTab contextIndex tabIndex) ;;;
  page_close page ;;;
  writing (fun types => inr (tabDataHelper.removeContextPageTypes contextIndex types)).

(** The five operations of the helper, as a test calls them. *)
Inductive operation : Type :=
| OpenNewTabInCurrentContext (currentPageType : string)
| OpenNewTabInNewContext (currentPageType : option string)
| SwitchWorkingTab (contextIndex tabIndex : Z) (currentPageType nextPageType : string)
| CloseContext (contextIndex : Z)
| CloseTab (contextIndex tabIndex : Z).

Definition run (op : operation) : M unit :=
  match op with
  | OpenNewTabInCurrentContext t => openNewTabInCurrentContext t
  | OpenNewTabInNewContext t => openNewTabInNewContext None t
  | SwitchWorkingTab c t cur next => switchWorkingTab c t cur next
  | CloseContext c => closeContext c
  | CloseTab c t => closeTab c t
  end.

(** A test runs its steps one after the other and stops at the first that
    fails. *)
Fixpoint run_all (ops : list operation) : M unit :=
  match ops with
  | [] => ret tt
  | op :: rest => run op ;;; run_all rest
  end.

(** The state at the start of a test: no context is open, no tab is the
    working tab, the table is reset. *)
Definition initial : World :=
  {| contexts := []; workingTab := None; pageTypes := tabDataHelper.resetPageTypes;
     nextId := 0 |}.

(** *** Reading a world *)

(** The page at index [tabIndex] of the context at index [contextIndex]. *)
Definition page_at (w : World) (contextIndex tabIndex : Z) : option Page :=
  match at_index (contexts w) contextIndex with
  | None => None
  | Some context => at_index (context_pages context) tabIndex
  end.

(** The index of the working context and of the working tab in it, when
    there is a working tab. *)
Definition working_indices (w : World) : option (Z * Z) :=
  match workingTab w with
  | None => None
  | Some page =>
      Some (indexOf (context_id <$> contexts w) (page_context page),
            indexOf (pages_of (page_context page) (contexts w)) page)
  end.

(** A step fails on [w] and leaves it as it was. *)
Definition fails_on (m : M unit) (w : World) : Prop :=
  exists e, m w = (inl e, w).

(** The world with another table of page types. *)
Definition with_pageTypes (types : list (gmap Z string)) (w : World) : World :=
  {| contexts := contexts w; workingTab := workingTab w;
     pageTypes := types; nextId := nextId w |}.

(** A page type is recorded for every open tab. *)
Definition tracked (w : World) : Prop :=
  forall c t page,
    page_at w c t = Some page ->
    exists tag, tabDataHelper.pageType c t (pageTypes w) = inr (Some tag).

(** The table is in line with the browser: it has a row for every open
    context and, in the row, a page type for every open tab of the context;
    the open contexts are different objects, each page belongs to the context
    it is listed in, and the objects to come are new. *)
Record aligned (w : World) : Prop := mkAligned {
  aligned_length : List.length (pageTypes w) = List.length (contexts w);
  aligned_types :
    forall (c : nat) context types (t : nat),
      contexts w !! c = Some context -> pageTypes w !! c = Some types ->
      (t < List.length (context_pages context))%nat ->
      is_Some (types !! Z.of_nat t);
  aligned_names : NoDup (context_id <$> contexts w);
  aligned_owner :
    forall context page,
      context ∈ contexts w -> page ∈ context_pages context ->
      page_context page = context_id context;
  aligned_fresh :
    forall context, context ∈ contexts w -> (context_id context < nextId w)%nat;
}.

(** The operations but [closeTab]. *)
Definition keeps_tabs (op : operation) : bool :=
  match op with
  | CloseTab _ _ => false
  | _ => true
  end.

(** *** Closing everything *)

(** The loop of [closeAllContexts] over the array that [browser.contexts()]
    returned: the pages a context has when its turn comes are closed, then
    the context. *)
Fixpoint close_contexts (cs : list BrowserContext) : M unit :=
  match cs with
  | [] => ret tt
  | context :: rest =>
      pages <- pages_now (context_id context) ;;
      close_pages pages ;;;
      context_close (context_id context) ;;;
      close_contexts rest
  end.

Definition closeAllContexts : M unit :=
  cs <- get_contexts ;;
  close_contexts cs.

(** The browser keeps its objects apart: the open contexts are different
    objects, so are the pages of a context; a page belongs to the context it
    is listed in; the objects to come are new; and while a context is open,
    the working tab is an open page. *)
Record well_formed (w : World) : Prop := mkWellFormed {
  wf_names : NoDup (context_id <$> contexts w);
  wf_owner :
    forall context page,
      context ∈ contexts w -> page ∈ context_pages context ->
      page_context page = context_id context;
  wf_pages : forall context, context ∈ contexts w -> NoDup (context_pages context);
  wf_fresh :
    forall context, context ∈ contexts w -> (context_id context < nextId w)%nat;
  wf_fresh_pages :
    forall context page,
      context ∈ contexts w -> page ∈ context_pages context ->
      (page_id page < nextId w)%nat;
  wf_working :
    contexts w <> [] ->
    exists context page,
      workingTab w = Some page /\ context ∈ contexts w /\ page ∈ context_pages context;
}.

End browserHelper.

(** ** channel/requestHelper *)

Module requestHelper.
Import JsArray.

(** An [APIRequestContext] is an object, named by a number.  The two arrays of
    headers are only read and written by index: finite maps from indices to
    the [Map] of the headers. *)
Record State : Type := mkState {
  requestContexts : list nat;
  throwAwayContexts : list nat;
  requestContextsExtraHeaders : gmap Z (gmap string string);
  throwAwayContextsExtraHeaders : gmap Z (gmap string string);
  workingRequestContext : option nat;
}.

Inductive failure : Type :=
| RequestContextNotFound (requestContextIndex : Z)
| ExtraHeadersNotFound
| ExpectContextFound (requestContextIndex : Z)
| ExpectNotAlreadyWorking (requestContextIndex : Z).

(** The state of the module when it is loaded. *)
Definition initial : State :=
  {| requestContexts := []; throwAwayContexts := [];
     requestContextsExtraHeaders := ∅; throwAwayContextsExtraHeaders := ∅;
     workingRequestContext := None |}.

(** [a.indexOf(workingRequestContext)]: -1 while it is undefined. *)
Definition index_of_working (a : list nat) (working : option nat) : Z :=
  match working with
  | None => -1
  | Some c => indexOf a c
  end.

Definition workingRequestContextIndex (s : State) : Z :=
  index_of_working (requestContexts s) (workingRequestContext s).

Definition updateWorkingRequestContext (requestContextIndex : Z) (s : State)
    : failure + State :=
  match at_index (requestContexts s) requestContextIndex with
  | None => inl (RequestContextNotFound requestContextIndex)
  | Some requestContext =>
      inr {| requestContexts := requestContexts s;
             throwAwayContexts := throwAwayContexts s;
             requestContextsExtraHeaders := requestContextsExtraHeaders s;
             throwAwayContextsExtraHeaders := throwAwayContextsExtraHeaders s;
             workingRequestContext := Some requestContext |}
  end.

(** [headers[i] ??= new Map(); headers[i].set(key, value)]. *)
Definition put_at (i : Z) (key value : string)
    (headers : gmap Z (gmap string string)) : gmap Z (gmap string string) :=
  <[i := <[key := value]> (default ∅ (headers !! i))]> headers.

Definition putExtraHeader (key value : string) (s : State) : State :=
  let contextIndex := workingRequestContextIndex s in
  if 0 <=? contextIndex then
    {| requestContexts := requestContexts s;
       throwAwayContexts := throwAwayContexts s;
       requestContextsExtraHeaders :=
         put_at contextIndex key value (requestContextsExtraHeaders s);
       throwAwayContextsExtraHeaders := throwAwayContextsExtraHeaders s;
       workingRequestContext := workingRequestContext s |}
  else
    let throwAwayContextIndex :=
      index_of_working (throwAwayContexts s) (workingRequestContext s) in
    if 0 <=? throwAwayContextIndex then
      {| requestContexts := requestContexts s;
         throwAwayContexts := throwAwayContexts s;
         requestContextsExtraHeaders := requestContextsExtraHeaders s;
         throwAwayContextsExtraHeaders :=
           put_at throwAwayContextIndex key value (throwAwayContextsExtraHeaders s);
         workingRequestContext := workingRequestContext s |}
    else s.

(** [!extraHeaders || extraHeaders.size == 0 ? undefined
     : Object.fromEntries(extraHeaders)]; [None] is [undefined]. *)
Definition headers_object (extraHeaders : option (gmap string string))
    : option (gmap string string) :=
  match extraHeaders with
  | None => None
  | Some m => if decide (size m = 0%nat) then None else Some m
  end.

Definition getExtraHeaders (s : State) : failure + option (gmap string string) :=
  let contextIndex := workingRequestContextIndex s in
  if 0 <=? contextIndex then
    inr (headers_object (requestContextsExtraHeaders s !! contextIndex))
  else
    let throwAwayContextIndex :=
      index_of_working (throwAwayContexts s) (workingRequestContext s) in
    if 0 <=? throwAwayContextIndex then
      inr (headers_object (throwAwayContextsExtraHeaders s !! throwAwayContextIndex))
    else inl ExtraHeadersNotFound.

(** [openNewContext], given the context that [openNewContextCb] or
    [apiRequest().newContext()] returned. *)
Definition openNewContext (newContext : nat) (s : State) : failure + State :=
  let s' :=
    {| requestContexts := requestContexts s ++ [newContext];
       throwAwayContexts := throwAwayContexts s;
       requestContextsExtraHeaders := requestContextsExtraHeaders s;
       throwAwayContextsExtraHeaders := throwAwayContextsExtraHeaders s;
       workingRequestContext := workingRequestContext s |} in
  updateWorkingRequestContext (latest_index (requestContexts s')) s'.

(** [openNewThrowAwayContext], given the context that
    [apiRequest().newContext()] returned. *)
Definition openNewThrowAwayContext (newContext : nat) (s : State) : State :=
  {| requestContexts := requestContexts s;
     throwAwayContexts := throwAwayContexts s ++ [newContext];
     requestContextsExtraHeaders := requestContextsExtraHeaders s;
     throwAwayContextsExtraHeaders := throwAwayContextsExtraHeaders s;
     workingRequestContext := Some newContext |}.

Definition switchWorkingContext (requestContextIndex : Z) (s : State)
    : failure + State :=
  if negb (requestContextIndex <? Z.of_nat (List.length (requestContexts s)))
  then inl (ExpectContextFound requestContextIndex)
  else if requestContextIndex =? workingRequestContextIndex s
  then inl (ExpectNotAlreadyWorking requestContextIndex)
  else updateWorkingRequestContext requestContextIndex s.

(** The calls a test can make. *)
Inductive call : Type :=
| PutExtraHeader (key value : string)
| OpenNewContext (newContext : nat)
| OpenNewThrowAwayContext (newContext : nat)
| SwitchWorkingContext (requestContextIndex : Z).

(** The state a call leaves; a call that throws leaves the state it found. *)
Definition after (c : call) (s : State) : State :=
  match c with
  | PutExtraHeader key value => putExtraHeader key value s
  | OpenNewContext newContext =>
      match openNewContext newContext s with inr s' => s' | inl _ => s end
  | OpenNewThrowAwayContext newContext => openNewThrowAwayContext newContext s
  | SwitchWorkingContext i =>
      match switchWorkingContext i s with inr s' => s' | inl _ => s end
  end.

(** A context that [newContext] creates is a new object: none of those the
    module holds.  The callback of [openNewContext] is documented to create
    its context too. *)
Definition is_new (c : nat) (s : State) : Prop :=
  (c ∉ requestContexts s) ∧ (c ∉ throwAwayContexts s).

(** The states a test reaches from the initial one. *)
Inductive reachable : State -> Prop :=
| reachable_initial : reachable initial
| reachable_put s key value :
    reachable s -> reachable (after (PutExtraHeader key value) s)
| reachable_open s c :
    reachable s -> is_new c s -> reachable (after (OpenNewContext c) s)
| reachable_open_throw_away s c :
    reachable s -> is_new c s -> reachable (after (OpenNewThrowAwayContext c) s)
| reachable_switch s i :
    reachable s -> reachable (after (SwitchWorkingContext i) s).

(** The state after a run of calls, and whether a header was put while [c]
    was the focused context during the run. *)
Fixpoint after_all (calls : list call) (s : State) : State :=
  match calls with
  | [] => s
  | c :: rest => after_all rest (after c s)
  end.

Fixpoint put_while_focused (c : nat) (calls : list call) (s : State) : bool :=
  match calls with
  | [] => false
  | call :: rest =>
      match call with
      | PutExtraHeader _ _ => bool_decide (workingRequestContext s = Some c)
      | _ => false
      end || put_while_focused c rest (after call s)
  end.

(** No header was put while [c] was focused: every [Map] of headers in the
    two arrays sits at the index of some other context. *)
Definition never_put (c : nat) (s : State) : Prop :=
  (forall i m, requestContextsExtraHeaders s !! i = Some m ->
     exists w, w <> c /\ 0 <= i /\ indexOf (requestContexts s) w = i) /\
  (forall j m, throwAwayContextsExtraHeaders s !! j = Some m ->
     exists w, w <> c /\ 0 <= j /\ indexOf (throwAwayContexts s) w = j) /\
  (forall w, workingRequestContext s = Some w ->
     w ∈ requestContexts s \/ w ∈ throwAwayContexts s).

(** The [Map] of the headers of a context: the entry the module reads when the
    context is focused. *)
Definition headers_of (c : nat) (s : State) : option (gmap string string) :=
  if 0 <=? indexOf (requestContexts s) c
  then requestContextsExtraHeaders s !! indexOf (requestContexts s) c
  else throwAwayContextsExtraHeaders s !! indexOf (throwAwayContexts s) c.

(** The context [c] is held and has a header [key] with the value [value]. *)
Definition has_header (c : nat) (key value : string) (s : State) : Prop :=
  (c ∈ requestContexts s \/ c ∈ throwAwayContexts s) /\
  exists m, headers_of c s = Some m /\ m !! key = Some value.

(** Every context a run of calls opens is a new object. *)
Fixpoint opens_new (calls : list call) (s : State) : Prop :=
  match calls with
  | [] => True
  | call :: rest =>
      match call with
      | OpenNewContext c | OpenNewThrowAwayContext c => is_new c s
      | _ => True
      end /\ opens_new rest (after call s)
  end.

(** A header named [key] is put while [c] is focused during a run of calls. *)
Fixpoint put_key_while_focused (c : nat) (key : string) (calls : list call)
    (s : State) : bool :=
  match calls with
  | [] => false
  | call :: rest =>
      match call with
      | PutExtraHeader key' _ =>
          bool_decide (workingRequestContext s = Some c) && bool_decide (key' = key)
      | _ => false
      end || put_key_while_focused c key rest (after call s)
  end.

End requestHelper.

(** ** fixtures/playwrap *)

Module playwrap.
Import Browser frameworkDataHelper.

(** The default of the option [errorListenerOptions]. *)
Definition errorListenerOptions_default : ErrorListenerOptions :=
  {| failOnJsError := false; failOnConnectionError := false;
     failOnRequestError := false |}.

(** What the fixture can fail with: [baseURL is undefined], or what the
    teardown threw. *)
Inductive fixture_failure : Type :=
| BaseURLUndefined
| Teardown (e : failure).

Section Fixture.

(** What the callbacks of the steps of a test act on. *)
Variable W : Type.

(** The variables of the helper modules in one worker process: the browser
    with [workingTab] and [pageTypes], [testData], [stepSequence], the
    variables of frameworkDataHelper, and those of requestHelper. *)
Record Worker : Type := mkWorker {
  tabs : World;
  testData : gmap string (list string);
  stepSequence : stepSequenceHelper.promise W;
  frameworkData : FrameworkData;
  requests : requestHelper.State;
}.

(** The variables when the modules have been loaded and nothing has run. *)
Definition loaded : Worker :=
  {| tabs := browserHelper.initial;
     testData := testDataHelper.resetTestData;
     stepSequence := stepSequenceHelper.resolved;
     frameworkData := {| apiRequest := None; baseUrl := None; browser := None;
                         errorListenerOptions := None |};
     requests := requestHelper.initial |}.

(** [initTestData(baseUrl, apiRequest, browser, errorListenerOptions)];
    [!baseUrl] holds for [undefined] and for the empty string. *)
Definition initTestData (baseUrl : option string) (apiRequest browser : nat)
    (errorListenerOptions : ErrorListenerOptions) (k : Worker)
    : fixture_failure + Worker :=
  match baseUrl with
  | None => inl BaseURLUndefined
  | Some url =>
      if decide (url = ""%string) then inl BaseURLUndefined
      else
        inr {| tabs := browserHelper.with_pageTypes tabDataHelper.resetPageTypes (tabs k);
               testData := testDataHelper.resetTestData;
               stepSequence := stepSequenceHelper.resetStepSequence;
               frameworkData := init apiRequest url browser errorListenerOptions;
               requests := requests k |}
  end.

(** The fixture [auto] around a test.  [use] is the test, which may do
    anything to the variables and to the browser; the teardown after it runs
    whether the test passed or not. *)
Definition auto (baseURL : option string) (request browser : nat)
    (errorListenerOptions : ErrorListenerOptions) (use : Worker -> Worker)
    (k : Worker) : (fixture_failure + unit) * Worker :=
  match initTestData baseURL request browser errorListenerOptions k with
  | inl e => (inl e, k)
  | inr k1 =>
      let k2 := use k1 in
      let (r, w) := browserHelper.closeAllContexts (tabs k2) in
      (match r with inl e => inl (Teardown e) | inr _ => inr tt end,
       {| tabs := w; testData := testData k2; stepSequence := stepSequence k2;
          frameworkData := frameworkData k2; requests := requests k2 |})
  end.

End Fixture.

Arguments tabs {W} _.
Arguments testData {W} _.
Arguments stepSequence {W} _.
Arguments frameworkData {W} _.
Arguments requests {W} _.
Arguments mkWorker {W} _ _ _ _ _.
Arguments initTestData {W} _ _ _ _ _.
Arguments auto {W} _ _ _ _ _ _.

End playwrap.

(** ** A test run, for the examples *)

Module login_test.
Import JsString stepSequenceHelper.

(** A stack, written row by row. *)
Definition rows (l : list string) : str := join newline (lit <$> l).

Definition url : str := lit "file:///repo/src/chaining/stepSequenceHelper.js".

(** The stack of an [Error] created in [getTestCallRowInStack]. *)
Definition engine (message : str) : option str :=
  Some (join newline
    [lit "Error: " ++ message;
     lit "    at getTestCallRowInStack (file:///repo/src/chaining/stepSequenceHelper.js:33:27)";
     lit "    at file:///repo/src/chaining/stepSequenceHelper.js:107:33"]).

(** The [Error] of a failed click, with the row of the [await] of the test. *)
Definition boom : Error :=
  {| err_message := lit "boom";
     err_stack := Some (rows
       ["Error: boom";
        "    at LoginPage.click (/repo/pages/login.ts:21:11)";
        "    at file:///repo/src/chaining/stepSequenceHelper.js:98:13";
        "    at /repo/tests/login.spec.ts:30:5"]) |}.

(** The same failure without the row of the test. *)
Definition boom_without_test_row : Error :=
  {| err_message := lit "boom";
     err_stack := Some (rows
       ["Error: boom";
        "    at LoginPage.click (/repo/pages/login.ts:21:11)";
        "    at file:///repo/src/chaining/stepSequenceHelper.js:98:13"]) |}.

(** The same failure with a stack that has the row of the page object
    only. *)
Definition boom_elsewhere : Error :=
  {| err_message := lit "boom";
     err_stack := Some (rows
       ["Error: boom";
        "    at LoginPage.click (/repo/pages/login.ts:21:11)"]) |}.

(** The stack at an [addStep] call made by a page object that the test
    called. *)
Definition called_from_test : str :=
  rows ["Error";
        "    at Object.addStep (file:///repo/src/chaining/stepSequenceHelper.js:96:21)";
        "    at LoginPage.fill (/repo/pages/login.ts:7:5)";
        "    at /repo/tests/login.spec.ts:12:8"].

(** The stack at an [addStep] call reached through a function of the spec
    file that the test called. *)
Definition called_from_helper_of_test : str :=
  rows ["Error";
        "    at Object.addStep (file:///repo/src/chaining/stepSequenceHelper.js:96:21)";
        "    at LoginPage.fill (/repo/pages/login.ts:7:5)";
        "    at logIn (/repo/tests/login.spec.ts:5:19)";
        "    at /repo/tests/login.spec.ts:12:8"].

(** A failed click in the test of a route file, whose name has a dollar
    sign, and the stack at the [addStep] call of that test. *)
Definition boom_in_route : Error :=
  {| err_message := lit "boom";
     err_stack := Some (rows
       ["Error: boom";
        "    at RoutePage.click (/repo/pages/route.ts:21:11)";
        "    at file:///repo/src/chaining/stepSequenceHelper.js:98:13";
        "    at /repo/tests/routes/$id.spec.ts:30:5"]) |}.

Definition called_from_route_test : str :=
  rows ["Error";
        "    at Object.addStep (file:///repo/src/chaining/stepSequenceHelper.js:96:21)";
        "    at RoutePage.fill (/repo/pages/route.ts:7:5)";
        "    at /repo/tests/routes/$id.spec.ts:12:8"].

Definition route_step_row : str := lit "    at /repo/tests/routes/$id.spec.ts:12:8".
Definition route_await_row : str := lit "    at /repo/tests/routes/$id.spec.ts:30:5".

(** The same call in a file whose name has two dollar signs in a row. *)
Definition called_from_dollars_test : str :=
  rows ["Error";
        "    at Object.addStep (file:///repo/src/chaining/stepSequenceHelper.js:96:21)";
        "    at /repo/tests/routes/$$.spec.ts:12:8"].

(** The state of the callbacks is a counter. *)
Definition passes : nat -> settled * nat := fun n => (Fulfilled, S n).
Definition fails_with (reason : thrown) : nat -> settled * nat :=
  fun n => (Rejected reason, S n).

Definition start : state nat := {| world := 0%nat; report := [] |}.

(** The rows of the spec file in the stacks above. *)
Definition step_row : str := lit "    at /repo/tests/login.spec.ts:12:8".
Definition await_row : str := lit "    at /repo/tests/login.spec.ts:30:5".

End login_test.

(** * Properties *)

(** ** Arrays *)

Module JsArray_facts.
Import JsArray.

Section indexOf.
Context {A : Type} `{EqDecision A}.
Implicit Types (a : list A) (x y : A).

Lemma indexOf_bounds a x : -1 <= indexOf a x < Z.of_nat (List.length a).
Proof.
  induction a as [| y a IH]; simpl; [lia |].
  destruct (decide (x = y)); [lia |].
  destruct (indexOf a x <? 0) eqn:E; [lia |]. apply Z.ltb_ge in E. lia.
Qed.

Lemma indexOf_elem a x : 0 <= indexOf a x <-> x ∈ a.
Proof.
  induction a as [| y a IH]; simpl.
  - split; [lia | by intros ?%elem_of_nil].
  - destruct (decide (x = y)) as [-> | Hne].
    + split; [intros _; left | lia].
    + rewrite elem_of_cons.
      destruct (indexOf a x <? 0) eqn:E.
      * apply Z.ltb_lt in E. split; [lia |]. intros [? | Hin]; [done |].
        apply IH in Hin. lia.
      * apply Z.ltb_ge in E. split; [intros _; right; by apply IH | lia].
Qed.

Lemma indexOf_absent a x : x ∉ a -> indexOf a x = -1.
Proof.
  intros Hnot. pose proof (indexOf_bounds a x).
  destruct (decide (0 <= indexOf a x)) as [Hge |]; [| lia].
  by apply indexOf_elem in Hge.
Qed.

Lemma at_index_indexOf a x : 0 <= indexOf a x -> at_index a (indexOf a x) = Some x.
Proof.
  unfold at_index. induction a as [| y a IH]; simpl; [lia |].
  destruct (decide (x = y)) as [-> | Hne]; [done |].
  destruct (indexOf a x <? 0) eqn:E; [lia |]. apply Z.ltb_ge in E.
  intros _. specialize (IH E).
  destruct (indexOf a x + 1 <? 0) eqn:E''; [apply Z.ltb_lt in E''; lia |].
  replace (Z.to_nat (indexOf a x + 1)) with (S (Z.to_nat (indexOf a x))) by lia.
  exact IH.
Qed.

Lemma indexOf_inj a x y : 0 <= indexOf a x -> indexOf a x = indexOf a y -> x = y.
Proof.
  intros Hx Heq. pose proof (at_index_indexOf a x Hx) as H1.
  rewrite Heq in Hx, H1. rewrite (at_index_indexOf a y Hx) in H1. congruence.
Qed.

Lemma indexOf_app_l a b x : x ∈ a -> indexOf (a ++ b) x = indexOf a x.
Proof.
  induction a as [| y a IH]; simpl; [by intros ?%elem_of_nil |].
  intros Hin. destruct (decide (x = y)); [done |].
  apply elem_of_cons in Hin as [? | Hin]; [done |]. by rewrite IH.
Qed.

Lemma indexOf_app_new a x : x ∉ a -> indexOf (a ++ [x]) x = Z.of_nat (List.length a).
Proof.
  induction a as [| y a IH]; simpl.
  - intros _. by rewrite decide_True.
  - intros Hnot. apply not_elem_of_cons in Hnot as [Hne Hnot].
    rewrite decide_False by done. rewrite (IH Hnot).
    destruct (Z.of_nat (List.length a) <? 0) eqn:E; [apply Z.ltb_lt in E |]; lia.
Qed.

End indexOf.

Lemma at_index_Some {A : Type} (a : list A) (i : Z) (x : A) :
  at_index a i = Some x <-> 0 <= i /\ a !! Z.to_nat i = Some x.
Proof.
  unfold at_index. destruct (i <? 0) eqn:E.
  - apply Z.ltb_lt in E. split; [done | lia].
  - apply Z.ltb_ge in E. tauto.
Qed.

Lemma at_index_in_range {A : Type} (a : list A) (i : Z) :
  0 <= i < Z.of_nat (List.length a) -> is_Some (at_index a i).
Proof.
  intros Hi. unfold at_index. destruct (i <? 0) eqn:E; [apply Z.ltb_lt in E; lia |].
  apply lookup_lt_is_Some. lia.
Qed.

Lemma at_index_elem {A : Type} (a : list A) (i : Z) (x : A) :
  at_index a i = Some x -> x ∈ a.
Proof. intros [_ H]%at_index_Some. by eapply list_elem_of_lookup_2. Qed.

Lemma at_index_latest_app {A : Type} (a : list A) (x : A) :
  at_index (a ++ [x]) (latest_index (a ++ [x])) = Some x.
Proof.
  unfold latest_index, at_index. rewrite length_app. simpl.
  destruct (_ <? 0) eqn:E; [apply Z.ltb_lt in E; lia |].
  replace (Z.to_nat _) with (List.length a + 0)%nat by lia.
  by rewrite lookup_app_r, Nat.add_0_r, Nat.sub_diag by lia.
Qed.

Lemma at_index_nil {A : Type} (i : Z) : at_index (@nil A) i = None.
Proof. unfold at_index. destruct (i <? 0); [done |]. apply lookup_nil. Qed.

Lemma at_index_out_of_bounds {A : Type} (a : list A) (i : Z) :
  i < 0 \/ Z.of_nat (List.length a) <= i -> at_index a i = None.
Proof.
  intros H. unfold at_index. destruct (i <? 0) eqn:Hi; [done |].
  apply Z.ltb_ge in Hi. apply lookup_ge_None. lia.
Qed.

Lemma at_index_app_l {A : Type} (a b : list A) (i : Z) (x : A) :
  at_index a i = Some x -> at_index (a ++ b) i = Some x.
Proof.
  intros [Hi Hx]%at_index_Some. apply at_index_Some. split; [done |].
  by apply lookup_app_l_Some.
Qed.

Lemma at_index_insert {A : Type} (a : list A) (n : nat) (x : A) (i : Z) :
  (n < List.length a)%nat ->
  at_index (<[n := x]> a) i = if decide (i = Z.of_nat n) then Some x else at_index a i.
Proof.
  intros Hn. unfold at_index. destruct (i <? 0) eqn:Hi.
  - apply Z.ltb_lt in Hi. by rewrite decide_False by lia.
  - apply Z.ltb_ge in Hi. destruct (decide (i = Z.of_nat n)) as [-> | Hne].
    + rewrite Nat2Z.id. by apply list_lookup_insert_eq.
    + apply list_lookup_insert_ne. lia.
Qed.

End JsArray_facts.

(** ** Strings and patterns *)

Module JsString_facts.
Import JsString.

(** *** What a pattern matches *)

#[local] Hint Constructors matches : core.

Lemma nullable_matches (r : regex) : nullable r = true <-> matches r [].
Proof.
  split.
  - induction r; simpl; intros H; try done; auto.
    + apply orb_true_iff in H as [H | H]; auto.
    + apply andb_true_iff in H as [H1 H2].
      change (@nil ascii) with (@nil ascii ++ []). auto.
  - intros H. remember [] as s eqn:Hs.
    induction H; simpl; subst; try done.
    + by rewrite IHmatches.
    + rewrite IHmatches; [apply orb_true_r | done].
    + apply app_eq_nil in Hs as [-> ->]. by rewrite IHmatches1, IHmatches2.
Qed.

Lemma matches_deriv (c : ascii) (r : regex) (s : str) :
  matches (deriv c r) s -> matches r (c :: s).
Proof.
  revert s. induction r; simpl; intros s H.
  - inversion H.
  - inversion H.
  - destruct (p c) eqn:Hp; inversion H; subst. by constructor.
  - inversion H; subst; auto.
  - destruct (nullable r1) eqn:Hnull.
    + inversion H as [| | ? ? ? Hl | ? ? ? Hr | | |]; subst.
      * inversion Hl; subst.
        change (c :: s1 ++ s2) with ((c :: s1) ++ s2). auto.
      * apply nullable_matches in Hnull.
        change (c :: s) with ([] ++ c :: s). auto.
    + inversion H; subst.
      change (c :: s1 ++ s2) with ((c :: s1) ++ s2). auto.
  - inversion H; subst.
    change (c :: s1 ++ s2) with ((c :: s1) ++ s2). auto.
Qed.

Lemma deriv_matches (c : ascii) (r : regex) (s : str) :
  matches r (c :: s) -> matches (deriv c r) s.
Proof.
  intros H. remember (c :: s) as cs eqn:Hcs. revert c s Hcs.
  induction H as [| p c1 Hp | r1 r2 s1 H IH | r1 r2 s1 H IH
                 | r1 r2 s1 s2 H1 IH1 H2 IH2 | | r1 s1 s2 H1 IH1 H2 IH2];
    intros c0 s0 Hcs; simpl; try done.
  - injection Hcs as -> <-. rewrite Hp. auto.
  - auto.
  - auto.
  - destruct s1 as [| c1 s1]; simpl in Hcs.
    + subst s2. rewrite (proj2 (nullable_matches r1) H1). auto.
    + injection Hcs as -> <-.
      destruct (nullable r1); auto.
  - destruct s1 as [| c1 s1]; simpl in Hcs.
    + by apply IH2.
    + injection Hcs as -> <-. auto.
Qed.

Lemma match_prefix_spec (r : regex) (s : str) :
  match_prefix r s = true <-> exists m rest, s = m ++ rest /\ matches r m.
Proof.
  revert r. induction s as [| c s IH]; intros r; simpl.
  - rewrite orb_false_r, nullable_matches. split.
    + intros H. by exists [], [].
    + intros (m & rest & Hs & Hm). symmetry in Hs.
      by apply app_eq_nil in Hs as [-> _].
  - rewrite orb_true_iff, nullable_matches, IH. split.
    + intros [H | (m & rest & -> & Hm)].
      * by exists [], (c :: s).
      * exists (c :: m), rest. split; [done |]. by apply matches_deriv.
    + intros (m & rest & Hs & Hm). destruct m as [| c' m]; [by left |].
      injection Hs as <- ->. right. exists m, rest. split; [done |].
      by apply deriv_matches.
Qed.

(** [test] is true exactly when some substring matches. *)
Lemma test_spec (r : regex) (s : str) :
  test r s = true <-> exists a m b, s = a ++ m ++ b /\ matches r m.
Proof.
  induction s as [| c s IH]; simpl.
  - rewrite !orb_false_r, nullable_matches. split.
    + intros H. by exists [], [], [].
    + intros (a & m & b & Hs & Hm). symmetry in Hs.
      apply app_eq_nil in Hs as [-> Hs]. by apply app_eq_nil in Hs as [-> _].
  - rewrite orb_true_iff, IH.
    change (nullable r || match_prefix (deriv c r) s)
      with (match_prefix r (c :: s)).
    rewrite match_prefix_spec. split.
    + intros [(m & rest & -> & Hm) | (a & m & b & -> & Hm)].
      * by exists [], m, rest.
      * by exists (c :: a), m, b.
    + intros (a & m & b & Hs & Hm). destruct a as [| c' a].
      * left. by exists m, b.
      * injection Hs as <- ->. right. by exists a, m, b.
Qed.

(** A string that has a matching part matches. *)
Lemma test_superstring (r : regex) (a s b : str) :
  test r s = true -> test r (a ++ s ++ b) = true.
Proof.
  rewrite !test_spec. intros (a' & m & b' & -> & Hm).
  exists (a ++ a'), m, (b' ++ b). by rewrite <- !app_assoc.
Qed.

Lemma matches_newline_free (r : regex) (m : str) :
  newline_free r = true -> matches r m -> newline ∉ m.
Proof.
  intros Hfree Hm. induction Hm; simpl in Hfree;
    try apply andb_true_iff in Hfree as [H1 H2].
  - apply not_elem_of_nil.
  - intros Heq%list_elem_of_singleton. subst c. by rewrite H in Hfree.
  - auto.
  - auto.
  - rewrite elem_of_app. intros [? | ?]; [by apply IHHm1 | by apply IHHm2].
  - apply not_elem_of_nil.
  - rewrite elem_of_app. intros [? | ?]; [by apply IHHm1 | by apply IHHm2].
Qed.

(** What the parts of a pattern match. *)

Lemma matches_Sym (p : ascii -> bool) (s : str) :
  matches (Sym p) s <-> exists c, s = [c] /\ p c = true.
Proof.
  split.
  - intros H. inversion H; subst. by eexists.
  - intros (c & -> & Hc). by constructor.
Qed.

Lemma matches_Chr (c : ascii) (s : str) : matches (Chr c) s <-> s = [c].
Proof.
  unfold Chr. rewrite matches_Sym. split.
  - intros (c' & -> & ->%Ascii.eqb_eq). done.
  - intros ->. exists c. split; [done | apply Ascii.eqb_refl].
Qed.

Lemma matches_Alt (r1 r2 : regex) (s : str) :
  matches (Alt r1 r2) s <-> matches r1 s \/ matches r2 s.
Proof.
  split.
  - intros H. inversion H; subst; auto.
  - intros [H | H]; auto.
Qed.

Lemma matches_Cat (r1 r2 : regex) (s : str) :
  matches (Cat r1 r2) s <->
  exists s1 s2, s = s1 ++ s2 /\ matches r1 s1 /\ matches r2 s2.
Proof.
  split.
  - intros H. inversion H; subst. by eexists _, _.
  - intros (s1 & s2 & -> & H1 & H2). auto.
Qed.

Lemma matches_Star_Sym (p : ascii -> bool) (s : str) :
  matches (Star (Sym p)) s <-> forallb p s = true.
Proof.
  split.
  - intros H. remember (Star (Sym p)) as r eqn:Hr.
    induction H; try done.
    injection Hr as ->. inversion H; subst. simpl.
    rewrite IHmatches2 by done. by rewrite andb_true_r.
  - induction s as [| c s IH]; simpl; [auto |].
    intros [Hc Hs]%andb_true_iff.
    change (c :: s) with ([c] ++ s). auto.
Qed.

Lemma matches_Plus_Sym (p : ascii -> bool) (s : str) :
  matches (Plus (Sym p)) s <-> s <> [] /\ forallb p s = true.
Proof.
  unfold Plus. rewrite matches_Cat. split.
  - intros (s1 & s2 & -> & (c & -> & Hc)%matches_Sym & Hs%matches_Star_Sym).
    split; [done |]. simpl. by rewrite Hc.
  - intros [Hne Hs]. destruct s as [| c s]; [done |].
    simpl in Hs. apply andb_true_iff in Hs as [Hc Hs].
    exists [c], s. split; [done |]. split; [by constructor | by apply matches_Star_Sym].
Qed.

Lemma matches_Literal (l s : str) : matches (Literal l) s <-> s = l.
Proof.
  revert s. induction l as [| c l IH]; intros s; simpl.
  - split; [intros H; by inversion H | intros ->; auto].
  - rewrite matches_Cat. split.
    + intros (s1 & s2 & -> & ->%matches_Chr & ->%IH). done.
    + intros ->. exists [c], l. split; [done |]. split; [by apply matches_Chr | by apply IH].
Qed.

(** *** Rows *)

Lemma split_cons (sep : ascii) (s : str) :
  exists row rows, split sep s = row :: rows.
Proof.
  destruct s as [| c s]; simpl; [by eexists _, _ |].
  destruct (Ascii.eqb c sep); [by eexists _, _ |].
  destruct (split sep s); by eexists _, _.
Qed.

Lemma join_cons (sep : ascii) (row row' : str) (rows : list str) :
  join sep (row :: row' :: rows) = row ++ sep :: join sep (row' :: rows).
Proof. done. Qed.

Lemma join_split (sep : ascii) (s : str) : join sep (split sep s) = s.
Proof.
  induction s as [| c s IH]; [done |]. simpl.
  destruct (split_cons sep s) as (row & rows & Hs). rewrite Hs in IH |- *.
  destruct (Ascii.eqb c sep) eqn:Hc.
  - apply Ascii.eqb_eq in Hc as ->. by rewrite join_cons, IH.
  - destruct rows as [| row' rows]; simpl in IH |- *; by rewrite <- IH.
Qed.

Lemma split_sep_free (sep : ascii) (s row : str) :
  row ∈ split sep s -> sep ∉ row.
Proof.
  revert row. induction s as [| c s IH]; intros row; simpl.
  - intros ->%list_elem_of_singleton. apply not_elem_of_nil.
  - destruct (split_cons sep s) as (row0 & rows & Hs). rewrite Hs in IH |- *.
    destruct (Ascii.eqb c sep) eqn:Hc.
    + intros [-> | Hin]%elem_of_cons; [apply not_elem_of_nil | by apply IH].
    + apply Ascii.eqb_neq in Hc.
      intros [-> | Hin]%elem_of_cons.
      * apply not_elem_of_cons. split; [done |]. apply IH. by left.
      * apply IH. by right.
Qed.

Lemma split_free (sep : ascii) (row : str) : sep ∉ row -> split sep row = [row].
Proof.
  induction row as [| c row IH]; [done |]. simpl.
  intros [Hc Hrow]%not_elem_of_cons.
  rewrite (proj2 (Ascii.eqb_neq c sep)) by done. by rewrite IH.
Qed.

Lemma split_app_sep (sep : ascii) (row rest : str) :
  sep ∉ row -> split sep (row ++ sep :: rest) = row :: split sep rest.
Proof.
  induction row as [| c row IH]; simpl.
  - intros _. by rewrite Ascii.eqb_refl.
  - intros [Hc Hrow]%not_elem_of_cons.
    rewrite (proj2 (Ascii.eqb_neq c sep)) by done. by rewrite IH.
Qed.

Lemma split_join (sep : ascii) (rows : list str) :
  rows <> [] -> (forall row, row ∈ rows -> sep ∉ row) ->
  split sep (join sep rows) = rows.
Proof.
  induction rows as [| row rows IH]; [done |]. intros _ Hfree.
  destruct rows as [| row' rows].
  - simpl. apply split_free, Hfree. by left.
  - rewrite join_cons, split_app_sep by (apply Hfree; by left).
    rewrite IH; [done.. |]. intros r Hr. apply Hfree. by right.
Qed.

(** A row of a string is a part of it. *)
Lemma join_elem (sep : ascii) (rows : list str) (row : str) :
  row ∈ rows -> exists a b, join sep rows = a ++ row ++ b.
Proof.
  induction rows as [| row0 rows IH]; [by intros ?%elem_of_nil |].
  intros [-> | Hin]%elem_of_cons.
  - destruct rows as [| row' rows].
    + exists [], []. simpl. by rewrite app_nil_r.
    + by exists [], (sep :: join sep (row' :: rows)).
  - destruct (IH Hin) as (a & b & Hab).
    destruct rows as [| row' rows]; [by apply elem_of_nil in Hin |].
    rewrite join_cons, Hab. exists (row0 ++ sep :: a), b.
    by rewrite <- app_assoc.
Qed.

Lemma test_row (r : regex) (s row : str) :
  row ∈ split newline s -> test r row = true -> test r s = true.
Proof.
  intros Hin Hrow. destruct (join_elem newline _ _ Hin) as (a & b & Hs).
  rewrite join_split in Hs. rewrite Hs. by apply test_superstring.
Qed.

Lemma filter_singleton {A : Type} (f : A -> bool) (l : list A) (x : A) :
  List.filter f l = [x] ->
  exists before after,
    l = before ++ x :: after /\
    (forall y, y ∈ before -> f y = false) /\
    (forall y, y ∈ after -> f y = false) /\
    f x = true.
Proof.
  induction l as [| y l IH]; simpl; [done |].
  destruct (f y) eqn:Hy.
  - intros [= -> Hl]. exists [], l. repeat split; [by intros ? ?%elem_of_nil | | done].
    intros z Hz. destruct (f z) eqn:Hfz; [| done].
    assert (z ∈ List.filter f l) as Hin.
    { apply list_elem_of_In, filter_In. split; [by apply list_elem_of_In | done]. }
    rewrite Hl in Hin. by apply elem_of_nil in Hin.
  - intros Hl. destruct (IH Hl) as (before & after & -> & Hb & Ha & Hx).
    exists (y :: before), after. repeat split; [| done..].
    intros z [-> | Hz]%elem_of_cons; auto.
Qed.

Lemma filter_nil_iff {A : Type} (f : A -> bool) (l : list A) :
  List.filter f l = [] <-> forall x, x ∈ l -> f x = false.
Proof.
  induction l as [| y l IH]; simpl.
  - split; [by intros _ x ?%elem_of_nil | done].
  - destruct (f y) eqn:Hy.
    + split; [done |]. intros H. rewrite H in Hy; [done | by left].
    + rewrite IH. split.
      * intros H x [-> | Hx]%elem_of_cons; auto.
      * intros H x Hx. apply H. by right.
Qed.

Lemma filter_singleton_iff {A : Type} (f : A -> bool) (l : list A) (x : A) :
  List.filter f l = [x] <->
  exists before after,
    l = before ++ x :: after /\ f x = true /\
    (forall y, y ∈ before -> f y = false) /\
    (forall y, y ∈ after -> f y = false).
Proof.
  split.
  - intros H. destruct (filter_singleton f l x H) as (before & after & ? & ? & ? & ?).
    by exists before, after.
  - intros (before & after & -> & Hx & Hb & Ha).
    rewrite List.filter_app. simpl. rewrite Hx.
    by rewrite (proj2 (filter_nil_iff f before) Hb), (proj2 (filter_nil_iff f after) Ha).
Qed.

Lemma filter_cons_inv {A : Type} (f : A -> bool) (l : list A) (x : A) (rest : list A) :
  List.filter f l = x :: rest ->
  exists before after,
    l = before ++ x :: after /\ f x = true /\ List.filter f after = rest.
Proof.
  induction l as [| y l IH]; simpl; [done |].
  destruct (f y) eqn:Hy.
  - intros [= -> Hl]. by exists [], l.
  - intros Hl. destruct (IH Hl) as (before & after & -> & Hx & Hrest).
    by exists (y :: before), after.
Qed.

Lemma filter_two_iff {A : Type} (f : A -> bool) (l : list A) :
  (1 < List.length (List.filter f l))%nat <->
  exists a x b y c, l = a ++ x :: b ++ y :: c /\ f x = true /\ f y = true.
Proof.
  split.
  - destruct (List.filter f l) as [| x [| y rest]] eqn:Hl; simpl; [lia | lia |].
    intros _. apply filter_cons_inv in Hl as (a & after & -> & Hx & Hafter).
    apply filter_cons_inv in Hafter as (b & c & -> & Hy & _).
    by exists a, x, b, y, c.
  - intros (a & x & b & y & c & -> & Hx & Hy).
    rewrite List.filter_app. simpl. rewrite Hx, List.filter_app. simpl. rewrite Hy.
    rewrite !length_app. simpl. rewrite length_app. simpl. lia.
Qed.

(** *** Searching and replacing *)

Lemma starts_with_spec (p s : str) :
  starts_with p s = true <-> exists b, s = p ++ b.
Proof.
  revert s. induction p as [| a p IH]; intros s; simpl.
  - split; [intros _; by exists s | done].
  - destruct s as [| c s].
    + split; [done | by intros [b Hb]].
    + rewrite andb_true_iff, Ascii.eqb_eq, IH. split.
      * intros [-> [b ->]]. by exists b.
      * intros [b [= -> ->]]. split; [done | by exists b].
Qed.

Lemma includes_spec (s p : str) :
  includes s p = true <-> exists a b, s = a ++ p ++ b.
Proof.
  induction s as [| c s IH]; simpl.
  - rewrite orb_false_r, starts_with_spec. split.
    + intros [b Hb]. by exists [], b.
    + intros (a & b & Hs). symmetry in Hs. apply app_eq_nil in Hs as [-> Hs].
      apply app_eq_nil in Hs as [-> ->]. by exists [].
  - rewrite orb_true_iff, starts_with_spec, IH. split.
    + intros [[b Hb] | (a & b & ->)]; [by exists [], b | by exists (c :: a), b].
    + intros (a & b & Hs). destruct a as [| c' a].
      * left. by exists b.
      * injection Hs as <- ->. right. by exists a, b.
Qed.

(** A row that does not match a pattern includes no text that does. *)
Lemma includes_test (r : regex) (row p : str) :
  test r p = true -> test r row = false -> includes row p = false.
Proof.
  intros Hp Hrow. destruct (includes row p) eqn:Hin; [| done].
  apply includes_spec in Hin as (a & b & ->).
  by rewrite test_superstring in Hrow.
Qed.

Lemma find_here (p b : str) : find p (p ++ b) = Some ([], b).
Proof.
  assert (starts_with p (p ++ b) = true) as Hp by (apply starts_with_spec; by exists b).
  destruct (p ++ b) as [| c s] eqn:Hs; simpl; rewrite Hp, <- Hs;
    by rewrite skipn_app, skipn_all, Nat.sub_diag.
Qed.

Lemma starts_with_across (p row rest : str) :
  newline ∉ p -> starts_with p (row ++ newline :: rest) = true ->
  starts_with p row = true.
Proof.
  revert row. induction p as [| a p IH]; intros row Hfree; [done |].
  apply not_elem_of_cons in Hfree as [Ha Hp].
  destruct row as [| c row]; simpl.
  - intros [->%Ascii.eqb_eq _]%andb_true_iff. done.
  - intros [-> H]%andb_true_iff. simpl. by apply IH.
Qed.

(** A text without a newline that no part of a row is first occurs, if at
    all, after the row. *)
Lemma find_after_row (p row rest : str) :
  newline ∉ p -> includes row p = false ->
  find p (row ++ newline :: rest) =
    match find p rest with
    | Some (a, b) => Some (row ++ newline :: a, b)
    | None => None
    end.
Proof.
  intros Hfree. induction row as [| c row IH]; intros Hrow.
  - simpl in Hrow. rewrite orb_false_r in Hrow.
    destruct p as [| a p]; [done |].
    apply not_elem_of_cons in Hfree as [Ha _].
    cbn [app find starts_with].
    rewrite (proj2 (Ascii.eqb_neq a newline)) by done. simpl.
    by destruct (find (a :: p) rest) as [[x y] |].
  - simpl in Hrow. apply orb_false_iff in Hrow as [Hhere Hrow].
    change ((c :: row) ++ newline :: rest) with (c :: (row ++ newline :: rest)).
    cbn [find].
    destruct (starts_with p (c :: row ++ newline :: rest)) eqn:Hsw.
    + apply (starts_with_across p (c :: row)) in Hsw; [congruence | done].
    + rewrite (IH Hrow). by destruct (find p rest) as [[x y] |].
Qed.

(** A text without a newline that a string includes is in one of its rows. *)
Lemma includes_across (row rest p : str) :
  newline ∉ p -> includes (row ++ newline :: rest) p = true ->
  includes row p = true \/ includes rest p = true.
Proof.
  intros Hfree. induction row as [| c row IH].
  - change (includes ([] ++ newline :: rest) p)
      with (starts_with p (newline :: rest) || includes rest p).
    intros [Hhere | Hrest]%orb_true_iff; [left | right; exact Hrest].
    destruct p as [| a p]; [reflexivity |].
    apply not_elem_of_cons in Hfree as [Ha _]. simpl in Hhere.
    by rewrite (proj2 (Ascii.eqb_neq a newline)) in Hhere.
  - change (includes ((c :: row) ++ newline :: rest) p)
      with (starts_with p (c :: row ++ newline :: rest)
            || includes (row ++ newline :: rest) p).
    change (includes (c :: row) p)
      with (starts_with p (c :: row) || includes row p).
    intros [Hhere | Hrest]%orb_true_iff.
    + left. apply orb_true_iff. left.
      by apply (starts_with_across p (c :: row) rest).
    + destruct (IH Hrest) as [Hrow | Hrest']; [left | by right].
      apply orb_true_iff. by right.
Qed.

Lemma includes_join (rows : list str) (p : str) :
  newline ∉ p -> rows <> [] ->
  (forall row, row ∈ rows -> includes row p = false) ->
  includes (join newline rows) p = false.
Proof.
  intros Hfree. induction rows as [| row rows IH]; [done |]. intros _ Hrows.
  destruct rows as [| row' rows]; [apply Hrows; by left |].
  rewrite join_cons.
  destruct (includes (row ++ newline :: join newline (row' :: rows)) p) eqn:Hin;
    [| done].
  apply includes_across in Hin as [Hin | Hin]; [| | done].
  - rewrite Hrows in Hin; [done | by left].
  - rewrite IH in Hin; [done.. |]. intros r Hr. apply Hrows. by right.
Qed.

Lemma substitution_plain (rep matched before after : str) :
  includes rep ["$"%char] = false -> substitution rep matched before after = rep.
Proof.
  induction rep as [| c rep IH]; [done |].
  cbn [includes starts_with substitution]. intros Hrep.
  rewrite (Ascii.eqb_sym c).
  destruct (Ascii.eqb "$" c) eqn:Hc; [done |]. simpl in Hrep.
  by rewrite IH.
Qed.

(** A replacement text without a pattern stands for itself, dollar signs
    included. *)
Lemma substitution_literal (rep matched before after : str) :
  has_dollar_pattern rep = false -> substitution rep matched before after = rep.
Proof.
  induction rep as [| c rep IH]; [done |].
  cbn [has_dollar_pattern substitution].
  intros [Hc Hrep]%orb_false_iff. specialize (IH Hrep).
  destruct (Ascii.eqb c "$") eqn:Ec; [| by rewrite IH].
  destruct rep as [| d rep]; [done |]. simpl in Hc.
  apply orb_false_iff in Hc as [Hc H4]. apply orb_false_iff in Hc as [Hc H3].
  apply orb_false_iff in Hc as [H1 H2].
  rewrite H1, H2, H3, H4. by rewrite IH.
Qed.

(** Replacing a row by a text that stands for itself: [p] is a row of the
    string and no row before it includes it. *)
Lemma replace_row_with (before after : list str) (p rep : str) :
  newline ∉ p ->
  (forall row, row ∈ before -> includes row p = false) ->
  (forall a b, substitution rep p a b = rep) ->
  replace (join newline (before ++ p :: after)) p rep
    = join newline (before ++ rep :: after).
Proof.
  intros Hfree Hbefore Hrep. unfold replace.
  assert (forall tail,
    find p (join newline (before ++ p :: tail)) <> None /\
    forall a b, find p (join newline (before ++ p :: tail)) = Some (a, b) ->
      forall x, a ++ x ++ b = join newline (before ++ x :: tail)) as Hfind.
  { intros tail. induction before as [| row before IH].
    - assert (exists b, join newline (p :: tail) = p ++ b /\
                forall x, join newline (x :: tail) = x ++ b) as (b & Hb & Hx).
      { destruct tail as [| row' tail].
        - exists []. split; [simpl; by rewrite app_nil_r |].
          intros x. simpl. by rewrite app_nil_r.
        - by exists (newline :: join newline (row' :: tail)). }
      simpl app. rewrite Hb, find_here. split; [done |].
      intros a b' [= <- <-] x. by rewrite Hx.
    - assert (exists rows, before ++ p :: tail = rows /\ rows <> []) as (rows & Hrows & Hne).
      { eexists. split; [done |]. by destruct before. }
      assert (forall x, join newline ((row :: before) ++ x :: tail)
                = row ++ newline :: join newline (before ++ x :: tail)) as Hjoin.
      { intros x. simpl app. destruct (before ++ x :: tail) eqn:E; [| done].
        by destruct before. }
      rewrite Hjoin, find_after_row; [| done | apply Hbefore; by left].
      destruct IH as [Hsome Hparts]; [intros r Hr; apply Hbefore; by right |].
      destruct (find p (join newline (before ++ p :: tail))) as [[a b] |]; [| done].
      split; [done |]. intros a' b' [= <- <-] x.
      transitivity (row ++ newline :: join newline (before ++ x :: tail));
        [| symmetry; apply Hjoin].
      rewrite <- (Hparts a b eq_refl x). by rewrite <- app_assoc. }
  destruct (Hfind after) as [Hsome Hparts].
  destruct (find p (join newline (before ++ p :: after))) as [[a b] |]; [| done].
  rewrite Hrep. by apply Hparts.
Qed.

(** Replacing a row by a plain row: the replacement has no dollar sign. *)
Lemma replace_row (before after : list str) (p rep : str) :
  newline ∉ p ->
  (forall row, row ∈ before -> includes row p = false) ->
  includes rep ["$"%char] = false ->
  replace (join newline (before ++ p :: after)) p rep
    = join newline (before ++ rep :: after).
Proof.
  intros Hfree Hbefore Hrep. apply replace_row_with; [done.. |].
  intros a b. by apply substitution_plain.
Qed.

End JsString_facts.

(** ** testDataHelper *)

Module testDataHelper_facts.
Import JsArray JsArray_facts testDataHelper.

(** The values stored under a key after some more calls: those that were
    there, followed by those the calls pushed under the key. *)
Lemma lookup_fold_pushTestData (calls : list (string * string)) (key : string)
    (testData : gmap string (list string)) :
  fold_left (fun td kv => pushTestData kv.1 kv.2 td) calls testData !! key =
    match testData !! key, values_pushed key calls with
    | None, [] => None
    | None, values => Some values
    | Some old, values => Some (old ++ values)
    end.
Proof.
  revert testData.
  induction calls as [| [k v] calls IH]; intros testData; simpl.
  - destruct (testData !! key); [by rewrite app_nil_r | done].
  - rewrite IH. unfold values_pushed, pushTestData. simpl.
    case_bool_decide as Hk; simpl.
    + subst k. destruct (testData !! key) as [old |] eqn:Hold;
        rewrite lookup_insert_eq.
      * by rewrite <- app_assoc.
      * done.
    + destruct (testData !! k) as [old |] eqn:Hold;
        rewrite lookup_insert_ne by done; done.
Qed.

Lemma lookup_pushed (calls : list (string * string)) (key : string) :
  pushed calls !! key =
    match values_pushed key calls with
    | [] => None
    | values => Some values
    end.
Proof.
  unfold pushed. rewrite lookup_fold_pushTestData.
  unfold resetTestData. by rewrite lookup_empty.
Qed.

(** What [getTestData] returns after a run of pushes, from the values the run
    pushed under the key. *)
Lemma getTestData_pushed (calls : list (string * string)) (key : string) (index : Z) :
  getTestData key index (pushed calls) =
    match at_index (values_pushed key calls) index with
    | None => None
    | Some value => if decide (value = ""%string) then None else Some value
    end.
Proof.
  unfold getTestData. rewrite lookup_pushed.
  destruct (values_pushed key calls) as [| v vs] eqn:E.
  - by rewrite at_index_nil.
  - done.
Qed.

Lemma values_pushed_never (calls : list (string * string)) (key : string) :
  key ∉ calls.*1 -> values_pushed key calls = [].
Proof.
  unfold values_pushed. induction calls as [| [k v] calls IH]; simpl; [done |].
  intros Hnot. apply not_elem_of_cons in Hnot as [Hne Hnot].
  case_bool_decide; simpl in *; [congruence | auto].
Qed.

(** C8.  After any run of [pushTestData] calls on a reset store,
    [getTestData(key, index)] returns the [index]-th value pushed under [key]
    when that value is not the empty string, and throws when the key was never
    pushed, when the index is out of bounds for the values of the key, and
    when the value stored there is the empty string: a pushed empty string
    cannot be read back. *)
Theorem getTestData_after_pushes (calls : list (string * string)) (key : string)
    (index : Z) :
  (forall value,
      at_index (values_pushed key calls) index = Some value ->
      value <> ""%string ->
      getTestData key index (pushed calls) = Some value) /\
  (key ∉ calls.*1 -> getTestData key index (pushed calls) = None) /\
  (index < 0 \/ Z.of_nat (List.length (values_pushed key calls)) <= index ->
      getTestData key index (pushed calls) = None) /\
  (at_index (values_pushed key calls) index = Some ""%string ->
      getTestData key index (pushed calls) = None).
Proof.
  rewrite getTestData_pushed. repeat split.
  - intros value -> Hne. by destruct (decide (value = ""%string)).
  - intros Hnever. rewrite (values_pushed_never _ _ Hnever).
    by rewrite at_index_nil.
  - intros Hout. by rewrite (at_index_out_of_bounds _ _ Hout).
  - intros ->. done.
Qed.

(** The store of a test that pushed an empty user name between two others. *)
Example getTestData_example :
  let calls := [("user", "ann"); ("user", ""); ("id", "7"); ("user", "bob")]%string in
  getTestData "user" 0 (pushed calls) = Some "ann"%string /\
  getTestData "user" 1 (pushed calls) = None /\
  getTestData "user" 2 (pushed calls) = Some "bob"%string /\
  getTestData "user" 3 (pushed calls) = None /\
  getTestData "user" (-1) (pushed calls) = None /\
  getTestData "name" 0 (pushed calls) = None.
Proof. vm_compute. repeat split. Qed.

(** X17.  The store only grows: a value that [getTestData(key, index)]
    returns is returned for the same key and index after any further calls of
    [pushTestData], under the same key or another. *)
Theorem test_data_is_kept (calls : list (string * string))
    (testData : gmap string (list string)) (key : string) (index : Z) (value : string) :
  getTestData key index testData = Some value ->
  getTestData key index
    (fold_left (fun td kv => pushTestData kv.1 kv.2 td) calls testData) = Some value.
Proof.
  unfold getTestData. rewrite lookup_fold_pushTestData.
  destruct (testData !! key) as [old |]; [| done].
  destruct (at_index old index) as [v |] eqn:Hv; [| done].
  intros Hvalue.
  by rewrite (at_index_app_l _ (values_pushed key calls) _ _ Hv).
Qed.

(** A user name is pushed; then another one, and an id. *)
Lemma test_data_is_kept_witness :
  getTestData "user" 0
    (fold_left (fun td kv => pushTestData kv.1 kv.2 td)
       [("user", "bob"); ("id", "7")]%string (pushed [("user", "ann")]%string))
    = Some "ann"%string.
Proof.
  apply (test_data_is_kept [("user", "bob"); ("id", "7")]%string
           (pushed [("user", "ann")]%string) "user" 0 "ann").
  reflexivity.
Defined.

End testDataHelper_facts.

(** ** tabDataHelper *)

Module tabDataHelper_facts.
Import JsArray JsArray_facts tabDataHelper.

(** X16.  The table of page types, written and read back.
    [updatePageType(c, t, tag)] throws, for want of a row, exactly when [c] is
    not the index of a context in the table; otherwise the table keeps its
    number of rows, [pageType(c, t)] is [tag] afterwards, and [pageType] at
    every other pair of indices returns or throws what it did before.
    [initializePageType(c, t)] does the same with ["Blank"]. *)
Theorem pageType_after_updatePageType (pageTypes : list (gmap Z string))
    (contextIndex tabIndex : Z) (tag : string) :
  match updatePageType contextIndex tabIndex tag pageTypes with
  | inl e =>
      e = NoPageTypesFound contextIndex /\
      (contextIndex < 0 \/ Z.of_nat (List.length pageTypes) <= contextIndex)
  | inr pageTypes' =>
      0 <= contextIndex < Z.of_nat (List.length pageTypes) /\
      List.length pageTypes' = List.length pageTypes /\
      forall c t,
        pageType c t pageTypes' =
          if decide (c = contextIndex /\ t = tabIndex) then inr (Some tag)
          else pageType c t pageTypes
  end /\
  initializePageType contextIndex tabIndex pageTypes
    = updatePageType contextIndex tabIndex "Blank" pageTypes.
Proof.
  split; [| done].
  unfold updatePageType, pageType, contextPageTypes.
  destruct (at_index pageTypes contextIndex) as [row |] eqn:Hrow.
  - pose proof Hrow as [Hge Hlookup]%at_index_Some.
    pose proof (lookup_lt_Some _ _ _ Hlookup) as Hlt.
    split; [lia |]. split; [by rewrite length_insert |].
    intros c t. rewrite at_index_insert by done. rewrite Z2Nat.id by done.
    destruct (decide (c = contextIndex)) as [-> | Hc].
    + rewrite Hrow. destruct (decide (t = tabIndex)) as [-> | Ht].
      * rewrite decide_True by done. by rewrite lookup_insert_eq.
      * rewrite decide_False by (intros [_ ?]; done). by rewrite lookup_insert_ne.
    + by rewrite decide_False by (intros [? _]; done).
  - split; [done |].
    destruct (decide (contextIndex < 0)) as [| Hge]; [by left | right].
    destruct (decide (Z.of_nat (List.length pageTypes) <= contextIndex)) as [| Hlt]; [done |].
    destruct (at_index_in_range pageTypes contextIndex) as [row Hsome]; [lia |].
    congruence.
Qed.

(** A table with the page types of two tabs of one context. *)
Example pageType_example :
  let pageTypes := [ {[ 0 := "Home"; 1 := "Cart" ]} ]%string in
  (forall types, updatePageType 0 1 "Help" pageTypes = inr types ->
     pageType 0 0 types = inr (Some "Home"%string) /\
     pageType 0 1 types = inr (Some "Help"%string) /\
     pageType 0 2 types = inr None /\
     pageType 0 (-1) types = inr None) /\
  updatePageType 1 0 "Help" pageTypes = inl (NoPageTypesFound 1) /\
  updatePageType (-1) 0 "Help" pageTypes = inl (NoPageTypesFound (-1)).
Proof.
  split; [| by split]. intros types [= <-]. by vm_compute.
Qed.

End tabDataHelper_facts.

(** ** requestHelper *)

Module requestHelper_facts.
Import JsArray JsArray_facts requestHelper.

Lemma openNewContext_inr (c : nat) (s : State) :
  openNewContext c s =
    inr {| requestContexts := requestContexts s ++ [c];
           throwAwayContexts := throwAwayContexts s;
           requestContextsExtraHeaders := requestContextsExtraHeaders s;
           throwAwayContextsExtraHeaders := throwAwayContextsExtraHeaders s;
           workingRequestContext := Some c |}.
Proof.
  unfold openNewContext, updateWorkingRequestContext. simpl.
  by rewrite at_index_latest_app.
Qed.

(** What a successful [switchWorkingContext] leaves. *)
Lemma switchWorkingContext_inr (i : Z) (s s' : State) :
  switchWorkingContext i s = inr s' ->
  workingRequestContext s' = at_index (requestContexts s) i /\
  is_Some (at_index (requestContexts s) i) /\
  requestContexts s' = requestContexts s /\
  throwAwayContexts s' = throwAwayContexts s /\
  requestContextsExtraHeaders s' = requestContextsExtraHeaders s /\
  throwAwayContextsExtraHeaders s' = throwAwayContextsExtraHeaders s.
Proof.
  unfold switchWorkingContext, updateWorkingRequestContext.
  destruct (negb _); [done |].
  destruct (_ =? _); [done |].
  destruct (at_index (requestContexts s) i) as [c |]; [| done].
  intros [= <-]. simpl. eauto 10.
Qed.

Lemma putExtraHeader_frame (key value : string) (s : State) :
  requestContexts (putExtraHeader key value s) = requestContexts s /\
  throwAwayContexts (putExtraHeader key value s) = throwAwayContexts s /\
  workingRequestContext (putExtraHeader key value s) = workingRequestContext s.
Proof.
  unfold putExtraHeader.
  destruct (0 <=? workingRequestContextIndex s); [done |].
  destruct (0 <=? index_of_working _ _); done.
Qed.

(** In a state a test reaches, the persistent contexts and the throw-away
    contexts are different objects. *)
Lemma reachable_disjoint (s : State) :
  reachable s -> forall c, c ∈ throwAwayContexts s -> c ∉ requestContexts s.
Proof.
  induction 1 as [| s key value _ IH | s c _ IH [Hr Ht] | s c _ IH [Hr Ht]
                 | s i _ IH]; simpl.
  - by intros c ?%elem_of_nil.
  - destruct (putExtraHeader_frame key value s) as (-> & -> & _). exact IH.
  - rewrite openNewContext_inr. simpl. intros c' Hin Hin'.
    apply elem_of_app in Hin' as [Hin' | ->%list_elem_of_singleton];
      [by eapply IH | done].
  - intros c' [Hin | ->%list_elem_of_singleton]%elem_of_app; [by apply IH | done].
  - destruct (switchWorkingContext i s) as [e | s'] eqn:E; [exact IH |].
    apply switchWorkingContext_inr in E as (_ & _ & -> & -> & _). exact IH.
Qed.

(** The focused context is one of the contexts the module holds; this needs
    nothing of the contexts passed in. *)
Lemma after_held (c : call) (s : State) :
  (forall w, workingRequestContext s = Some w ->
             w ∈ requestContexts s \/ w ∈ throwAwayContexts s) ->
  forall w, workingRequestContext (after c s) = Some w ->
            w ∈ requestContexts (after c s) \/ w ∈ throwAwayContexts (after c s).
Proof.
  intros IH. destruct c as [key value | c | c | i]; simpl.
  - destruct (putExtraHeader_frame key value s) as (-> & -> & ->). exact IH.
  - rewrite openNewContext_inr. simpl. intros w [= <-]. left.
    apply elem_of_app. right. by apply list_elem_of_singleton.
  - intros w [= <-]. right. apply elem_of_app. right. by apply list_elem_of_singleton.
  - destruct (switchWorkingContext i s) as [e | s'] eqn:E; [exact IH |].
    apply switchWorkingContext_inr in E as (Hw & _ & -> & -> & _).
    intros w Hs'. rewrite Hs' in Hw. left. by eapply at_index_elem.
Qed.

Lemma reachable_held (s : State) (w : nat) :
  reachable s -> workingRequestContext s = Some w ->
  w ∈ requestContexts s \/ w ∈ throwAwayContexts s.
Proof.
  intros Hs. revert w.
  induction Hs; try (by apply after_held); done.
Qed.

(** C7, as the source has it.  [switchWorkingContext(i)] fails when [i] is
    negative, when [i] is not less than the number of persistent request
    contexts, and when [i] is the index of the focused persistent context
    (which is -1 while a throw-away context, or none, is focused); otherwise
    it makes the persistent context at index [i] the focused one and changes
    nothing else.  The context it focuses is always one of the array of the
    persistent contexts.  So no call of it focuses a throw-away context in a
    state that a test reaches by calls in which every context opened is a new
    object, one that the module does not hold yet: there no context is in
    both arrays. *)
Theorem switchWorkingContext_spec (i : Z) (s : State) :
  (i < 0 \/ Z.of_nat (List.length (requestContexts s)) <= i \/
   i = workingRequestContextIndex s ->
     exists e, switchWorkingContext i s = inl e) /\
  (0 <= i < Z.of_nat (List.length (requestContexts s)) ->
   i <> workingRequestContextIndex s ->
     exists c s',
       at_index (requestContexts s) i = Some c /\
       switchWorkingContext i s = inr s' /\
       workingRequestContext s' = Some c /\
       requestContexts s' = requestContexts s /\
       throwAwayContexts s' = throwAwayContexts s /\
       requestContextsExtraHeaders s' = requestContextsExtraHeaders s /\
       throwAwayContextsExtraHeaders s' = throwAwayContextsExtraHeaders s) /\
  (forall c s',
     switchWorkingContext i s = inr s' -> workingRequestContext s' = Some c ->
     c ∈ requestContexts s) /\
  (reachable s ->
   forall c s', c ∈ throwAwayContexts s ->
     switchWorkingContext i s = inr s' -> workingRequestContext s' <> Some c).
Proof.
  split; [| split; [| split]].
  - intros Hfail. unfold switchWorkingContext.
    destruct (i <? _) eqn:Hlt; simpl; [| eauto].
    apply Z.ltb_lt in Hlt.
    destruct (i =? workingRequestContextIndex s) eqn:Heq; [eauto |].
    apply Z.eqb_neq in Heq.
    assert (i < 0) as Hneg by lia.
    unfold updateWorkingRequestContext, at_index.
    rewrite (proj2 (Z.ltb_lt _ _) Hneg). eauto.
  - intros Hin Hne.
    destruct (at_index_in_range (requestContexts s) i Hin) as [c Hc].
    unfold switchWorkingContext.
    rewrite (proj2 (Z.ltb_lt _ _) (proj2 Hin)). simpl.
    rewrite (proj2 (Z.eqb_neq _ _) Hne).
    unfold updateWorkingRequestContext. rewrite Hc.
    eexists c, _. repeat split; done.
  - intros c s' Hswitch Hfocus.
    apply switchWorkingContext_inr in Hswitch as (Hw & _).
    rewrite Hfocus in Hw. symmetry in Hw. by eapply at_index_elem.
  - intros Hs c s' Hthrow Hswitch Hfocus.
    apply switchWorkingContext_inr in Hswitch as (Hw & _).
    rewrite Hfocus in Hw. symmetry in Hw. apply at_index_elem in Hw.
    by eapply reachable_disjoint.
Qed.

(** Two runs of the module.  In the first, one persistent context
    is open and focused: the index -2 is less than the number of persistent
    contexts and is not the index of the focused one, and still the call
    fails, for no context is at that index.  In the second, the callback of
    [openNewContext] returns the throw-away context that the module holds
    (the test has it from [workingRequestContext]), so this context is in
    both arrays; after another throw-away context is opened,
    [switchWorkingContext(0)] focuses it again. *)
Lemma switchWorkingContext_counterexamples :
  (let s := after (OpenNewContext 7) initial in
   ~ (Z.of_nat (List.length (requestContexts s)) <= -2) /\
   -2 <> workingRequestContextIndex s /\
   switchWorkingContext (-2) s = inl (RequestContextNotFound (-2))) /\
  (let s := after_all [OpenNewThrowAwayContext 8; OpenNewContext 8;
                       OpenNewThrowAwayContext 9] initial in
   throwAwayContexts s = [8; 9]%nat /\
   requestContexts s = [8%nat] /\
   workingRequestContext s = Some 9%nat /\
   exists s',
     switchWorkingContext 0 s = inr s' /\
     workingRequestContext s' = Some 8%nat).
Proof.
  split.
  - split; [| split].
    + simpl. lia.
    + vm_compute. discriminate.
    + reflexivity.
  - repeat split. by eexists.
Qed.

(** A test opens a persistent context, then a throw-away one, and switches
    back: the persistent context is focused again, and index 0 names it. *)
Example switchWorkingContext_example :
  let s := after_all [OpenNewContext 7; OpenNewThrowAwayContext 8] initial in
  workingRequestContext s = Some 8%nat /\
  workingRequestContext (after (SwitchWorkingContext 0) s) = Some 7%nat /\
  switchWorkingContext 1 s = inl (ExpectContextFound 1) /\
  switchWorkingContext (-1) s = inl (ExpectNotAlreadyWorking (-1)).
Proof. vm_compute. repeat split. Qed.

(** *** Extra headers *)

Lemma lookup_put_at (i j : Z) (key value : string)
    (headers : gmap Z (gmap string string)) :
  put_at i key value headers !! j =
    if decide (i = j) then Some (<[key := value]> (default ∅ (headers !! i)))
    else headers !! j.
Proof. unfold put_at. apply lookup_insert. Qed.

Lemma headers_object_insert (key value : string) (m : gmap string string) :
  headers_object (Some (<[key := value]> m)) = Some (<[key := value]> m).
Proof.
  unfold headers_object. destruct (decide _) as [Hsize |]; [| done].
  apply map_size_empty_inv in Hsize.
  by apply insert_non_empty in Hsize.
Qed.

(** Reading the headers right after a put, while some context the module
    holds is focused. *)
Lemma getExtraHeaders_putExtraHeader (key value : string) (s : State) (c : nat) :
  workingRequestContext s = Some c ->
  c ∈ requestContexts s \/ c ∈ throwAwayContexts s ->
  exists m, getExtraHeaders (putExtraHeader key value s) = inr (Some m) /\
            m !! key = Some value.
Proof.
  intros Hw Hheld. unfold getExtraHeaders, putExtraHeader, workingRequestContextIndex.
  rewrite Hw. simpl.
  destruct (0 <=? indexOf (requestContexts s) c) eqn:Hp; simpl.
  - rewrite Hp, lookup_put_at, decide_True by done.
    rewrite headers_object_insert. eexists. split; [done |]. apply lookup_insert_eq.
  - apply Z.leb_gt in Hp.
    destruct Hheld as [Hin | Hin]; [apply indexOf_elem in Hin; lia |].
    apply indexOf_elem in Hin. apply Z.leb_le in Hin. rewrite Hin. simpl.
    rewrite (proj2 (Z.leb_gt _ _) Hp), Hin.
    rewrite lookup_put_at, decide_True by done.
    rewrite headers_object_insert. eexists. split; [done |]. apply lookup_insert_eq.
Qed.

Lemma never_put_initial (c : nat) : never_put c initial.
Proof. repeat split; simpl; intros *; by rewrite ?lookup_empty. Qed.

Lemma never_put_after (c : nat) (call : call) (s : State) :
  never_put c s ->
  put_while_focused c [call] s = false ->
  never_put c (after call s).
Proof.
  intros (Hp & Ht & Hheld) Hno.
  split; [| split; [| by apply after_held]].
  - destruct call as [key value | c' | c' | i]; simpl in *.
    + unfold putExtraHeader, workingRequestContextIndex.
      destruct (workingRequestContext s) as [w |] eqn:Hw; simpl; [| exact Hp].
      rewrite orb_false_r in Hno. apply bool_decide_eq_false in Hno.
      destruct (0 <=? indexOf (requestContexts s) w) eqn:Hi; simpl.
      * intros i m. rewrite lookup_put_at. case_decide as Heq; [| apply Hp].
        intros _. exists w. apply Z.leb_le in Hi. subst i.
        split; [congruence | done].
      * destruct (0 <=? indexOf (throwAwayContexts s) w); exact Hp.
    + rewrite openNewContext_inr. simpl. intros i m Hm.
      destruct (Hp i m Hm) as (w & Hne & Hi & Hw). exists w.
      repeat split; [done.. |]. rewrite indexOf_app_l; [done |].
      apply indexOf_elem. lia.
    + exact Hp.
    + destruct (switchWorkingContext i s) as [e | s'] eqn:E; [exact Hp |].
      apply switchWorkingContext_inr in E as (_ & _ & -> & _ & -> & _). exact Hp.
  - destruct call as [key value | c' | c' | i]; simpl in *.
    + unfold putExtraHeader, workingRequestContextIndex.
      destruct (workingRequestContext s) as [w |] eqn:Hw; simpl; [| exact Ht].
      rewrite orb_false_r in Hno. apply bool_decide_eq_false in Hno.
      destruct (0 <=? indexOf (requestContexts s) w) eqn:Hi; simpl; [exact Ht |].
      destruct (0 <=? indexOf (throwAwayContexts s) w) eqn:Hj; simpl; [| exact Ht].
      intros j m. rewrite lookup_put_at. case_decide as Heq; [| apply Ht].
      intros _. exists w. apply Z.leb_le in Hj. subst j.
      split; [congruence | done].
    + rewrite openNewContext_inr. exact Ht.
    + intros j m Hm.
      destruct (Ht j m Hm) as (w & Hne & Hj & Hw). exists w.
      repeat split; [done.. |]. rewrite indexOf_app_l; [done |].
      apply indexOf_elem. lia.
    + destruct (switchWorkingContext i s) as [e | s'] eqn:E; [exact Ht |].
      apply switchWorkingContext_inr in E as (_ & _ & _ & -> & _ & ->). exact Ht.
Qed.

Lemma never_put_after_all (c : nat) (calls : list call) (s : State) :
  never_put c s ->
  put_while_focused c calls s = false ->
  never_put c (after_all calls s).
Proof.
  revert s. induction calls as [| call calls IH]; intros s Hs Hno; [done |].
  simpl in *. apply orb_false_iff in Hno as [Hcall Hrest].
  apply IH; [| done]. apply never_put_after; [done |].
  simpl. by rewrite Hcall.
Qed.

Lemma never_put_getExtraHeaders (c : nat) (s : State) :
  never_put c s -> workingRequestContext s = Some c ->
  getExtraHeaders s = inr None.
Proof.
  intros (Hp & Ht & Hheld) Hw.
  unfold getExtraHeaders, workingRequestContextIndex. rewrite Hw. simpl.
  destruct (0 <=? indexOf (requestContexts s) c) eqn:Hi.
  - destruct (requestContextsExtraHeaders s !! _) as [m |] eqn:Hm; [| done].
    destruct (Hp _ _ Hm) as (w & Hne & Hge & Heq).
    symmetry in Heq. apply indexOf_inj in Heq; [congruence | done].
  - apply Z.leb_gt in Hi.
    destruct (Hheld c Hw) as [Hin | Hin]; [apply indexOf_elem in Hin; lia |].
    apply indexOf_elem in Hin. rewrite (proj2 (Z.leb_le _ _) Hin).
    destruct (throwAwayContextsExtraHeaders s !! _) as [m |] eqn:Hm; [| done].
    destruct (Ht _ _ Hm) as (w & Hne & Hge & Heq).
    symmetry in Heq. apply indexOf_inj in Heq; [congruence | done].
Qed.


(** Two contexts with headers of their own: a persistent one and a throw-away
    one; a second persistent context has none. *)
Example extra_headers_example :
  let calls :=
    [OpenNewContext 7; PutExtraHeader "a" "1"; PutExtraHeader "a" "2";
     OpenNewThrowAwayContext 8; PutExtraHeader "b" "3";
     OpenNewContext 9]%string in
  getExtraHeaders (after_all calls initial) = inr None /\
  getExtraHeaders (after_all (calls ++ [SwitchWorkingContext 0]) initial)
    = inr (Some {[ "a"%string := "2"%string ]}) /\
  getExtraHeaders initial = inl ExtraHeadersNotFound.
Proof. vm_compute. repeat split. Qed.

(** *** Headers are kept while other contexts are focused *)

Lemma getExtraHeaders_headers_of (c : nat) (s : State) :
  workingRequestContext s = Some c ->
  c ∈ requestContexts s \/ c ∈ throwAwayContexts s ->
  getExtraHeaders s = inr (headers_object (headers_of c s)).
Proof.
  intros Hw Hheld. unfold getExtraHeaders, headers_of, workingRequestContextIndex.
  rewrite Hw. simpl.
  destruct (0 <=? indexOf (requestContexts s) c) eqn:Hp; [done |].
  apply Z.leb_gt in Hp.
  destruct Hheld as [Hin | Hin]; [apply indexOf_elem in Hin; lia |].
  apply indexOf_elem in Hin. by rewrite (proj2 (Z.leb_le _ _) Hin).
Qed.

Lemma has_header_putExtraHeader (c : nat) (key value : string) (s : State) :
  workingRequestContext s = Some c ->
  c ∈ requestContexts s \/ c ∈ throwAwayContexts s ->
  has_header c key value (putExtraHeader key value s).
Proof.
  intros Hw Hheld.
  destruct (putExtraHeader_frame key value s) as (Hr & Ht & Hw').
  split; [by rewrite Hr, Ht |].
  destruct (getExtraHeaders_putExtraHeader key value s c Hw Hheld) as (m & Hget & Hm).
  rewrite (getExtraHeaders_headers_of c) in Hget;
    [| by rewrite Hw' | by rewrite Hr, Ht].
  injection Hget as Hget. unfold headers_object in Hget.
  destruct (headers_of c (putExtraHeader key value s)) as [m' |]; [| done].
  destruct (decide _); [done |]. injection Hget as ->. by exists m.
Qed.

Lemma has_header_after (c : nat) (key value : string) (call : call) (s : State) :
  has_header c key value s ->
  opens_new [call] s ->
  put_key_while_focused c key [call] s = false ->
  has_header c key value (after call s).
Proof.
  intros (Hheld & m & Hm & Hkey) [Hnew _] Hput. simpl in Hput.
  rewrite orb_false_r in Hput. unfold has_header, headers_of in *.
  destruct call as [key' value' | c' | c' | i]; simpl in *.
  - unfold putExtraHeader, workingRequestContextIndex.
    destruct (workingRequestContext s) as [w |] eqn:Hw; simpl; [| eauto].
    destruct (0 <=? indexOf (requestContexts s) w) eqn:Hi; simpl.
    + split; [done |]. apply Z.leb_le in Hi.
      destruct (0 <=? indexOf (requestContexts s) c) eqn:Hc; [| eauto].
      rewrite lookup_put_at.
      destruct (decide (indexOf (requestContexts s) w = indexOf (requestContexts s) c))
        as [Heq |]; [| eauto].
      apply indexOf_inj in Heq as ->; [| done].
      rewrite bool_decide_eq_true_2 in Hput by done. simpl in Hput.
      apply bool_decide_eq_false in Hput.
      rewrite Hm. simpl. eexists. split; [done |]. by rewrite lookup_insert_ne.
    + destruct (0 <=? indexOf (throwAwayContexts s) w) eqn:Hj; simpl; [| eauto].
      split; [done |]. apply Z.leb_le in Hj.
      destruct (0 <=? indexOf (requestContexts s) c) eqn:Hc; [eauto |].
      rewrite lookup_put_at.
      destruct (decide (indexOf (throwAwayContexts s) w = indexOf (throwAwayContexts s) c))
        as [Heq |]; [| eauto].
      apply indexOf_inj in Heq as ->; [| done].
      rewrite bool_decide_eq_true_2 in Hput by done. simpl in Hput.
      apply bool_decide_eq_false in Hput.
      rewrite Hm. simpl. eexists. split; [done |]. by rewrite lookup_insert_ne.
  - rewrite openNewContext_inr. simpl. destruct Hnew as [Hnr Hnt].
    split; [rewrite elem_of_app; tauto |].
    destruct (0 <=? indexOf (requestContexts s) c) eqn:Hc.
    + apply Z.leb_le in Hc. pose proof Hc as Hin. apply indexOf_elem in Hin.
      rewrite indexOf_app_l by done. rewrite (proj2 (Z.leb_le _ _) Hc). eauto.
    + apply Z.leb_gt in Hc.
      destruct Hheld as [Hin | Hin]; [apply indexOf_elem in Hin; lia |].
      assert (c ∉ requestContexts s ++ [c']) as Hnot.
      { rewrite elem_of_app, list_elem_of_singleton. intros [Hin' | ->]; [| done].
        apply indexOf_elem in Hin'. lia. }
      rewrite (indexOf_absent _ _ Hnot). simpl. eauto.
  - destruct Hnew as [Hnr Hnt].
    split; [rewrite elem_of_app; tauto |].
    destruct (0 <=? indexOf (requestContexts s) c) eqn:Hc; [eauto |].
    apply Z.leb_gt in Hc.
    destruct Hheld as [Hin | Hin]; [apply indexOf_elem in Hin; lia |].
    rewrite indexOf_app_l by done. eauto.
  - destruct (switchWorkingContext i s) as [e | s'] eqn:E; [eauto |].
    apply switchWorkingContext_inr in E as (_ & _ & -> & -> & -> & ->). eauto.
Qed.

Lemma has_header_after_all (c : nat) (key value : string) (calls : list call)
    (s : State) :
  has_header c key value s ->
  opens_new calls s ->
  put_key_while_focused c key calls s = false ->
  has_header c key value (after_all calls s).
Proof.
  revert s. induction calls as [| call calls IH]; intros s Hs Hnew Hput; [done |].
  simpl in *. destruct Hnew as [Hnew Hrest].
  apply orb_false_iff in Hput as [Hcall Hput].
  apply IH; [| done..]. apply has_header_after; [done | done |].
  simpl. by rewrite Hcall.
Qed.

(** X2.  A header put for a context is kept across steps: after
    [putExtraHeader(k, v)] while a context is focused, and any further calls
    that open only new contexts and do not put [k] again while that context
    is focused, [getExtraHeaders()] returns, whenever that context is the
    focused one, an object in which [k] maps to [v]. *)
Theorem extra_headers_kept (s : State) (c : nat) (key value : string)
    (calls : list call) :
  reachable s ->
  workingRequestContext s = Some c ->
  opens_new calls (putExtraHeader key value s) ->
  put_key_while_focused c key calls (putExtraHeader key value s) = false ->
  workingRequestContext (after_all calls (putExtraHeader key value s)) = Some c ->
  exists m,
    getExtraHeaders (after_all calls (putExtraHeader key value s)) = inr (Some m) /\
    m !! key = Some value.
Proof.
  intros Hs Hw Hnew Hput Hfocus.
  pose proof (reachable_held s c Hs Hw) as Hheld.
  pose proof (has_header_putExtraHeader c key value s Hw Hheld) as Hhas.
  apply (has_header_after_all _ _ _ calls) in Hhas as (Hheld' & m & Hm & Hkey);
    [| done..].
  rewrite (getExtraHeaders_headers_of c), Hm by done.
  exists m. split; [| done]. f_equal. unfold headers_object.
  destruct (decide _) as [Hsize |]; [| done].
  apply map_size_empty_inv in Hsize. subst m. by rewrite lookup_empty in Hkey.
Qed.

(** A token is put for the first context; a second context is opened and
    given a header of the same name; back on the first, the token is there. *)
Lemma extra_headers_kept_witness :
  let s := after (OpenNewContext 7) initial in
  let calls := [PutExtraHeader "lang" "en"; OpenNewContext 9;
                PutExtraHeader "token" "b"; SwitchWorkingContext 0]%string in
  exists m,
    getExtraHeaders (after_all calls (putExtraHeader "token" "a" s)) = inr (Some m) /\
    m !! "token"%string = Some "a"%string.
Proof.
  intros s calls.
  apply (extra_headers_kept s 7%nat "token" "a" calls).
  - apply reachable_open; [apply reachable_initial |].
    split; apply not_elem_of_nil.
  - reflexivity.
  - simpl. unfold is_new. simpl.
    repeat split; try done; rewrite ?list_elem_of_singleton; try done;
      apply not_elem_of_nil.
  - reflexivity.
  - reflexivity.
Defined.

(** *** Before a context is opened *)

(** In a state a test reaches, no context is focused exactly while none has
    been opened. *)
Lemma reachable_focus (s : State) :
  reachable s ->
  (workingRequestContext s = None <->
   requestContexts s = [] /\ throwAwayContexts s = []).
Proof.
  induction 1 as [| s key value _ IH | s c _ IH _ | s c _ IH _ | s i _ IH]; simpl.
  - done.
  - by destruct (putExtraHeader_frame key value s) as (-> & -> & ->).
  - rewrite openNewContext_inr. simpl. split; [done |].
    intros [Hnil _]. by destruct (requestContexts s).
  - split; [done |]. intros [_ Hnil]. by destruct (throwAwayContexts s).
  - destruct (switchWorkingContext i s) as [e | s'] eqn:E; [exact IH |].
    apply switchWorkingContext_inr in E as (Hw & [c Hc] & -> & -> & _).
    rewrite Hw, Hc. split; [done |]. intros [Hnil _].
    rewrite Hnil in Hc. by rewrite at_index_nil in Hc.
Qed.

(** X14.  Until a test opens a request context, [getExtraHeaders()] throws,
    [putExtraHeader(k, v)] does nothing, without an error, and every
    [switchWorkingContext(i)] fails.  Once a context has been opened, some
    context the module holds is focused at every moment, and
    [getExtraHeaders()] does not throw. *)
Theorem no_request_context_opened (s : State) :
  reachable s ->
  (requestContexts s = [] /\ throwAwayContexts s = [] ->
     getExtraHeaders s = inl ExtraHeadersNotFound /\
     (forall key value, putExtraHeader key value s = s) /\
     (forall i, exists e, switchWorkingContext i s = inl e)) /\
  (requestContexts s <> [] \/ throwAwayContexts s <> [] ->
     exists c headers,
       workingRequestContext s = Some c /\
       (c ∈ requestContexts s \/ c ∈ throwAwayContexts s) /\
       getExtraHeaders s = inr headers).
Proof.
  intros Hs. split.
  - intros Hnone. pose proof (proj2 (reachable_focus s Hs) Hnone) as Hw.
    destruct Hnone as [Hr Ht].
    unfold getExtraHeaders, putExtraHeader, workingRequestContextIndex.
    rewrite Hw. simpl. repeat split.
    intros i. unfold switchWorkingContext. rewrite Hr.
    change (Z.of_nat (List.length (@nil nat))) with 0.
    destruct (i <? 0) eqn:Hi; simpl; [| by eexists].
    destruct (i =? _); [by eexists |].
    unfold updateWorkingRequestContext. rewrite Hr, at_index_nil. by eexists.
  - intros Hsome.
    destruct (workingRequestContext s) as [c |] eqn:Hw.
    + pose proof (reachable_held s c Hs Hw) as Hheld.
      exists c. eexists. split; [done |]. split; [done |].
      by apply getExtraHeaders_headers_of.
    + apply (reachable_focus s Hs) in Hw as [Hr Ht]. by destruct Hsome.
Qed.

(** A header is put before any context is opened; then a throw-away context
    is opened. *)
Lemma no_request_context_opened_witness :
  let s := after (PutExtraHeader "token" "a") initial in
  (requestContexts s = [] /\ throwAwayContexts s = [] ->
     getExtraHeaders s = inl ExtraHeadersNotFound /\
     (forall key value, putExtraHeader key value s = s) /\
     (forall i, exists e, switchWorkingContext i s = inl e)) /\
  exists c headers,
    workingRequestContext (after (OpenNewThrowAwayContext 8) s) = Some c /\
    (c ∈ requestContexts (after (OpenNewThrowAwayContext 8) s) \/
     c ∈ throwAwayContexts (after (OpenNewThrowAwayContext 8) s)) /\
    getExtraHeaders (after (OpenNewThrowAwayContext 8) s) = inr headers.
Proof.
  intros s.
  assert (reachable s) as Hs by apply reachable_put, reachable_initial.
  split.
  - apply (no_request_context_opened s Hs).
  - apply (no_request_context_opened (after (OpenNewThrowAwayContext 8) s)).
    + apply reachable_open_throw_away; [done |]. split; apply not_elem_of_nil.
    + right. discriminate.
Defined.

(** *** The persistent contexts keep their indices *)

Lemma after_requestContexts (call : call) (s : State) :
  exists opened, requestContexts (after call s) = requestContexts s ++ opened.
Proof.
  destruct call as [key value | c | c | i]; simpl.
  - destruct (putExtraHeader_frame key value s) as (-> & _).
    exists []. by rewrite app_nil_r.
  - rewrite openNewContext_inr. by exists [c].
  - exists []. by rewrite app_nil_r.
  - destruct (switchWorkingContext i s) as [e | s'] eqn:E.
    + exists []. by rewrite app_nil_r.
    + apply switchWorkingContext_inr in E as (_ & _ & -> & _).
      exists []. by rewrite app_nil_r.
Qed.

Lemma after_all_requestContexts (calls : list call) (s : State) :
  exists opened, requestContexts (after_all calls s) = requestContexts s ++ opened.
Proof.
  revert s. induction calls as [| call calls IH]; intros s; simpl.
  - exists []. by rewrite app_nil_r.
  - destruct (IH (after call s)) as [later ->].
    destruct (after_requestContexts call s) as [opened ->].
    exists (opened ++ later). by rewrite app_assoc.
Qed.

(** X15.  The module never drops or moves a persistent context: the context
    at index [i] of [requestContexts] is at index [i] after any further
    calls, and [switchWorkingContext(i)] then focuses that context, unless it
    is the focused one already. *)
Theorem persistent_contexts_keep_their_index (calls : list call) (s : State)
    (i : Z) (c : nat) :
  at_index (requestContexts s) i = Some c ->
  at_index (requestContexts (after_all calls s)) i = Some c /\
  (i <> workingRequestContextIndex (after_all calls s) ->
   exists s',
     switchWorkingContext i (after_all calls s) = inr s' /\
     workingRequestContext s' = Some c).
Proof.
  intros Hc. destruct (after_all_requestContexts calls s) as [opened Hopened].
  assert (at_index (requestContexts (after_all calls s)) i = Some c) as Hc'.
  { rewrite Hopened. by apply at_index_app_l. }
  split; [done |]. intros Hne.
  unfold switchWorkingContext.
  pose proof Hc' as [Hi Hlookup]%at_index_Some. apply lookup_lt_Some in Hlookup.
  rewrite (proj2 (Z.ltb_lt _ _)) by lia. simpl.
  rewrite (proj2 (Z.eqb_neq _ _) Hne).
  unfold updateWorkingRequestContext. rewrite Hc'. by eexists.
Qed.

(** The first context of a test, after a throw-away context and a second
    persistent context were opened and given headers. *)
Lemma persistent_contexts_keep_their_index_witness :
  let s := after (OpenNewContext 7) initial in
  let calls := [OpenNewThrowAwayContext 8; PutExtraHeader "token" "a";
                OpenNewContext 9; PutExtraHeader "token" "b"]%string in
  at_index (requestContexts (after_all calls s)) 0 = Some 7%nat /\
  (0 <> workingRequestContextIndex (after_all calls s) ->
   exists s',
     switchWorkingContext 0 (after_all calls s) = inr s' /\
     workingRequestContext s' = Some 7%nat).
Proof.
  intros s calls.
  apply (persistent_contexts_keep_their_index calls s 0 7%nat).
  reflexivity.
Defined.

End requestHelper_facts.

(** ** frameworkDataHelper *)

Module frameworkDataHelper_facts.
Import JsArray JsArray_facts Browser frameworkDataHelper.
Local Open Scope browser_scope.

(** X18.  [getContext] and [getPage] by the bounds of the indices.
    [getPage(c, p)] returns a page exactly when [c] is the index of an open
    context and [p] the index of a page of it, and then the page at these
    indices, where [getContext(c)] returns the context; it throws [Context
    [c] does not exist], as [getContext(c)] does, when [c] is negative or not
    less than the number of open contexts, and [Page [p] does not exist for
    Context [c]] when the context is there and [p] is negative or not less
    than the number of its pages.  Neither changes anything. *)
Theorem getPage_bounds (w : World) (contextIndex pageIndex : Z) :
  match getPage contextIndex pageIndex w with
  | (inr page, w') =>
      w' = w /\
      exists context,
        getContext contextIndex w = (inr context, w) /\
        0 <= contextIndex /\ contexts w !! Z.to_nat contextIndex = Some context /\
        0 <= pageIndex /\ context_pages context !! Z.to_nat pageIndex = Some page
  | (inl e, w') =>
      w' = w /\
      ((e = ContextDoesNotExist contextIndex /\
        getContext contextIndex w = (inl e, w) /\
        (contextIndex < 0 \/ Z.of_nat (List.length (contexts w)) <= contextIndex)) \/
       (exists context,
          e = PageDoesNotExist pageIndex contextIndex /\
          getContext contextIndex w = (inr context, w) /\
          (pageIndex < 0 \/
           Z.of_nat (List.length (context_pages context)) <= pageIndex)))
  end.
Proof.
  assert (forall {A : Type} (a : list A) (i : Z),
            at_index a i = None -> i < 0 \/ Z.of_nat (List.length a) <= i) as Hnone.
  { intros A a i Hi. destruct (decide (i < 0)); [by left | right].
    destruct (decide (Z.of_nat (List.length a) <= i)); [done |].
    destruct (at_index_in_range a i) as [x Hx]; [lia | congruence]. }
  unfold getPage, getContext, bind, get_contexts, ret, throw.
  destruct (at_index (contexts w) contextIndex) as [context |] eqn:Hc.
  - destruct (at_index (context_pages context) pageIndex) as [page |] eqn:Hp.
    + apply at_index_Some in Hc as [? ?], Hp as [? ?].
      split; [done |]. by exists context.
    + split; [done |]. right. exists context. repeat split. by apply Hnone.
  - split; [done |]. left. repeat split. by apply Hnone.
Qed.

(** A browser with one context of two pages. *)
Example getPage_example :
  let w := (browserHelper.run_all
              [browserHelper.OpenNewTabInNewContext None;
               browserHelper.OpenNewTabInCurrentContext "Home"]
              browserHelper.initial).2 in
  getPage 0 1 w = (inr {| page_id := 2; page_context := 0 |}, w) /\
  getPage 0 2 w = (inl (PageDoesNotExist 2 0), w) /\
  getPage 0 (-1) w = (inl (PageDoesNotExist (-1) 0), w) /\
  getPage 1 0 w = (inl (ContextDoesNotExist 1), w) /\
  getPage (-1) 0 w = (inl (ContextDoesNotExist (-1)), w).
Proof. vm_compute. repeat split. Qed.

End frameworkDataHelper_facts.

(** ** browserHelper *)

Module browserHelper_facts.
Import JsArray JsArray_facts Browser browserHelper.
Local Open Scope browser_scope.

Lemma getContext_eq (ci : Z) (w : World) :
  frameworkDataHelper.getContext ci w =
    (match at_index (contexts w) ci with
     | None => inl (ContextDoesNotExist ci)
     | Some context => inr context
     end, w).
Proof.
  unfold frameworkDataHelper.getContext, bind, get_contexts.
  by destruct (at_index (contexts w) ci).
Qed.

Lemma getPage_eq (ci ti : Z) (w : World) :
  frameworkDataHelper.getPage ci ti w =
    (match at_index (contexts w) ci with
     | None => inl (ContextDoesNotExist ci)
     | Some context =>
         match at_index (context_pages context) ti with
         | None => inl (PageDoesNotExist ti ci)
         | Some page => inr page
         end
     end, w).
Proof.
  unfold frameworkDataHelper.getPage, bind. rewrite getContext_eq.
  destruct (at_index (contexts w) ci) as [context |]; [| done].
  by destruct (at_index (context_pages context) ti).
Qed.

Lemma workingContextIndex_eq (w : World) :
  workingContextIndex w =
    (match working_indices w with
     | None => inl WorkingTabUndefined
     | Some (wci, _) => inr wci
     end, w).
Proof.
  unfold workingContextIndex, working_indices, workingContext, bind, get_contexts, ret.
  destruct (workingTab w); reflexivity.
Qed.

Lemma workingTabIndex_eq (w : World) :
  workingTabIndex w =
    (match working_indices w with
     | None => inl WorkingTabUndefined
     | Some (_, wti) => inr wti
     end, w).
Proof.
  unfold workingTabIndex, working_indices, workingContext, bind, get_contexts.
  destruct (workingTab w) eqn:E; simpl; rewrite ?E; reflexivity.
Qed.

Lemma latestContextIndex_eq (w : World) :
  latestContextIndex w = (inr (latest_index (contexts w)), w).
Proof. done. Qed.

Lemma latestTabIndex_eq (ci : Z) (w : World) :
  latestTabIndex ci w =
    (match at_index (contexts w) ci with
     | None => inl (ContextDoesNotExist ci)
     | Some context => inr (latest_index (context_pages context))
     end, w).
Proof.
  unfold latestTabIndex, bind. rewrite getContext_eq.
  by destruct (at_index (contexts w) ci).
Qed.

Lemma updateWorkingTab_eq (ci ti : Z) (w : World) :
  updateWorkingTab ci ti w =
    match page_at w ci ti with
    | Some page =>
        (inr tt, {| contexts := contexts w; workingTab := Some page;
                    pageTypes := pageTypes w; nextId := nextId w |})
    | None =>
        (inl (match at_index (contexts w) ci with
              | None => ContextDoesNotExist ci
              | Some _ => PageDoesNotExist ti ci
              end), w)
    end.
Proof.
  unfold updateWorkingTab, bind, page_at. rewrite getPage_eq.
  destruct (at_index (contexts w) ci) as [context |]; [| done].
  by destruct (at_index (context_pages context) ti).
Qed.

(** Closing pages and contexts never throws. *)
Lemma close_pages_inr (pages : list Page) (w : World) :
  exists w', close_pages pages w = (inr tt, w').
Proof.
  revert w. induction pages as [| page pages IH]; intros w; simpl; [by eexists |].
  unfold bind. simpl. apply IH.
Qed.

(** *** The guards of [closeContext] and [closeTab] *)

Lemma closeContext_eq (ci : Z) (w : World) :
  closeContext ci w =
    match at_index (contexts w) ci with
    | None => (inl (ContextDoesNotExist ci), w)
    | Some context =>
        match working_indices w with
        | None => (inl WorkingTabUndefined, w)
        | Some (wci, _) =>
            if ci =? wci then (inl (ExpectNotWorkingContext ci), w)
            else
              (close_pages (context_pages context) ;;;
               context_close (context_id context) ;;;
               writing (fun types =>
                 inr (tabDataHelper.removeContextPageTypes ci types))) w
        end
    end.
Proof.
  unfold closeContext. unfold bind at 1. rewrite getContext_eq.
  destruct (at_index (contexts w) ci) as [context |]; [| done].
  unfold bind at 1. rewrite workingContextIndex_eq.
  destruct (working_indices w) as [[wci wti] |]; [| done].
  unfold bind at 1. unfold expect. by destruct (ci =? wci).
Qed.

Lemma closeTab_eq (ci ti : Z) (w : World) :
  closeTab ci ti w =
    match page_at w ci ti with
    | None =>
        (inl (match at_index (contexts w) ci with
              | None => ContextDoesNotExist ci
              | Some _ => PageDoesNotExist ti ci
              end), w)
    | Some page =>
        match working_indices w with
        | None => (inl WorkingTabUndefined, w)
        | Some (wci, wti) =>
            if (ci =? wci) && (ti =? wti) then (inl (ExpectNotWorkingTab ci ti), w)
            else
              (page_close page ;;;
               writing (fun types =>
                 inr (tabDataHelper.removeContextPageTypes ci types))) w
        end
    end.
Proof.
  unfold closeTab, page_at. unfold bind at 1. rewrite getPage_eq.
  destruct (at_index (contexts w) ci) as [context |]; [| done].
  destruct (at_index (context_pages context) ti) as [page |]; [| done].
  unfold bind at 1. rewrite workingContextIndex_eq.
  destruct (working_indices w) as [[wci wti] |] eqn:Hw; [| done].
  unfold bind at 1. destruct (ci =? wci); simpl.
  - unfold bind at 1. rewrite workingTabIndex_eq, Hw. unfold ret.
    unfold bind at 1. unfold expect. by destruct (ti =? wti).
  - done.
Qed.

(** C6.  [closeContext(contextIndex)] fails when no context is at
    [contextIndex] and when [contextIndex] is the index of the working
    context; [closeTab(contextIndex, tabIndex)] fails when there is no such
    page and when it is the working tab.  A step that fails, for these or any
    other reason, leaves the browser and the page-type table as they were:
    nothing is closed. *)
Theorem close_guards (w : World) (contextIndex tabIndex : Z) :
  (at_index (contexts w) contextIndex = None \/
   (exists wti, working_indices w = Some (contextIndex, wti)) ->
     fails_on (closeContext contextIndex) w) /\
  (page_at w contextIndex tabIndex = None \/
   working_indices w = Some (contextIndex, tabIndex) ->
     fails_on (closeTab contextIndex tabIndex) w) /\
  (forall e w', closeContext contextIndex w = (inl e, w') -> w' = w) /\
  (forall e w', closeTab contextIndex tabIndex w = (inl e, w') -> w' = w).
Proof.
  unfold fails_on. rewrite closeContext_eq, closeTab_eq. repeat split.
  - intros [-> | [wti ->]]; [by eexists |].
    destruct (at_index (contexts w) contextIndex); [| by eexists].
    rewrite Z.eqb_refl. by eexists.
  - intros [-> | ->]; [by eexists |].
    destruct (page_at w contextIndex tabIndex); [| by eexists].
    rewrite !Z.eqb_refl. by eexists.
  - intros e w'.
    destruct (at_index (contexts w) contextIndex) as [context |]; [| congruence].
    destruct (working_indices w) as [[wci wti] |]; [| congruence].
    destruct (contextIndex =? wci); [congruence |].
    unfold bind.
    destruct (close_pages_inr (context_pages context) w) as [w1 ->]. discriminate.
  - intros e w'.
    destruct (page_at w contextIndex tabIndex) as [page |]; [| congruence].
    destruct (working_indices w) as [[wci wti] |]; [| congruence].
    destruct (_ && _); [congruence |]. discriminate.
Qed.

(** *** [switchWorkingTab] *)

Lemma switchWorkingTab_eq (ci ti : Z) (cur next : string) (w : World) :
  switchWorkingTab ci ti cur next w =
    if negb (ci <=? latest_index (contexts w))
    then (inl (ExpectContextNotFound ci), w)
    else
      match at_index (contexts w) ci with
      | None => (inl (ContextDoesNotExist ci), w)
      | Some context =>
          if negb (ti <=? latest_index (context_pages context))
          then (inl (ExpectTabNotFound ci ti), w)
          else
            match working_indices w with
            | None => (inl WorkingTabUndefined, w)
            | Some (wci, wti) =>
                if (ci =? wci) && (ti =? wti)
                then (inl (ExpectAlreadyWorkingOnTab ci ti), w)
                else
                  match tabDataHelper.pageType ci ti (pageTypes w) with
                  | inl e => (inl e, w)
                  | inr actual =>
                      if bool_decide (actual = Some next) then
                        match tabDataHelper.updatePageType wci wti cur (pageTypes w) with
                        | inl e => (inl e, w)
                        | inr types => updateWorkingTab ci ti (with_pageTypes types w)
                        end
                      else (inl (ExpectPageType actual next), w)
                  end
            end
      end.
Proof.
  unfold switchWorkingTab. unfold bind at 1. rewrite latestContextIndex_eq.
  unfold bind at 1. unfold expect at 1.
  destruct (ci <=? latest_index (contexts w)); [| done]. simpl.
  unfold bind at 1. rewrite latestTabIndex_eq.
  destruct (at_index (contexts w) ci) as [context |]; [| done].
  unfold bind at 1. unfold expect at 1.
  destruct (ti <=? latest_index (context_pages context)); [| done]. simpl.
  unfold bind at 1. rewrite workingContextIndex_eq.
  destruct (working_indices w) as [[wci wti] |] eqn:Hw; [| done].
  unfold bind at 1.
  assert ((if ci =? wci then wti0 <- workingTabIndex;; ret (ti =? wti0) else ret false) w
          = (inr ((ci =? wci) && (ti =? wti)), w)) as ->.
  { destruct (ci =? wci); [| done]. unfold bind. by rewrite workingTabIndex_eq, Hw. }
  unfold bind at 1. unfold expect at 1.
  destruct ((ci =? wci) && (ti =? wti)); [done |]. simpl.
  unfold bind at 1. unfold reading at 1.
  destruct (tabDataHelper.pageType ci ti (pageTypes w)) as [e | actual]; [done |].
  unfold bind at 1. unfold expect at 1.
  destruct (bool_decide (actual = Some next)); [| done]. simpl.
  unfold bind at 1. rewrite workingContextIndex_eq, Hw.
  unfold bind at 1. rewrite workingTabIndex_eq, Hw.
  unfold bind at 1. unfold writing at 1.
  by destruct (tabDataHelper.updatePageType wci wti cur (pageTypes w)).
Qed.

Lemma pageType_updatePageType (ci ti : Z) (t : string)
    (types types' : list (gmap Z string)) :
  tabDataHelper.updatePageType ci ti t types = inr types' ->
  tabDataHelper.pageType ci ti types' = inr (Some t).
Proof.
  unfold tabDataHelper.updatePageType, tabDataHelper.pageType,
    tabDataHelper.contextPageTypes.
  destruct (at_index types ci) as [inner |] eqn:Hci; [| done].
  intros [= <-]. apply at_index_Some in Hci as [Hge Hci].
  assert (at_index (<[Z.to_nat ci := <[ti := t]> inner]> types) ci
          = Some (<[ti := t]> inner)) as ->.
  { apply at_index_Some. split; [done |].
    apply list_lookup_insert_eq. by eapply lookup_lt_Some. }
  by rewrite lookup_insert_eq.
Qed.

(** What a successful [switchWorkingTab] did. *)
Lemma switchWorkingTab_inr (ci ti : Z) (cur next : string) (w w' : World) :
  switchWorkingTab ci ti cur next w = (inr tt, w') ->
  exists wci wti page types,
    working_indices w = Some (wci, wti) /\
    tabDataHelper.updatePageType wci wti cur (pageTypes w) = inr types /\
    page_at w ci ti = Some page /\
    w' = {| contexts := contexts w; workingTab := Some page;
            pageTypes := types; nextId := nextId w |}.
Proof.
  rewrite switchWorkingTab_eq.
  destruct (negb _); [done |].
  destruct (at_index (contexts w) ci) as [context |] eqn:Hci; [| done].
  destruct (negb _); [done |].
  destruct (working_indices w) as [[wci wti] |]; [| done].
  destruct (_ && _); [done |].
  destruct (tabDataHelper.pageType ci ti (pageTypes w)) as [e | actual]; [done |].
  destruct (bool_decide _); [| done].
  destruct (tabDataHelper.updatePageType wci wti cur (pageTypes w))
    as [e | types] eqn:Hup; [done |].
  rewrite updateWorkingTab_eq.
  assert (page_at (with_pageTypes types w) ci ti = page_at w ci ti) as -> by done.
  destruct (page_at w ci ti) as [page |]; [| done].
  intros [= <-]. by exists wci, wti, page, types.
Qed.



(** Two tabs in one context; the test goes back to the first. *)
Example switchWorkingTab_example :
  let w := (run_all [OpenNewTabInNewContext None;
                     OpenNewTabInCurrentContext "Login"] initial).2 in
  working_indices w = Some (0, 1) /\
  (exists w', switchWorkingTab 0 0 "Home" "Login" w = (inr tt, w') /\
              working_indices w' = Some (0, 0) /\
              tabDataHelper.pageType 0 1 (pageTypes w') = inr (Some "Home"%string)) /\
  (switchWorkingTab 0 0 "Home" "Blank" w).1
     = inl (ExpectPageType (Some "Login"%string) "Blank") /\
  (switchWorkingTab 0 1 "Home" "Blank" w).1 = inl (ExpectAlreadyWorkingOnTab 0 1) /\
  (switchWorkingTab 0 2 "Home" "Blank" w).1 = inl (ExpectTabNotFound 0 2) /\
  (switchWorkingTab 1 0 "Home" "Blank" w).1 = inl (ExpectContextNotFound 1) /\
  (switchWorkingTab (-1) 0 "Home" "Blank" w).1 = inl (ContextDoesNotExist (-1)).
Proof.
  vm_compute. repeat split. eexists. repeat split.
Qed.

(** *** Opening tabs *)

(** A sequence of two computations passes when both pass. *)
Lemma bind_inr {A B : Type} (m : M A) (k : A -> M B) (w w' : World) (b : B) :
  bind m k w = (inr b, w') ->
  exists a w1, m w = (inr a, w1) /\ k a w1 = (inr b, w').
Proof.
  unfold bind. destruct (m w) as [[e | a] w1]; [done |]. intros H. by exists a, w1.
Qed.

Lemma writing_inr (f : list (gmap Z string) -> failure + list (gmap Z string))
    (w w' : World) (u : unit) :
  writing f w = (inr u, w') ->
  exists types, f (pageTypes w) = inr types /\ w' = with_pageTypes types w.
Proof.
  unfold writing. destruct (f (pageTypes w)) as [e | types]; [done |].
  intros [= <-]. by exists types.
Qed.

Lemma pageType_initializePageType (ci ti : Z) (types types' : list (gmap Z string)) :
  tabDataHelper.initializePageType ci ti types = inr types' ->
  tabDataHelper.pageType ci ti types' = inr (Some "Blank"%string).
Proof. apply (pageType_updatePageType ci ti "Blank"). Qed.

Lemma context_id_add_page (c : nat) (page : Page) (cs : list BrowserContext) :
  context_id <$> (add_page c page <$> cs) = context_id <$> cs.
Proof.
  rewrite <- list_fmap_compose. apply list_fmap_ext. intros _ ctx _. simpl.
  unfold add_page. by destruct (Nat.eqb _ _).
Qed.

(** [context.pages()] of the context named [c] is the list of pages of the
    first context of that name. *)
Lemma pages_of_indexOf (c : nat) (cs : list BrowserContext) (context : BrowserContext) :
  at_index cs (indexOf (context_id <$> cs) c) = Some context ->
  context_id context = c /\ pages_of c cs = context_pages context.
Proof.
  unfold pages_of. induction cs as [| ctx cs IH].
  - simpl. by rewrite at_index_nil.
  - rewrite fmap_cons. cbn [indexOf List.find].
    destruct (decide (c = context_id ctx)) as [-> | Hne].
    + rewrite Nat.eqb_refl. by intros [= <-].
    + rewrite (proj2 (Nat.eqb_neq _ _)) by done.
      pose proof (indexOf_bounds (context_id <$> cs) c) as Hb.
      destruct (indexOf (context_id <$> cs) c <? 0) eqn:E.
      * by intros [? _]%at_index_Some.
      * apply Z.ltb_ge in E. intros [_ Hlook]%at_index_Some.
        replace (Z.to_nat (indexOf (context_id <$> cs) c + 1))
          with (S (Z.to_nat (indexOf (context_id <$> cs) c))) in Hlook by lia.
        apply IH. apply at_index_Some. by split.
Qed.

Lemma at_index_latest {A : Type} (a : list A) (x : A) :
  at_index a (latest_index a) = Some x -> last a = Some x.
Proof.
  unfold latest_index. intros [Hge Hlook]%at_index_Some.
  rewrite last_lookup. rewrite <- Hlook. f_equal. lia.
Qed.

(** The world a successful [openNewTabInCurrentContext] leaves. *)
Lemma openNewTabInCurrentContext_world (cur : string) (w w' : World) :
  openNewTabInCurrentContext cur w = (inr tt, w') ->
  exists previous wci wti types1 (n : nat) context0 types3,
    workingTab w = Some previous /\
    tabDataHelper.updatePageType wci wti cur (pageTypes w) = inr types1 /\
    Z.of_nat n = indexOf (context_id <$> contexts w) (page_context previous) /\
    contexts w !! n = Some context0 /\
    context_id context0 = page_context previous /\
    tabDataHelper.initializePageType (Z.of_nat n)
      (Z.of_nat (List.length (context_pages context0))) types1 = inr types3 /\
    w' = {| contexts :=
              add_page (page_context previous)
                {| page_id := nextId w; page_context := page_context previous |}
                <$> contexts w;
            workingTab :=
              Some {| page_id := nextId w; page_context := page_context previous |};
            pageTypes := types3;
            nextId := S (nextId w) |} /\
    working_indices w = Some (wci, wti).
Proof.
  unfold openNewTabInCurrentContext. intros H.
  apply bind_inr in H as (ci & w1 & H1 & H).
  rewrite workingContextIndex_eq in H1.
  destruct (working_indices w) as [[wci wti] |] eqn:Hw; [| done].
  injection H1 as <- <-.
  apply bind_inr in H as (ti & w1 & H1 & H).
  rewrite workingTabIndex_eq, Hw in H1. injection H1 as <- <-.
  apply bind_inr in H as ([] & w1 & H1 & H).
  apply writing_inr in H1 as (types1 & Hup & ->).
  pose proof Hw as Hindices.
  unfold working_indices in Hw.
  destruct (workingTab w) as [previous |] eqn:Hprev; [| done]. clear Hw.
  apply bind_inr in H as (c & w1 & H1 & H).
  unfold workingContext in H1. simpl in H1. rewrite Hprev in H1.
  injection H1 as <- <-.
  apply bind_inr in H as (newPage & w2 & H1 & H).
  unfold context_newPage in H1. simpl in H1.
  destruct (existsb _ _); [| done]. injection H1 as <- <-.
  set (c := page_context previous) in *.
  set (newPage := {| page_id := nextId w; page_context := c |}) in *.
  set (w2 := {| contexts := add_page c newPage <$> contexts w;
                workingTab := workingTab w; pageTypes := types1;
                nextId := S (nextId w) |}) in *.
  assert (working_indices w2 =
          Some (indexOf (context_id <$> contexts w) c,
                indexOf (pages_of c (contexts w2)) previous)) as Hw2.
  { unfold working_indices, w2. simpl. rewrite Hprev.
    by rewrite context_id_add_page. }
  apply bind_inr in H as (ci & w3 & H1 & H).
  rewrite workingContextIndex_eq, Hw2 in H1. injection H1 as <- <-.
  apply bind_inr in H as (ci' & w3 & H1 & H).
  rewrite workingContextIndex_eq, Hw2 in H1. injection H1 as <- <-.
  apply bind_inr in H as (ti & w3 & H1 & H).
  rewrite latestTabIndex_eq in H1.
  destruct (at_index (contexts w2) _) as [context |] eqn:Hcontext; [| done].
  injection H1 as <- <-.
  apply bind_inr in H as ([] & w3 & H1 & H).
  apply writing_inr in H1 as (types3 & Hinit & ->).
  apply bind_inr in H as (ci & w4 & H1 & H).
  rewrite workingContextIndex_eq in H1.
  change (working_indices (with_pageTypes types3 w2))
    with (working_indices w2) in H1.
  rewrite Hw2 in H1. injection H1 as <- <-.
  apply bind_inr in H as (ci' & w4 & H1 & H).
  rewrite workingContextIndex_eq in H1.
  change (working_indices (with_pageTypes types3 w2))
    with (working_indices w2) in H1.
  rewrite Hw2 in H1. injection H1 as <- <-.
  apply bind_inr in H as (ti & w4 & H1 & H).
  rewrite latestTabIndex_eq in H1.
  change (contexts (with_pageTypes types3 w2)) with (contexts w2) in H1.
  rewrite Hcontext in H1. injection H1 as <- <-.
  rewrite updateWorkingTab_eq in H. unfold page_at in H.
  change (contexts (with_pageTypes types3 w2)) with (contexts w2) in H.
  rewrite Hcontext in H.
  destruct (at_index (context_pages context) _) as [page |] eqn:Hpage; [| done].
  injection H as <-.
  apply at_index_latest in Hpage.
  unfold w2 in Hcontext. simpl in Hcontext, Hinit.
  pose proof Hcontext as Hfirst.
  rewrite <- (context_id_add_page c newPage) in Hfirst.
  destruct (pages_of_indexOf _ _ _ Hfirst) as [Hid _].
  apply at_index_Some in Hcontext as [Hge Hcontext].
  apply list_lookup_fmap_Some_1 in Hcontext as (context0 & -> & Hcontext0).
  unfold add_page in Hid, Hpage, Hinit.
  destruct (Nat.eqb (context_id context0) c) eqn:E; simpl in *;
    [| apply Nat.eqb_neq in E; done].
  rewrite last_snoc in Hpage. injection Hpage as <-.
  exists previous, wci, wti, types1, (Z.to_nat (indexOf (context_id <$> contexts w) c)),
    context0, types3.
  repeat split; try done; [by rewrite Z2Nat.id |].
  rewrite Z2Nat.id by done. rewrite <- Hinit. f_equal.
  unfold latest_index. rewrite length_app. simpl. lia.
Qed.

(** What a successful [openNewTabInCurrentContext] did: the page it opened in
    the context of the tab that was the working tab is the last page of that
    context and the working tab. *)
Lemma openNewTabInCurrentContext_inr (cur : string) (w w' : World) :
  openNewTabInCurrentContext cur w = (inr tt, w') ->
  exists previous,
    workingTab w = Some previous /\
    workingTab w' =
      Some {| page_id := nextId w; page_context := page_context previous |} /\
    last (pages_of (page_context previous) (contexts w')) =
      Some {| page_id := nextId w; page_context := page_context previous |}.
Proof.
  intros Hstep.
  apply openNewTabInCurrentContext_world in Hstep
    as (previous & wci & wti & types1 & n & context0 & types3
        & Hprev & _ & Hfirst & Hn & Hid & _ & -> & _).
  exists previous. simpl. repeat split; [done |].
  set (c := page_context previous) in *.
  set (newPage := {| page_id := nextId w; page_context := c |}).
  assert (at_index (add_page c newPage <$> contexts w)
            (indexOf (context_id <$> (add_page c newPage <$> contexts w)) c)
          = Some (add_page c newPage context0)) as Hcontext.
  { rewrite context_id_add_page, <- Hfirst. apply at_index_Some.
    split; [lia |]. by rewrite Nat2Z.id, list_lookup_fmap, Hn. }
  destruct (pages_of_indexOf _ _ _ Hcontext) as [_ ->].
  unfold add_page. rewrite Hid, Nat.eqb_refl. simpl. apply last_snoc.
Qed.

(** What a successful [openNewTabInNewContext] did, whatever the callback
    that made the context did: page 0 of the latest context is the working
    tab, and the page type recorded for it is ["Blank"]. *)
Lemma openNewTabInNewContext_inr (cb : option (M nat)) (cur : option string)
    (w w' : World) :
  openNewTabInNewContext cb cur w = (inr tt, w') ->
  exists page,
    page_at w' (latest_index (contexts w')) 0 = Some page /\
    workingTab w' = Some page /\
    tabDataHelper.pageType (latest_index (contexts w')) 0 (pageTypes w')
      = inr (Some "Blank"%string).
Proof.
  unfold openNewTabInNewContext. intros H.
  apply bind_inr in H as ([] & w1 & _ & H).
  apply bind_inr in H as (newContext & w2 & _ & H).
  apply bind_inr in H as (newTab & w3 & _ & H).
  apply bind_inr in H as ([] & w4 & _ & H).
  apply bind_inr in H as (ci & w5 & H1 & H).
  rewrite latestContextIndex_eq in H1. injection H1 as <- <-.
  apply bind_inr in H as ([] & w5 & H1 & H).
  apply writing_inr in H1 as (types & Hinit & ->).
  apply bind_inr in H as (ci & w5 & H1 & H).
  rewrite latestContextIndex_eq in H1. injection H1 as <- <-.
  rewrite updateWorkingTab_eq in H.
  change (contexts (with_pageTypes types w4)) with (contexts w4) in H.
  destruct (page_at _ _ _) as [page |] eqn:Hpage; [| done].
  injection H as <-. exists page. simpl. repeat split; [done |].
  by eapply pageType_initializePageType.
Qed.

(** The world a successful [openNewTabInNewContext] leaves when it made the
    context itself. *)
Lemma openNewTabInNewContext_world (cur : option string) (w w' : World) :
  openNewTabInNewContext None cur w = (inr tt, w') ->
  exists types1 types5,
    (types1 = pageTypes w \/
     exists wci wti tag,
       tabDataHelper.updatePageType wci wti tag (pageTypes w) = inr types1) /\
    tabDataHelper.initializePageType (Z.of_nat (List.length (contexts w))) 0
      (types1 ++ [∅]) = inr types5 /\
    contexts w' =
      add_page (nextId w) {| page_id := S (nextId w); page_context := nextId w |}
        <$> (contexts w ++ [ {| context_id := nextId w; context_pages := [] |} ]) /\
    pageTypes w' = types5 /\
    nextId w' = S (S (nextId w)) /\
    match given cur with
    | None => types1 = pageTypes w
    | Some tag =>
        exists wci wti,
          working_indices w = Some (wci, wti) /\
          tabDataHelper.updatePageType wci wti tag (pageTypes w) = inr types1
    end.
Proof.
  unfold openNewTabInNewContext. intros H.
  apply bind_inr in H as ([] & w1 & H1 & H).
  assert (contexts w1 = contexts w /\ nextId w1 = nextId w /\
          (pageTypes w1 = pageTypes w \/
           exists wci wti tag,
             tabDataHelper.updatePageType wci wti tag (pageTypes w)
               = inr (pageTypes w1)) /\
          match given cur with
          | None => pageTypes w1 = pageTypes w
          | Some tag =>
              exists wci wti,
                working_indices w = Some (wci, wti) /\
                tabDataHelper.updatePageType wci wti tag (pageTypes w)
                  = inr (pageTypes w1)
          end) as (Hcs & Hid & Htypes & Hgiven).
  { destruct (given cur) as [t |]; [| injection H1 as <-; repeat split; auto].
    apply bind_inr in H1 as (ci & w0 & H0 & H1).
    rewrite workingContextIndex_eq in H0.
    destruct (working_indices w) as [[wci wti] |] eqn:Hw; [| done].
    injection H0 as <- <-.
    apply bind_inr in H1 as (ti & w0 & H0 & H1).
    rewrite workingTabIndex_eq, Hw in H0. injection H0 as <- <-.
    apply writing_inr in H1 as (types & Hup & ->). simpl.
    repeat split; [right; by eexists _, _, _ | by eexists _, _]. }
  clear H1.
  apply bind_inr in H as (newContext & w2 & H1 & H).
  unfold browser_newContext in H1. injection H1 as <- <-.
  apply bind_inr in H as (newTab & w3 & H1 & H).
  unfold context_newPage in H1. simpl in H1.
  destruct (existsb _ _); [| done]. injection H1 as <- <-.
  apply bind_inr in H as ([] & w4 & H1 & H).
  apply writing_inr in H1 as (types4 & [= <-] & ->).
  apply bind_inr in H as (ci & w5 & H1 & H).
  rewrite latestContextIndex_eq in H1. injection H1 as <- <-.
  apply bind_inr in H as ([] & w5 & H1 & H).
  apply writing_inr in H1 as (types5 & Hinit & ->).
  apply bind_inr in H as (ci & w5 & H1 & H).
  rewrite latestContextIndex_eq in H1. injection H1 as <- <-.
  rewrite updateWorkingTab_eq in H.
  destruct (page_at _ _ _) as [page |]; [| done].
  injection H as <-. simpl in *.
  exists (pageTypes w1), types5. rewrite Hcs, Hid in *.
  repeat split; try done.
  rewrite <- Hinit. f_equal.
  unfold latest_index, tabDataHelper.initializeContextPageTypes.
  rewrite length_fmap, length_app. simpl. lia.
Qed.

(** Without a callback, the latest context is the one the step created, and
    its only page is the one the step opened in it. *)
Lemma openNewTabInNewContext_default (cur : option string) (w w' : World) :
  openNewTabInNewContext None cur w = (inr tt, w') ->
  at_index (contexts w') (latest_index (contexts w')) =
    Some {| context_id := nextId w;
            context_pages := [ {| page_id := S (nextId w);
                                  page_context := nextId w |} ] |}.
Proof.
  intros Hstep.
  apply openNewTabInNewContext_world in Hstep as (_ & _ & _ & _ & -> & _).
  rewrite fmap_app, (list_fmap_singleton (add_page _ _)).
  rewrite at_index_latest_app. unfold add_page. simpl.
  by rewrite Nat.eqb_refl.
Qed.


(** A test that opens a context, a second tab in it, a second context, and
    goes back to the second tab of the first. *)
Example working_tab_example :
  let ops := [OpenNewTabInNewContext None;
              OpenNewTabInCurrentContext "Login";
              OpenNewTabInNewContext (Some "Home"%string);
              SwitchWorkingTab 0 1 "Admin" "Home"] in
  exists w,
    run_all ops initial = (inr tt, w) /\
    working_indices w = Some (0, 1) /\
    tabDataHelper.pageType 0 0 (pageTypes w) = inr (Some "Login"%string) /\
    tabDataHelper.pageType 0 1 (pageTypes w) = inr (Some "Home"%string) /\
    tabDataHelper.pageType 1 0 (pageTypes w) = inr (Some "Admin"%string).
Proof. eexists. vm_compute. repeat split. Qed.

(** *** The page types of the open tabs *)

(** C3, at the input where it breaks.  A test opens three tabs in one context
    and closes the first, which is not the working tab.  Before the step every
    open tab has a page type.  The step passes; the context is still open
    with two tabs; [closeTab] has removed the page types of the whole context,
    and [pageType] throws for both tabs. *)
Theorem closeTab_drops_page_types :
  let ops := [OpenNewTabInNewContext None;
              OpenNewTabInCurrentContext "Home";
              OpenNewTabInCurrentContext "Cart"] in
  exists before after,
    run_all ops initial = (inr tt, before) /\
    tracked before /\
    closeTab 0 0 before = (inr tt, after) /\
    page_at after 0 0 = Some {| page_id := 2; page_context := 0 |} /\
    page_at after 0 1 = Some {| page_id := 3; page_context := 0 |} /\
    workingTab after = Some {| page_id := 3; page_context := 0 |} /\
    pageTypes after = [] /\
    tabDataHelper.pageType 0 0 (pageTypes after) = inl (NoPageTypesFound 0) /\
    tabDataHelper.pageType 0 1 (pageTypes after) = inl (NoPageTypesFound 0) /\
    ~ tracked after.
Proof.
  eexists _, _. split; [vm_compute; reflexivity |].
  split; [| split; [vm_compute; reflexivity |]].
  - intros c t page. unfold page_at, at_index. simpl.
    destruct (c <? 0) eqn:Hc; [done |]. apply Z.ltb_ge in Hc.
    destruct (Z.to_nat c) as [| n] eqn:Hn; [| by destruct n].
    assert (c = 0) as -> by lia. simpl.
    destruct (t <? 0) eqn:Ht; [done |]. apply Z.ltb_ge in Ht.
    destruct (Z.to_nat t) as [| [| [| n]]] eqn:Hm; simpl; [| | | done];
      intros _; [assert (t = 0) as -> by lia | assert (t = 1) as -> by lia
                | assert (t = 2) as -> by lia]; by eexists.
  - repeat split; try reflexivity.
    intros Htracked.
    destruct (Htracked 0 0 {| page_id := 2; page_context := 0 |} eq_refl)
      as [tag Htag].
    discriminate Htag.
Qed.

(** The sibling step keeps the table in line: closing the first of two
    contexts leaves the page type of the tab of the second, at its new
    index. *)
Example closeContext_keeps_page_types :
  let ops := [OpenNewTabInNewContext None;
              OpenNewTabInNewContext (Some "Home"%string);
              CloseContext 0] in
  exists w,
    run_all ops initial = (inr tt, w) /\
    page_at w 0 0 = Some {| page_id := 3; page_context := 2 |} /\
    workingTab w = Some {| page_id := 3; page_context := 2 |} /\
    tabDataHelper.pageType 0 0 (pageTypes w) = inr (Some "Blank"%string) /\
    closeContext 0 w = (inl (ExpectNotWorkingContext 0), w) /\
    closeContext 1 w = (inl (ContextDoesNotExist 1), w) /\
    closeTab 0 0 w = (inl (ExpectNotWorkingTab 0 0), w) /\
    closeTab 0 1 w = (inl (PageDoesNotExist 1 0), w).
Proof. eexists. vm_compute. repeat split. Qed.

End browserHelper_facts.

(** ** browserHelper: the table stays in line *)

Module page_types_facts.
Import JsArray JsArray_facts Browser browserHelper browserHelper_facts.
Local Open Scope browser_scope.

Lemma aligned_initial : aligned initial.
Proof.
  split; simpl; try done.
  - apply NoDup_nil_2.
  - by intros ? ? ?%elem_of_nil.
  - by intros ? ?%elem_of_nil.
Qed.

(** In a world in line every open tab has a page type. *)
Lemma aligned_tracked (w : World) : aligned w -> tracked w.
Proof.
  intros Hw c t page. unfold page_at.
  destruct (at_index (contexts w) c) as [context |] eqn:Hc; [| done].
  intros Ht. apply at_index_Some in Hc as [Hc0 Hc], Ht as [Ht0 Ht].
  assert (is_Some (pageTypes w !! Z.to_nat c)) as [types Htypes].
  { apply lookup_lt_is_Some. rewrite (aligned_length w Hw).
    by eapply lookup_lt_Some. }
  destruct (aligned_types w Hw _ _ _ (Z.to_nat t) Hc Htypes) as [tag Htag].
  { by eapply lookup_lt_Some. }
  exists tag. unfold tabDataHelper.pageType, tabDataHelper.contextPageTypes.
  rewrite (proj2 (at_index_Some _ _ _) (conj Hc0 Htypes)).
  rewrite Z2Nat.id in Htag by done. by rewrite Htag.
Qed.

(** Writing a page type keeps the table in line. *)
Lemma aligned_updatePageType (w : World) (c t : Z) (tag : string)
    (types : list (gmap Z string)) :
  aligned w ->
  tabDataHelper.updatePageType c t tag (pageTypes w) = inr types ->
  aligned (with_pageTypes types w).
Proof.
  intros Hw. unfold tabDataHelper.updatePageType, tabDataHelper.contextPageTypes.
  destruct (at_index (pageTypes w) c) as [row |] eqn:Hrow; [| done].
  intros [= <-]. apply at_index_Some in Hrow as [Hc0 Hrow].
  split; simpl; [| | apply Hw..].
  - rewrite length_insert. apply Hw.
  - intros c' context types' t' Hcontext Htypes Ht.
    destruct (decide (c' = Z.to_nat c)) as [-> | Hne].
    + rewrite list_lookup_insert_eq in Htypes by by eapply lookup_lt_Some.
      injection Htypes as <-. apply lookup_insert_is_Some'. right.
      by eapply (aligned_types w Hw).
    + rewrite list_lookup_insert_ne in Htypes by done.
      by eapply (aligned_types w Hw).
Qed.

Lemma aligned_switchWorkingTab (w w' : World) (c t : Z) (cur next : string) :
  aligned w -> switchWorkingTab c t cur next w = (inr tt, w') -> aligned w'.
Proof.
  intros Hw Hstep.
  apply switchWorkingTab_inr in Hstep as (wci & wti & page & types & _ & Hup & _ & ->).
  pose proof (aligned_updatePageType _ _ _ _ _ Hw Hup) as Hw1.
  split; simpl; apply Hw1.
Qed.

(** In a world in line, the context of a name is at one index only. *)
Lemma aligned_index (w : World) (n n' : nat) (context context' : BrowserContext) :
  aligned w ->
  contexts w !! n = Some context -> contexts w !! n' = Some context' ->
  context_id context = context_id context' -> n = n'.
Proof.
  intros Hw Hn Hn' Hid.
  eapply (NoDup_lookup _ _ _ (context_id context) (aligned_names w Hw));
    rewrite list_lookup_fmap; [by rewrite Hn | by rewrite Hn', Hid].
Qed.

Lemma aligned_openNewTabInCurrentContext (w w' : World) (cur : string) :
  aligned w -> openNewTabInCurrentContext cur w = (inr tt, w') -> aligned w'.
Proof.
  intros Hw Hstep.
  apply openNewTabInCurrentContext_world in Hstep
    as (previous & wci & wti & types1 & n & context0 & types3
        & _ & Hup & _ & Hn & Hid & Hinit & -> & _).
  pose proof (aligned_updatePageType _ _ _ _ _ Hw Hup) as Hw1.
  set (c := page_context previous) in *.
  set (newPage := {| page_id := nextId w; page_context := c |}) in *.
  unfold tabDataHelper.initializePageType, tabDataHelper.contextPageTypes in Hinit.
  destruct (at_index types1 (Z.of_nat n)) as [row |] eqn:Hrow; [| done].
  injection Hinit as <-. apply at_index_Some in Hrow as [_ Hrow].
  rewrite Nat2Z.id in Hrow |- *.
  split; simpl.
  - rewrite length_insert, length_fmap. apply Hw1.
  - intros c' context types t Hcontext Htypes Ht.
    apply list_lookup_fmap_Some_1 in Hcontext as (context1 & -> & Hcontext1).
    destruct (decide (c' = n)) as [-> | Hne].
    + rewrite Hn in Hcontext1. injection Hcontext1 as <-.
      rewrite list_lookup_insert_eq in Htypes by by eapply lookup_lt_Some.
      injection Htypes as <-. apply lookup_insert_is_Some'.
      unfold add_page in Ht. rewrite Hid, Nat.eqb_refl in Ht. simpl in Ht.
      rewrite length_app in Ht. simpl in Ht.
      destruct (decide (t = List.length (context_pages context0))) as [-> | Hlt];
        [by left | right].
      apply (aligned_types _ Hw1 n context0 row t); [done | done | lia].
    + rewrite list_lookup_insert_ne in Htypes by done.
      unfold add_page in Ht.
      destruct (Nat.eqb (context_id context1) c) eqn:E.
      * apply Nat.eqb_eq in E. destruct Hne.
        eapply (aligned_index w); [done.. | congruence].
      * by eapply (aligned_types _ Hw1).
  - rewrite context_id_add_page. apply Hw.
  - intros context page
      (context1 & -> & Hcontext1)%list_elem_of_fmap_1 Hpage.
    unfold add_page in Hpage |- *.
    destruct (Nat.eqb (context_id context1) c) eqn:E; simpl in *.
    + apply elem_of_app in Hpage as [Hpage | ->%list_elem_of_singleton].
      * by eapply (aligned_owner w Hw).
      * simpl. apply Nat.eqb_eq in E. done.
    + by eapply (aligned_owner w Hw).
  - intros context (context1 & -> & Hcontext1)%list_elem_of_fmap_1.
    pose proof (aligned_fresh w Hw _ Hcontext1).
    unfold add_page. destruct (Nat.eqb _ _); simpl; lia.
Qed.

Lemma aligned_openNewTabInNewContext (w w' : World) (cur : option string) :
  aligned w -> openNewTabInNewContext None cur w = (inr tt, w') -> aligned w'.
Proof.
  intros Hw Hstep.
  apply openNewTabInNewContext_world in Hstep
    as (types1 & types5 & Htypes1 & Hinit & Hcs & Htypes & Hnext & _).
  assert (aligned (with_pageTypes types1 w)) as Hw1.
  { destruct Htypes1 as [-> | (wci & wti & tag & Hup)];
      [by destruct w | by eapply aligned_updatePageType]. }
  assert (forall context, context ∈ contexts w ->
            add_page (nextId w)
              {| page_id := S (nextId w); page_context := nextId w |} context
            = context) as Hold.
  { intros context Hin. pose proof (aligned_fresh w Hw _ Hin) as Hlt.
    unfold add_page. rewrite (proj2 (Nat.eqb_neq _ _)); [done | lia]. }
  assert (contexts w' =
          contexts w ++ [ {| context_id := nextId w;
                             context_pages :=
                               [ {| page_id := S (nextId w);
                                    page_context := nextId w |} ] |} ]) as Hcs'.
  { rewrite Hcs, fmap_app. f_equal.
    - rewrite <- (list_fmap_id (contexts w)) at 2.
      apply list_fmap_ext. intros i context Hi. apply Hold.
      by eapply list_elem_of_lookup_2.
    - simpl. unfold add_page. simpl. by rewrite Nat.eqb_refl. }
  unfold tabDataHelper.initializePageType, tabDataHelper.contextPageTypes in Hinit.
  assert (List.length types1 = List.length (contexts w)) as Hlen
    by apply (aligned_length _ Hw1).
  assert (at_index (types1 ++ [∅]) (Z.of_nat (List.length (contexts w)))
          = Some (∅ : gmap Z string)) as Hrow.
  { rewrite <- Hlen. apply at_index_Some. split; [lia |].
    rewrite Nat2Z.id. by rewrite lookup_app_r, Nat.sub_diag by lia. }
  rewrite Hrow in Hinit. injection Hinit as Hinit.
  rewrite Nat2Z.id, <- Hlen in Hinit.
  rewrite insert_app_r_alt, Nat.sub_diag in Hinit by lia. simpl in Hinit.
  split; rewrite ?Hcs', ?Htypes, ?Hnext, <- ?Hinit.
  - rewrite !length_app. simpl. lia.
  - intros c context types t Hcontext Hrow' Ht.
    destruct (decide (c < List.length (contexts w))%nat) as [Hlt | Hge].
    + rewrite lookup_app_l in Hcontext by done.
      rewrite lookup_app_l in Hrow' by lia.
      by eapply (aligned_types _ Hw1).
    + rewrite lookup_app_r in Hcontext by lia.
      rewrite lookup_app_r in Hrow' by lia. rewrite Hlen in Hrow'.
      destruct (c - List.length (contexts w))%nat as [| k]; [| done].
      injection Hcontext as <-. injection Hrow' as <-. simpl in Ht.
      assert (t = 0%nat) as -> by lia. by rewrite lookup_insert_eq.
  - rewrite fmap_app. simpl. apply NoDup_app. split; [apply Hw |]. split.
    + intros x (context & -> & Hin)%list_elem_of_fmap_1
        Heq%list_elem_of_singleton.
      pose proof (aligned_fresh w Hw _ Hin). lia.
    + apply NoDup_singleton.
  - intros context page [Hin | ->%list_elem_of_singleton]%elem_of_app Hpage.
    + by eapply (aligned_owner w Hw).
    + simpl in *. by apply list_elem_of_singleton in Hpage as ->.
  - intros context [Hin | ->%list_elem_of_singleton]%elem_of_app.
    + pose proof (aligned_fresh w Hw _ Hin). lia.
    + simpl. lia.
Qed.

(** *** Closing a context *)

Lemma close_pages_eq (pages : list Page) (w : World) :
  close_pages pages w =
    (inr tt, {| contexts := remove_pages pages <$> contexts w;
                workingTab := workingTab w; pageTypes := pageTypes w;
                nextId := nextId w |}).
Proof.
  revert w. induction pages as [| page pages IH]; intros w.
  - simpl. unfold ret. rewrite list_fmap_id. by destruct w.
  - cbn [close_pages]. unfold bind, page_close. rewrite IH. simpl.
    by rewrite <- list_fmap_compose.
Qed.

Lemma context_id_remove_pages (pages : list Page) (context : BrowserContext) :
  context_id (remove_pages pages context) = context_id context.
Proof.
  revert context. induction pages as [| page pages IH]; intros context; [done |].
  unfold remove_pages. simpl. fold (remove_pages pages (remove_page page context)).
  by rewrite IH.
Qed.

(** Closing pages leaves a context that has none of them. *)
Lemma remove_pages_other (pages : list Page) (context : BrowserContext) :
  (forall page, page ∈ pages -> page ∉ context_pages context) ->
  remove_pages pages context = context.
Proof.
  revert context. induction pages as [| page pages IH]; intros context Hnone; [done |].
  unfold remove_pages. simpl. fold (remove_pages pages (remove_page page context)).
  assert (remove_page page context = context) as ->.
  { destruct context as [id ps]. unfold remove_page. simpl. f_equal.
    assert (page ∉ ps) as Hpage by (apply (Hnone page); by left).
    clear -Hpage. induction ps as [| p ps IH]; [done |]. simpl.
    apply not_elem_of_cons in Hpage as [Hne Hpage].
    rewrite bool_decide_eq_false_2 by done. simpl. by rewrite IH. }
  apply IH. intros p Hp. apply Hnone. by right.
Qed.

(** Among contexts of different names, dropping those of one name drops the
    context at one index. *)
Lemma filter_name_delete (f : BrowserContext -> BrowserContext)
    (cs : list BrowserContext) (n : nat) (context : BrowserContext) :
  NoDup (context_id <$> cs) ->
  cs !! n = Some context ->
  (forall ctx, context_id (f ctx) = context_id ctx) ->
  (forall ctx, ctx ∈ cs -> context_id ctx <> context_id context -> f ctx = ctx) ->
  List.filter (fun ctx => negb (Nat.eqb (context_id ctx) (context_id context)))
    (f <$> cs) = delete n cs.
Proof.
  intros Hnames Hn Hid Hother. revert n Hnames Hn Hother.
  induction cs as [| x cs IH]; intros n Hnames Hn Hother; [done |].
  rewrite fmap_cons in Hnames. apply NoDup_cons in Hnames as [Hx Hnames].
  rewrite fmap_cons. cbn [List.filter]. rewrite Hid.
  destruct n as [| n]; simpl in Hn.
  - injection Hn as ->. rewrite Nat.eqb_refl. simpl.
    assert (forall l, (forall y, y ∈ l -> y ∈ cs) ->
              List.filter (fun ctx => negb (Nat.eqb (context_id ctx) (context_id context)))
                (f <$> l) = l) as Hkeep.
    { induction l as [| y l IHl]; intros Hl; [done |].
      assert (context_id y <> context_id context) as Hy.
      { intros Heq. apply Hx. rewrite <- Heq. apply list_elem_of_fmap_2.
        apply Hl. by left. }
      rewrite fmap_cons. cbn [List.filter]. rewrite Hid.
      rewrite (proj2 (Nat.eqb_neq _ _) Hy). simpl.
      rewrite Hother; [| right; apply Hl; by left | done].
      rewrite IHl; [done |]. intros z Hz. apply Hl. by right. }
    by apply Hkeep.
  - assert (context_id x <> context_id context) as Hxc.
    { intros Heq. apply Hx. rewrite Heq. apply list_elem_of_fmap_2.
      by eapply list_elem_of_lookup_2. }
    rewrite (proj2 (Nat.eqb_neq _ _) Hxc). simpl.
    rewrite (Hother x); [| by left | done]. f_equal.
    apply IH; [done.. |]. intros ctx Hctx. apply Hother. by right.
Qed.

Lemma splice1_delete {A : Type} (a : list A) (n : nat) :
  (n < List.length a)%nat -> splice1 a (Z.of_nat n) = delete n a.
Proof.
  intros Hn. unfold splice1.
  rewrite (proj2 (Z.ltb_ge _ _)) by lia.
  rewrite Z.min_l, Nat2Z.id by lia. by rewrite delete_take_drop.
Qed.

(** The world a successful [closeContext] leaves, from a world in line. *)
Lemma closeContext_world (w w' : World) (c : Z) :
  aligned w -> closeContext c w = (inr tt, w') ->
  exists n : nat,
    c = Z.of_nat n /\ (n < List.length (contexts w))%nat /\
    contexts w' = delete n (contexts w) /\
    pageTypes w' = delete n (pageTypes w) /\
    nextId w' = nextId w.
Proof.
  intros Hw. rewrite closeContext_eq.
  destruct (at_index (contexts w) c) as [context |] eqn:Hc; [| done].
  destruct (working_indices w) as [[wci wti] |]; [| done].
  destruct (c =? wci); [done |].
  unfold bind. rewrite close_pages_eq. unfold context_close, writing. simpl.
  intros [= <-]. simpl.
  apply at_index_Some in Hc as [Hc0 Hc].
  assert (Z.to_nat c < List.length (contexts w))%nat as Hlt
    by by eapply lookup_lt_Some.
  exists (Z.to_nat c). rewrite Z2Nat.id by done.
  repeat split; [done | | ].
  - apply filter_name_delete; [apply Hw | done | apply context_id_remove_pages |].
    intros ctx Hctx Hne. apply remove_pages_other. intros page Hpage Hpage'.
    apply Hne.
    rewrite <- (aligned_owner w Hw ctx page Hctx Hpage').
    apply (aligned_owner w Hw context page); [| done].
    by eapply list_elem_of_lookup_2.
  - unfold tabDataHelper.removeContextPageTypes.
    rewrite <- (Z2Nat.id c) at 1 by done. apply splice1_delete.
    by rewrite (aligned_length w Hw).
Qed.

Lemma aligned_closeContext (w w' : World) (c : Z) :
  aligned w -> closeContext c w = (inr tt, w') -> aligned w'.
Proof.
  intros Hw Hstep.
  destruct (closeContext_world _ _ _ Hw Hstep) as (n & -> & Hn & Hcs & Htypes & Hnext).
  split; rewrite ?Hcs, ?Htypes, ?Hnext.
  - rewrite !length_delete by (apply lookup_lt_is_Some; rewrite ?(aligned_length w Hw); lia).
    by rewrite (aligned_length w Hw).
  - intros c context types t. rewrite !list_lookup_delete. apply Hw.
  - rewrite list_fmap_delete. eapply sublist_NoDup; [apply Hw | apply sublist_delete].
  - intros context page Hin%list_elem_of_delete_inv. by apply Hw.
  - intros context Hin%list_elem_of_delete_inv. by apply Hw.
Qed.

(** *** Every operation but [closeTab] *)

Lemma aligned_run (op : operation) (w w' : World) :
  keeps_tabs op = true -> aligned w -> run op w = (inr tt, w') -> aligned w'.
Proof.
  destruct op as [cur | cur | c t cur next | c | c t]; simpl; intros Hop Hw Hrun.
  - by eapply aligned_openNewTabInCurrentContext.
  - by eapply aligned_openNewTabInNewContext.
  - by eapply aligned_switchWorkingTab.
  - by eapply aligned_closeContext.
  - done.
Qed.

Lemma aligned_run_all (ops : list operation) (w w' : World) :
  forallb keeps_tabs ops = true -> aligned w ->
  run_all ops w = (inr tt, w') -> aligned w'.
Proof.
  revert w. induction ops as [| op ops IH]; intros w Hops Hw; simpl.
  - by intros [= <-].
  - simpl in Hops. apply andb_true_iff in Hops as [Hop Hops].
    intros (u & w1 & Hrun & Hrest)%bind_inr. destruct u.
    eapply IH; [done | | done]. by eapply aligned_run.
Qed.

(** X1.  The page types of the open tabs are recorded as long as no tab is
    closed by [closeTab]: after any run of [openNewTabInCurrentContext],
    [openNewTabInNewContext] without a callback, [switchWorkingTab] and
    [closeContext] steps that pass, from the start of a test, the table has a
    row for every open context, and [pageType(c, t)] is a string for every
    open tab. *)
Theorem page_types_tracked (ops : list operation) (w : World) :
  forallb keeps_tabs ops = true ->
  run_all ops initial = (inr tt, w) ->
  List.length (pageTypes w) = List.length (contexts w) /\ tracked w.
Proof.
  intros Hops Hrun.
  assert (aligned w) as Hw
    by (eapply aligned_run_all; [done | apply aligned_initial | done]).
  split; [apply Hw | by apply aligned_tracked].
Qed.

(** Two contexts, two tabs in the second; the first context is closed. *)
Lemma page_types_tracked_witness :
  let ops := [OpenNewTabInNewContext None;
              OpenNewTabInNewContext (Some "Home"%string);
              OpenNewTabInCurrentContext "Login";
              SwitchWorkingTab 1 0 "Cart" "Login";
              CloseContext 0] in
  List.length (pageTypes (run_all ops initial).2)
    = List.length (contexts (run_all ops initial).2) /\
  tracked (run_all ops initial).2.
Proof.
  intros ops.
  apply (page_types_tracked ops (run_all ops initial).2); reflexivity.
Defined.

End page_types_facts.

(** ** browserHelper: the working tab and the open tabs *)

Module working_tab_facts.
Import JsArray JsArray_facts Browser browserHelper browserHelper_facts page_types_facts.
Local Open Scope browser_scope.

(** Where an open page is. *)
Lemma indexOf_lookup {A : Type} `{EqDecision A} (a : list A) (x : A) :
  x ∈ a -> exists n : nat, indexOf a x = Z.of_nat n /\ a !! n = Some x.
Proof.
  intros Hin. apply indexOf_elem in Hin.
  pose proof (at_index_indexOf a x Hin) as Hat.
  apply at_index_Some in Hat as [_ Hat].
  exists (Z.to_nat (indexOf a x)). split; [lia | done].
Qed.

Lemma indexOf_NoDup {A : Type} `{EqDecision A} (a : list A) (x : A) (n : nat) :
  NoDup a -> a !! n = Some x -> indexOf a x = Z.of_nat n.
Proof.
  intros Hnd Hn.
  destruct (indexOf_lookup a x) as (m & -> & Hm); [by eapply list_elem_of_lookup_2 |].
  f_equal. by eapply NoDup_lookup.
Qed.

Lemma open_page_indices (w : World) (n m : nat) (context : BrowserContext) (page : Page) :
  well_formed w ->
  contexts w !! n = Some context -> context_pages context !! m = Some page ->
  indexOf (context_id <$> contexts w) (page_context page) = Z.of_nat n /\
  pages_of (page_context page) (contexts w) = context_pages context /\
  indexOf (context_pages context) page = Z.of_nat m /\
  page_at w (Z.of_nat n) (Z.of_nat m) = Some page.
Proof.
  intros Hw Hn Hm.
  assert (context ∈ contexts w) as Hin by by eapply list_elem_of_lookup_2.
  assert (page ∈ context_pages context) as Hpage by by eapply list_elem_of_lookup_2.
  rewrite (wf_owner w Hw context page Hin Hpage).
  assert (indexOf (context_id <$> contexts w) (context_id context) = Z.of_nat n) as Hi.
  { apply indexOf_NoDup; [apply Hw |]. by rewrite list_lookup_fmap, Hn. }
  assert (at_index (contexts w) (Z.of_nat n) = Some context) as Hat.
  { apply at_index_Some. split; [lia |]. by rewrite Nat2Z.id. }
  split; [done |]. split; [| split].
  - eapply pages_of_indexOf. by rewrite Hi.
  - apply indexOf_NoDup; [by apply (wf_pages w Hw) | done].
  - unfold page_at. rewrite Hat. apply at_index_Some. split; [lia |]. by rewrite Nat2Z.id.
Qed.

(** The working tab of a world with an open context is open, at the indices
    the helper computes for it. *)
Lemma working_tab_open (w : World) :
  well_formed w -> contexts w <> [] ->
  exists page (n m : nat) context,
    workingTab w = Some page /\
    contexts w !! n = Some context /\ context_pages context !! m = Some page /\
    working_indices w = Some (Z.of_nat n, Z.of_nat m) /\
    page_at w (Z.of_nat n) (Z.of_nat m) = Some page.
Proof.
  intros Hw Hne.
  destruct (wf_working w Hw Hne) as (context & page & Hwork & Hin & Hpage).
  apply list_elem_of_lookup_1 in Hin as [n Hn].
  apply list_elem_of_lookup_1 in Hpage as [m Hm].
  destruct (open_page_indices w n m context page Hw Hn Hm) as (Hi & Hp & Hj & Hat).
  exists page, n, m, context. repeat split; try done.
  unfold working_indices. by rewrite Hwork, Hi, Hp, Hj.
Qed.

Lemma page_at_lookup (w : World) (c t : Z) (page : Page) :
  page_at w c t = Some page ->
  exists (n m : nat) context,
    c = Z.of_nat n /\ t = Z.of_nat m /\
    contexts w !! n = Some context /\ context_pages context !! m = Some page.
Proof.
  unfold page_at.
  destruct (at_index (contexts w) c) as [context |] eqn:Hc; [| done].
  intros Ht. apply at_index_Some in Hc as [Hc0 Hc], Ht as [Ht0 Ht].
  exists (Z.to_nat c), (Z.to_nat t), context. repeat split; try done; lia.
Qed.

Lemma well_formed_switchWorkingTab (w w' : World) (c t : Z) (cur next : string) :
  well_formed w -> switchWorkingTab c t cur next w = (inr tt, w') ->
  well_formed w' /\ contexts w' <> [].
Proof.
  intros Hw Hstep.
  apply switchWorkingTab_inr in Hstep as (wci & wti & page & types & _ & _ & Hpage & ->).
  apply page_at_lookup in Hpage as (n & m & context & -> & -> & Hn & Hm).
  assert (contexts w <> []) as Hne by (intros Hnil; by rewrite Hnil in Hn).
  split; [| done].
  split; simpl; try apply Hw.
  intros _. exists context, page. repeat split; by eapply list_elem_of_lookup_2.
Qed.

Lemma well_formed_openNewTabInCurrentContext (w w' : World) (cur : string) :
  well_formed w -> openNewTabInCurrentContext cur w = (inr tt, w') ->
  well_formed w' /\ contexts w' <> [].
Proof.
  intros Hw Hstep.
  apply openNewTabInCurrentContext_world in Hstep
    as (previous & wci & wti & types1 & n & context0 & types3
        & _ & _ & _ & Hn & Hid & _ & -> & _).
  set (c := page_context previous) in *.
  set (newPage := {| page_id := nextId w; page_context := c |}) in *.
  split; [| simpl; intros Hnil; apply fmap_nil_inv in Hnil; by rewrite Hnil in Hn].
  split; simpl.
  - rewrite context_id_add_page. apply Hw.
  - intros context page (context1 & -> & Hcontext1)%list_elem_of_fmap_1 Hpage.
    unfold add_page in Hpage |- *.
    destruct (Nat.eqb (context_id context1) c) eqn:E; simpl in *.
    + apply elem_of_app in Hpage as [Hpage | ->%list_elem_of_singleton].
      * by eapply (wf_owner w Hw).
      * simpl. by apply Nat.eqb_eq in E.
    + by eapply (wf_owner w Hw).
  - intros context (context1 & -> & Hcontext1)%list_elem_of_fmap_1.
    unfold add_page. destruct (Nat.eqb (context_id context1) c); simpl.
    + apply NoDup_app. split; [by apply (wf_pages w Hw) |]. split; [| apply NoDup_singleton].
      intros page Hpage ->%list_elem_of_singleton.
      pose proof (wf_fresh_pages w Hw _ _ Hcontext1 Hpage) as Hlt. simpl in Hlt. lia.
    + by apply (wf_pages w Hw).
  - intros context (context1 & -> & Hcontext1)%list_elem_of_fmap_1.
    pose proof (wf_fresh w Hw _ Hcontext1).
    unfold add_page. destruct (Nat.eqb _ _); simpl; lia.
  - intros context page (context1 & -> & Hcontext1)%list_elem_of_fmap_1 Hpage.
    unfold add_page in Hpage. destruct (Nat.eqb _ _); simpl in Hpage.
    + apply elem_of_app in Hpage as [Hpage | ->%list_elem_of_singleton]; [| simpl; lia].
      pose proof (wf_fresh_pages w Hw _ _ Hcontext1 Hpage). lia.
    + pose proof (wf_fresh_pages w Hw _ _ Hcontext1 Hpage). lia.
  - intros _. exists (add_page c newPage context0), newPage. repeat split.
    + apply list_elem_of_fmap_2. by eapply list_elem_of_lookup_2.
    + unfold add_page. rewrite Hid, Nat.eqb_refl. simpl.
      apply elem_of_app. right. by left.
Qed.

Lemma well_formed_openNewTabInNewContext (w w' : World) (cur : option string) :
  well_formed w -> openNewTabInNewContext None cur w = (inr tt, w') ->
  well_formed w' /\ contexts w' <> [].
Proof.
  intros Hw Hstep.
  destruct (openNewTabInNewContext_inr _ _ _ _ Hstep) as (working & Hat & Hworking & _).
  pose proof (openNewTabInNewContext_default _ _ _ Hstep) as Hlatest.
  unfold page_at in Hat. rewrite Hlatest in Hat. injection Hat as <-.
  apply openNewTabInNewContext_world in Hstep
    as (types1 & types5 & _ & _ & Hcs & _ & Hnext & _).
  set (newPage := {| page_id := S (nextId w); page_context := nextId w |}) in *.
  set (newContext := {| context_id := nextId w; context_pages := [newPage] |}) in *.
  assert (contexts w' = contexts w ++ [newContext]) as Hcs'.
  { rewrite Hcs, fmap_app. f_equal.
    - rewrite <- (list_fmap_id (contexts w)) at 2.
      apply list_fmap_ext. intros i context Hi.
      assert (context ∈ contexts w) as Hin by by eapply list_elem_of_lookup_2.
      pose proof (wf_fresh w Hw _ Hin) as Hlt.
      unfold add_page. rewrite (proj2 (Nat.eqb_neq _ _)); [done | lia].
    - simpl. unfold add_page. simpl. by rewrite Nat.eqb_refl. }
  split; [| rewrite Hcs'; by destruct (contexts w)].
  split; rewrite ?Hcs', ?Hnext.
  - rewrite fmap_app. simpl. apply NoDup_app. split; [apply Hw |]. split.
    + intros x (context & -> & Hin)%list_elem_of_fmap_1 Heq%list_elem_of_singleton.
      pose proof (wf_fresh w Hw _ Hin). lia.
    + apply NoDup_singleton.
  - intros context page [Hin | ->%list_elem_of_singleton]%elem_of_app Hpage.
    + by eapply (wf_owner w Hw).
    + simpl in *. by apply list_elem_of_singleton in Hpage as ->.
  - intros context [Hin | ->%list_elem_of_singleton]%elem_of_app.
    + by apply (wf_pages w Hw).
    + apply NoDup_singleton.
  - intros context [Hin | ->%list_elem_of_singleton]%elem_of_app.
    + pose proof (wf_fresh w Hw _ Hin). lia.
    + simpl. lia.
  - intros context page [Hin | ->%list_elem_of_singleton]%elem_of_app Hpage.
    + pose proof (wf_fresh_pages w Hw _ _ Hin Hpage). lia.
    + simpl in Hpage. apply list_elem_of_singleton in Hpage as ->. simpl. lia.
  - intros _. exists newContext, newPage. repeat split.
    + done.
    + apply elem_of_app. right. by left.
    + by left.
Qed.


Lemma NoDup_List_filter {A : Type} (f : A -> bool) (l : list A) :
  NoDup l -> NoDup (List.filter f l).
Proof.
  induction 1 as [| x l Hx Hl IH]; simpl; [constructor |].
  destruct (f x); [| done]. constructor; [| done].
  intros Hin. apply Hx. apply list_elem_of_In, filter_In in Hin as [Hin _].
  by apply list_elem_of_In.
Qed.

(** What a successful [closeContext] does to the browser. *)
Lemma closeContext_browser (w w' : World) (c : Z) :
  well_formed w -> closeContext c w = (inr tt, w') ->
  exists (n : nat) wci wti,
    c = Z.of_nat n /\ (n < List.length (contexts w))%nat /\
    working_indices w = Some (wci, wti) /\ c <> wci /\
    contexts w' = delete n (contexts w) /\
    workingTab w' = workingTab w /\
    pageTypes w' = tabDataHelper.removeContextPageTypes c (pageTypes w) /\
    nextId w' = nextId w.
Proof.
  intros Hw. rewrite closeContext_eq.
  destruct (at_index (contexts w) c) as [context |] eqn:Hc; [| done].
  destruct (working_indices w) as [[wci wti] |]; [| done].
  destruct (Z.eqb_spec c wci) as [| Hne]; [done |].
  unfold bind. rewrite close_pages_eq. unfold context_close, writing. simpl.
  intros [= <-]. simpl.
  apply at_index_Some in Hc as [Hc0 Hc].
  assert (Z.to_nat c < List.length (contexts w))%nat as Hlt
    by by eapply lookup_lt_Some.
  exists (Z.to_nat c), wci, wti. rewrite Z2Nat.id by done.
  repeat split; try done.
  apply filter_name_delete; [apply Hw | done | apply context_id_remove_pages |].
  intros ctx Hctx Hne'. apply remove_pages_other. intros page Hpage Hpage'.
  apply Hne'.
  rewrite <- (wf_owner w Hw ctx page Hctx Hpage').
  apply (wf_owner w Hw context page); [| done].
  by eapply list_elem_of_lookup_2.
Qed.

Lemma well_formed_closeContext (w w' : World) (c : Z) :
  well_formed w -> closeContext c w = (inr tt, w') ->
  well_formed w' /\ contexts w' <> [].
Proof.
  intros Hw Hstep.
  destruct (closeContext_browser _ _ _ Hw Hstep)
    as (n & wci & wti & -> & Hn & Hwi & Hne & Hcs & Hwork & _ & Hnext).
  assert (contexts w <> []) as Hopen by (intros Hnil; rewrite Hnil in Hn; simpl in Hn; lia).
  destruct (working_tab_open w Hw Hopen)
    as (page & n' & m & context & Hpage & Hn' & Hm & Hwi' & _).
  rewrite Hwi in Hwi'. injection Hwi' as -> ->.
  assert (context ∈ delete n (contexts w)) as Hkept.
  { destruct (decide (n' < n)%nat).
    - apply (list_elem_of_lookup_2 _ n'). by rewrite list_lookup_delete_lt.
    - destruct n' as [| k]; [lia |].
      apply (list_elem_of_lookup_2 _ k). rewrite list_lookup_delete_ge by lia. done. }
  split; [| rewrite Hcs; intros Hnil; rewrite Hnil in Hkept; by apply elem_of_nil in Hkept].
  split; rewrite ?Hcs, ?Hnext, ?Hwork.
  - rewrite list_fmap_delete. eapply sublist_NoDup; [apply Hw | apply sublist_delete].
  - intros ctx page' Hin%list_elem_of_delete_inv. by apply Hw.
  - intros ctx Hin%list_elem_of_delete_inv. by apply Hw.
  - intros ctx Hin%list_elem_of_delete_inv. by apply Hw.
  - intros ctx page' Hin%list_elem_of_delete_inv. by apply Hw.
  - intros _. exists context, page. repeat split; [done.. |].
    by eapply list_elem_of_lookup_2.
Qed.

Lemma well_formed_closeTab (w w' : World) (c t : Z) :
  well_formed w -> closeTab c t w = (inr tt, w') ->
  well_formed w' /\ contexts w' <> [].
Proof.
  intros Hw. rewrite closeTab_eq.
  destruct (page_at w c t) as [closed |] eqn:Hclosed; [| done].
  destruct (working_indices w) as [[wci wti] |] eqn:Hwi; [| done].
  destruct ((c =? wci) && (t =? wti)) eqn:Hguard; [done |].
  unfold bind, page_close, writing. simpl. intros [= <-].
  apply page_at_lookup in Hclosed as (n & m & context & -> & -> & Hn & Hm).
  assert (contexts w <> []) as Hopen by (intros Hnil; by rewrite Hnil in Hn).
  destruct (working_tab_open w Hw Hopen)
    as (page & n' & m' & context' & Hpage & Hn' & Hm' & Hwi' & _).
  rewrite Hwi in Hwi'. injection Hwi' as -> ->.
  assert (page <> closed) as Hother.
  { intros ->.
    assert (context_id context' = context_id context) as Hid.
    { rewrite <- (wf_owner w Hw context' closed), <- (wf_owner w Hw context closed);
        [done | by eapply list_elem_of_lookup_2..]. }
    assert (n' = n) as ->.
    { eapply (NoDup_lookup _ _ _ (context_id context) (wf_names w Hw));
        rewrite list_lookup_fmap; [rewrite Hn'; simpl; by rewrite Hid | by rewrite Hn]. }
    rewrite Hn in Hn'. injection Hn' as <-.
    assert (m' = m) as ->.
    { eapply NoDup_lookup; [| done..]. apply (wf_pages w Hw).
      by eapply list_elem_of_lookup_2. }
    by rewrite !Z.eqb_refl in Hguard. }
  split; [| simpl; intros Hnil; apply fmap_nil_inv in Hnil; done].
  split; simpl.
  - rewrite <- list_fmap_compose. apply Hw.
  - intros ctx page' (ctx1 & -> & Hctx1)%list_elem_of_fmap_1 Hin. simpl in *.
    apply list_elem_of_In, filter_In in Hin as [Hin _]. apply list_elem_of_In in Hin.
    by apply (wf_owner w Hw).
  - intros ctx (ctx1 & -> & Hctx1)%list_elem_of_fmap_1. simpl.
    apply NoDup_List_filter. by apply (wf_pages w Hw).
  - intros ctx (ctx1 & -> & Hctx1)%list_elem_of_fmap_1. simpl. by apply (wf_fresh w Hw).
  - intros ctx page' (ctx1 & -> & Hctx1)%list_elem_of_fmap_1 Hin. simpl in *.
    apply list_elem_of_In, filter_In in Hin as [Hin _]. apply list_elem_of_In in Hin.
    by apply (wf_fresh_pages w Hw ctx1).
  - intros _. exists (remove_page closed context'), page. repeat split; [done | |].
    + apply list_elem_of_fmap_2. by eapply list_elem_of_lookup_2.
    + simpl. apply list_elem_of_In, filter_In. split.
      * apply list_elem_of_In. by eapply list_elem_of_lookup_2.
      * by rewrite bool_decide_eq_false_2.
Qed.

Lemma well_formed_run (op : operation) (w w' : World) :
  well_formed w -> run op w = (inr tt, w') -> well_formed w' /\ contexts w' <> [].
Proof.
  destruct op as [cur | cur | c t cur next | c | c t]; simpl; intros Hw Hrun.
  - by eapply well_formed_openNewTabInCurrentContext.
  - by eapply well_formed_openNewTabInNewContext.
  - by eapply well_formed_switchWorkingTab.
  - by eapply well_formed_closeContext.
  - by eapply well_formed_closeTab.
Qed.

Lemma well_formed_run_all (ops : list operation) (w w' : World) :
  well_formed w -> run_all ops w = (inr tt, w') ->
  well_formed w' /\ (ops <> [] -> contexts w' <> []).
Proof.
  revert w. induction ops as [| op ops IH]; intros w Hw; simpl.
  - by intros [= <-].
  - intros (u & w1 & Hrun & Hrest)%bind_inr. destruct u.
    destruct (well_formed_run _ _ _ Hw Hrun) as [Hw1 Hopen].
    destruct (IH _ Hw1 Hrest) as [Hw' Hopen'].
    split; [done |]. intros _.
    destruct ops as [| op' ops]; [| by apply Hopen'].
    simpl in Hrest. by injection Hrest as <-.
Qed.

(** A world without an open context, whatever its other variables hold. *)
Lemma well_formed_closed (w : World) : contexts w = [] -> well_formed w.
Proof.
  intros Hnil. split; rewrite Hnil; try done.
  - apply NoDup_nil_2.
  - by intros ? ? ?%elem_of_nil.
  - by intros ? ?%elem_of_nil.
  - by intros ? ?%elem_of_nil.
  - by intros ? ? ?%elem_of_nil.
Qed.

(** X3.  The steps never close the working tab under the test.  From a state
    without an open context, as at the start of a test, after any run of the
    five steps that pass, one at least, there is a working tab, it is an open
    page of an open context, and [workingContextIndex()] and
    [workingTabIndex()] are the indices of that page. *)
Theorem working_tab_stays_open (ops : list operation) (w0 w : World) :
  contexts w0 = [] ->
  ops <> [] ->
  run_all ops w0 = (inr tt, w) ->
  exists page wci wti,
    workingTab w = Some page /\
    working_indices w = Some (wci, wti) /\
    page_at w wci wti = Some page.
Proof.
  intros Hclosed Hops Hrun.
  destruct (well_formed_run_all ops w0 w) as [Hw Hopen];
    [by apply well_formed_closed | done |].
  destruct (working_tab_open w Hw (Hopen Hops))
    as (page & n & m & context & Hpage & _ & _ & Hwi & Hat).
  by exists page, (Z.of_nat n), (Z.of_nat m).
Qed.

(** Three tabs in one context; the first is closed, and then the tab that
    became the first: the working tab is the tab that is left. *)
Lemma working_tab_stays_open_witness :
  let ops := [OpenNewTabInNewContext None;
              OpenNewTabInCurrentContext "Home";
              OpenNewTabInCurrentContext "Cart";
              CloseTab 0 0;
              CloseTab 0 0] in
  exists page wci wti,
    workingTab (run_all ops initial).2 = Some page /\
    working_indices (run_all ops initial).2 = Some (wci, wti) /\
    page_at (run_all ops initial).2 wci wti = Some page.
Proof.
  intros ops.
  apply (working_tab_stays_open ops initial (run_all ops initial).2);
    [reflexivity | discriminate | reflexivity].
Defined.

(** *** Before a context is open *)

Lemma working_indices_closed (w : World) :
  contexts w = [] ->
  working_indices w = None \/ working_indices w = Some (-1, -1).
Proof.
  intros Hnil. unfold working_indices. rewrite Hnil.
  destruct (workingTab w); [by right | by left].
Qed.

Lemma updatePageType_no_row (t : Z) (tag : string) (types : list (gmap Z string)) :
  tabDataHelper.updatePageType (-1) t tag types = inl (NoPageTypesFound (-1)).
Proof. done. Qed.

Lemma openNewTabInCurrentContext_closed (cur : string) (w : World) :
  contexts w = [] -> fails_on (openNewTabInCurrentContext cur) w.
Proof.
  intros Hnil. unfold fails_on, openNewTabInCurrentContext.
  unfold bind at 1. rewrite workingContextIndex_eq.
  destruct (working_indices_closed w Hnil) as [Hwi | Hwi]; rewrite Hwi; [by eexists |].
  unfold bind at 1. rewrite workingTabIndex_eq, Hwi.
  unfold bind at 1. unfold writing. rewrite updatePageType_no_row. by eexists.
Qed.

Lemma openNewTabInNewContext_closed_given (cur : option string) (w : World) :
  contexts w = [] -> given cur <> None ->
  fails_on (openNewTabInNewContext None cur) w.
Proof.
  intros Hnil Hgiven. unfold fails_on, openNewTabInNewContext.
  destruct (given cur) as [tag |]; [| done].
  unfold bind at 1. unfold bind at 1. rewrite workingContextIndex_eq.
  destruct (working_indices_closed w Hnil) as [Hwi | Hwi]; rewrite Hwi; [by eexists |].
  unfold bind at 1. rewrite workingTabIndex_eq, Hwi.
  unfold writing. rewrite updatePageType_no_row. by eexists.
Qed.

Lemma openNewTabInNewContext_closed (cur : option string) (w : World) :
  contexts w = [] -> given cur = None ->
  exists row rows,
    pageTypes w ++ [∅] = row :: rows /\
    openNewTabInNewContext None cur w =
      (inr tt,
       {| contexts :=
            [ {| context_id := nextId w;
                 context_pages := [ {| page_id := S (nextId w);
                                       page_context := nextId w |} ] |} ];
          workingTab := Some {| page_id := S (nextId w); page_context := nextId w |};
          pageTypes := <[0 := "Blank"%string]> row :: rows;
          nextId := S (S (nextId w)) |}).
Proof.
  intros Hnil Hgiven.
  assert (exists row rows, pageTypes w ++ [∅] = row :: rows) as (row & rows & Hrows).
  { destruct (pageTypes w); by eexists _, _. }
  exists row, rows. split; [done |].
  unfold openNewTabInNewContext. rewrite Hgiven.
  unfold bind, ret, browser_newContext, context_newPage, writing, latestContextIndex,
    get_contexts, set_pageTypes. simpl.
  rewrite Hnil. simpl. rewrite Nat.eqb_refl. simpl.
  unfold tabDataHelper.initializeContextPageTypes, tabDataHelper.initializePageType,
    tabDataHelper.contextPageTypes. rewrite Hrows. simpl.
  unfold updateWorkingTab, frameworkDataHelper.getPage, frameworkDataHelper.getContext,
    bind, get_contexts, set_workingTab. simpl.
  unfold add_page. simpl. rewrite Nat.eqb_refl. done.
Qed.

(** X4.  While no context is open, as at the start of a test, the only step
    that passes is [openNewTabInNewContext] called without a page type for
    the current tab (or with the empty string): it leaves one context with one
    tab, which is the working tab at the indices 0 and 0, with the page type
    ["Blank"].  [openNewTabInCurrentContext], [switchWorkingTab],
    [closeContext], [closeTab], and [openNewTabInNewContext] with a page type
    fail and change nothing, whatever the working tab was before. *)
Theorem first_step_opens_a_context (w : World) :
  contexts w = [] ->
  (forall cur, fails_on (openNewTabInCurrentContext cur) w) /\
  (forall c t cur next, fails_on (switchWorkingTab c t cur next) w) /\
  (forall c, fails_on (closeContext c) w) /\
  (forall c t, fails_on (closeTab c t) w) /\
  (forall cur, given cur <> None -> fails_on (openNewTabInNewContext None cur) w) /\
  (forall cur, given cur = None ->
     exists w',
       openNewTabInNewContext None cur w = (inr tt, w') /\
       contexts w' =
         [ {| context_id := nextId w;
              context_pages := [ {| page_id := S (nextId w);
                                    page_context := nextId w |} ] |} ] /\
       workingTab w' = Some {| page_id := S (nextId w); page_context := nextId w |} /\
       working_indices w' = Some (0, 0) /\
       tabDataHelper.pageType 0 0 (pageTypes w') = inr (Some "Blank"%string)).
Proof.
  intros Hnil. repeat split.
  - intros cur. by apply openNewTabInCurrentContext_closed.
  - intros c t cur next. unfold fails_on. rewrite switchWorkingTab_eq, Hnil.
    destruct (negb _); [by eexists |]. rewrite at_index_nil. by eexists.
  - intros c. unfold fails_on. rewrite closeContext_eq, Hnil, at_index_nil. by eexists.
  - intros c t. unfold fails_on. rewrite closeTab_eq. unfold page_at.
    rewrite Hnil, at_index_nil. by eexists.
  - intros cur. by apply openNewTabInNewContext_closed_given.
  - intros cur Hgiven.
    destruct (openNewTabInNewContext_closed cur w Hnil Hgiven) as (row & rows & Hrows & ->).
    eexists. split; [done |]. simpl. repeat split.
    + unfold working_indices. simpl. rewrite decide_True by done.
      unfold pages_of. simpl. rewrite Nat.eqb_refl. simpl. by rewrite decide_True.
    + unfold tabDataHelper.pageType. simpl. by rewrite lookup_insert_eq.
Qed.

(** The state a first test leaves once its contexts are closed: the working
    tab is the closed tab of that test, and the table has its row. *)
Lemma first_step_opens_a_context_witness :
  let w := (closeAllContexts (run_all [OpenNewTabInNewContext None] initial).2).2 in
  workingTab w = Some {| page_id := 1; page_context := 0 |} /\
  fails_on (openNewTabInCurrentContext "Home") w /\
  fails_on (openNewTabInNewContext None (Some "Home"%string)) w /\
  exists w',
    openNewTabInNewContext None None w = (inr tt, w') /\
    working_indices w' = Some (0, 0).
Proof.
  intros w.
  destruct (first_step_opens_a_context w eq_refl) as (Hcurrent & _ & _ & _ & Hgiven & Hnew).
  split; [reflexivity |]. split; [apply Hcurrent |]. split; [by apply Hgiven |].
  destruct (Hnew None eq_refl) as (w' & Hstep & _ & _ & Hindices & _).
  by exists w'.
Defined.

(** *** Closing a context moves the contexts after it *)

Lemma at_index_delete {A : Type} (a : list A) (n : nat) (i : Z) :
  at_index (delete n a) i = at_index a (if i <? Z.of_nat n then i else i + 1).
Proof.
  unfold at_index. destruct (i <? 0) eqn:Hneg.
  - apply Z.ltb_lt in Hneg. rewrite (proj2 (Z.ltb_lt i (Z.of_nat n))) by lia.
    by rewrite (proj2 (Z.ltb_lt i 0)).
  - apply Z.ltb_ge in Hneg. rewrite list_lookup_delete.
    destruct (Z.ltb_spec i (Z.of_nat n)).
    + rewrite (proj2 (Z.ltb_ge i 0)) by done. by rewrite decide_True by lia.
    + rewrite (proj2 (Z.ltb_ge (i + 1) 0)) by lia. rewrite decide_False by lia.
      f_equal. lia.
Qed.

Lemma indexOf_delete {A : Type} `{EqDecision A} (a : list A) (n k : nat) (x : A) :
  NoDup a -> a !! k = Some x -> k <> n ->
  indexOf (delete n a) x = if Z.of_nat k <? Z.of_nat n then Z.of_nat k else Z.of_nat k - 1.
Proof.
  intros Hnd Hk Hne.
  assert (NoDup (delete n a)) as Hnd'
    by (eapply sublist_NoDup; [done | apply sublist_delete]).
  destruct (Z.ltb_spec (Z.of_nat k) (Z.of_nat n)).
  - apply indexOf_NoDup; [done |]. by rewrite list_lookup_delete_lt by lia.
  - destruct k as [| k]; [lia |].
    replace (Z.of_nat (S k) - 1) with (Z.of_nat k) by lia.
    apply indexOf_NoDup; [done |]. by rewrite list_lookup_delete_ge by lia.
Qed.

Lemma pages_of_lookup (cs : list BrowserContext) (n : nat) (context : BrowserContext) :
  NoDup (context_id <$> cs) -> cs !! n = Some context ->
  pages_of (context_id context) cs = context_pages context.
Proof.
  intros Hnd Hn.
  assert (indexOf (context_id <$> cs) (context_id context) = Z.of_nat n) as Hi.
  { apply indexOf_NoDup; [done |]. by rewrite list_lookup_fmap, Hn. }
  eapply pages_of_indexOf. rewrite Hi. apply at_index_Some.
  split; [lia |]. by rewrite Nat2Z.id.
Qed.

(** The state at the start of a test: no context is open and the table is
    reset; the working tab may be a closed tab of an earlier test. *)
Lemma aligned_closed (w : World) : contexts w = [] -> pageTypes w = [] -> aligned w.
Proof.
  intros Hcs Htypes. split; rewrite ?Hcs, ?Htypes; try done.
  - apply NoDup_nil_2.
  - by intros ? ? ?%elem_of_nil.
  - by intros ? ?%elem_of_nil.
Qed.

(** X5.  In a test that has not closed a tab with [closeTab], a
    [closeContext(c)] that passes moves the contexts after [c] one index down
    and leaves the rest: the page at [i, t] afterwards is the page that was at
    [i, t] for [i] below [c] and at [i + 1, t] from [c] on, with the page type
    that was recorded for it; the working tab is the same page, and the index
    of its context is one less when it was above [c]. *)
Theorem closeContext_shifts_indices (ops : list operation) (w0 w w' : World) (c : Z) :
  contexts w0 = [] -> pageTypes w0 = [] ->
  forallb keeps_tabs ops = true ->
  run_all ops w0 = (inr tt, w) ->
  closeContext c w = (inr tt, w') ->
  let shift i := if i <? c then i else i + 1 in
  workingTab w' = workingTab w /\
  (forall i t, page_at w' i t = page_at w (shift i) t) /\
  (forall i t page,
     page_at w' i t = Some page ->
     tabDataHelper.pageType i t (pageTypes w')
       = tabDataHelper.pageType (shift i) t (pageTypes w)) /\
  (exists wci wti,
     working_indices w = Some (wci, wti) /\ wci <> c /\
     working_indices w' = Some (if wci <? c then wci else wci - 1, wti)).
Proof.
  intros Hcs Htypes Hops Hrun Hstep shift.
  assert (aligned w) as Ha
    by (eapply aligned_run_all; [done | by apply aligned_closed | done]).
  destruct (well_formed_run_all ops w0 w) as [Hw _];
    [by apply well_formed_closed | done |].
  destruct (closeContext_world _ _ _ Ha Hstep) as (n & -> & Hn & Hcs' & Htypes' & _).
  destruct (closeContext_browser _ _ _ Hw Hstep)
    as (n0 & wci & wti & Hn0 & _ & Hwi & Hne & _ & Hwork & _ & _).
  assert (forall i t, page_at w' i t = page_at w (shift i) t) as Hpages.
  { intros i t. unfold page_at. by rewrite Hcs', at_index_delete. }
  split; [done |]. split; [done |]. split.
  - intros i t page Hpage.
    unfold tabDataHelper.pageType, tabDataHelper.contextPageTypes.
    pose proof Hpage as Hpage'. rewrite Hpages in Hpage'.
    unfold page_at in Hpage, Hpage'.
    rewrite Htypes', at_index_delete. fold (shift i).
    destruct (at_index (contexts w) (shift i)) as [context |] eqn:Hcontext; [| done].
    apply at_index_Some in Hcontext as [Hge Hcontext].
    destruct (at_index_in_range (pageTypes w) (shift i)) as [row ->]; [| done].
    rewrite (aligned_length w Ha). apply lookup_lt_Some in Hcontext. lia.
  - assert (contexts w <> []) as Hopen by (intros Hnil; rewrite Hnil in Hn; simpl in Hn; lia).
    destruct (working_tab_open w Hw Hopen)
      as (page & k & m & context & Hpage & Hk & Hm & Hwi' & _).
    rewrite Hwi in Hwi'. injection Hwi' as -> ->.
    exists (Z.of_nat k), (Z.of_nat m). split; [done |]. split; [done |].
    assert (k <> n) as Hkn by (intros ->; done).
    assert (page_context page = context_id context) as Hid.
    { eapply (wf_owner w Hw); by eapply list_elem_of_lookup_2. }
    unfold working_indices. rewrite Hwork, Hpage, Hcs', list_fmap_delete, Hid.
    rewrite (indexOf_delete _ n k); [| apply Hw | by rewrite list_lookup_fmap, Hk | done].
    assert (exists k', delete n (contexts w) !! k' = Some context) as [k' Hk'].
    { destruct (decide (k < n)%nat).
      - exists k. by rewrite list_lookup_delete_lt.
      - destruct k as [| j]; [lia |]. exists j. by rewrite list_lookup_delete_ge by lia. }
    rewrite (pages_of_lookup _ k' context); [| | done].
    + rewrite (indexOf_NoDup _ page m); [done | | done].
      apply (wf_pages w Hw). by eapply list_elem_of_lookup_2.
    + rewrite list_fmap_delete.
      eapply sublist_NoDup; [apply Hw | apply sublist_delete].
Qed.

(** Two contexts, two tabs in the second, which has the working tab; the
    first context is closed. *)
Lemma closeContext_shifts_indices_witness :
  let ops := [OpenNewTabInNewContext None;
              OpenNewTabInNewContext (Some "Home"%string);
              OpenNewTabInCurrentContext "Cart"] in
  let w := (run_all ops initial).2 in
  let w' := (closeContext 0 w).2 in
  let shift i := if i <? 0 then i else i + 1 in
  workingTab w' = workingTab w /\
  (forall i t, page_at w' i t = page_at w (shift i) t) /\
  (forall i t page,
     page_at w' i t = Some page ->
     tabDataHelper.pageType i t (pageTypes w')
       = tabDataHelper.pageType (shift i) t (pageTypes w)) /\
  (exists wci wti,
     working_indices w = Some (wci, wti) /\ wci <> 0 /\
     working_indices w' = Some (if wci <? 0 then wci else wci - 1, wti)).
Proof.
  intros ops w w'.
  apply (closeContext_shifts_indices ops initial w w' 0); reflexivity.
Defined.

(** *** What [closeTab] does *)

Lemma filter_other_id {A : Type} `{EqDecision A} (l : list A) (x : A) :
  x ∉ l -> List.filter (fun y => negb (bool_decide (y = x))) l = l.
Proof.
  induction l as [| y l IH]; [done |]. simpl.
  intros [Hne Hnot]%not_elem_of_cons.
  rewrite bool_decide_eq_false_2 by done. simpl. by rewrite IH.
Qed.

Lemma filter_other_delete {A : Type} `{EqDecision A} (l : list A) (m : nat) (x : A) :
  NoDup l -> l !! m = Some x ->
  List.filter (fun y => negb (bool_decide (y = x))) l = delete m l.
Proof.
  intros Hnd. revert m. induction Hnd as [| y l Hy Hnd IH]; intros m; [done |].
  destruct m as [| m]; simpl.
  - intros [= ->]. rewrite bool_decide_eq_true_2 by done. simpl.
    by apply filter_other_id.
  - intros Hm. rewrite bool_decide_eq_false_2; [simpl; by rewrite (IH _ Hm) |].
    intros ->. apply Hy. by eapply list_elem_of_lookup_2.
Qed.

(** What a successful [closeTab] does to the browser and to the table. *)
Lemma closeTab_world (w w' : World) (c t : Z) :
  well_formed w -> closeTab c t w = (inr tt, w') ->
  exists (n m : nat) context,
    c = Z.of_nat n /\ t = Z.of_nat m /\
    contexts w !! n = Some context /\ (m < List.length (context_pages context))%nat /\
    contexts w' =
      <[n := {| context_id := context_id context;
                context_pages := delete m (context_pages context) |}]> (contexts w) /\
    workingTab w' = workingTab w /\
    pageTypes w' = tabDataHelper.removeContextPageTypes c (pageTypes w) /\
    nextId w' = nextId w.
Proof.
  intros Hw. rewrite closeTab_eq.
  destruct (page_at w c t) as [closed |] eqn:Hclosed; [| done].
  destruct (working_indices w) as [[wci wti] |] eqn:Hwi; [| done].
  destruct ((c =? wci) && (t =? wti)) eqn:Hguard; [done |].
  unfold bind, page_close, writing. simpl. intros [= <-]. simpl.
  apply page_at_lookup in Hclosed as (n & m & context & -> & -> & Hn & Hm).
  exists n, m, context. repeat split; try done; [by eapply lookup_lt_Some |].
  apply list_eq. intros i. rewrite list_lookup_fmap.
  destruct (decide (i = n)) as [-> | Hne].
  - rewrite list_lookup_insert_eq by by eapply lookup_lt_Some.
    rewrite Hn. simpl. unfold remove_page. do 2 f_equal.
    apply filter_other_delete; [| done].
    apply (wf_pages w Hw). by eapply list_elem_of_lookup_2.
  - rewrite list_lookup_insert_ne by done.
    destruct (contexts w !! i) as [ctx |] eqn:Hi; [| done]. simpl. f_equal.
    destruct ctx as [id pages]. unfold remove_page. simpl. f_equal.
    apply filter_other_id. intros Hin.
    apply Hne.
    eapply (NoDup_lookup _ _ _ (context_id context) (wf_names w Hw));
      rewrite list_lookup_fmap; [| by rewrite Hn].
    rewrite Hi. simpl. f_equal.
    transitivity (page_context closed).
    + symmetry.
      apply (wf_owner w Hw {| context_id := id; context_pages := pages |} closed);
        [by eapply list_elem_of_lookup_2 | done].
    + apply (wf_owner w Hw); by eapply list_elem_of_lookup_2.
Qed.

(** X6.  What [closeTab] does, in a test that has not used it before.  A
    [closeTab(c, t)] that passes closes that one page: the tabs after it in
    context [c] move one index down, every other tab and the working tab stay.
    In the table it removes the row of context [c] altogether, so the table
    is one row short: the rows of the contexts after [c] are now read for the
    context one index below theirs, and [pageType] throws for the last
    context. *)
Theorem closeTab_removes_context_row (ops : list operation) (w0 w w' : World) (c t : Z) :
  contexts w0 = [] -> pageTypes w0 = [] ->
  forallb keeps_tabs ops = true ->
  run_all ops w0 = (inr tt, w) ->
  closeTab c t w = (inr tt, w') ->
  workingTab w' = workingTab w /\
  (forall i t', i <> c -> page_at w' i t' = page_at w i t') /\
  (forall t', page_at w' c t' = page_at w c (if t' <? t then t' else t' + 1)) /\
  Z.of_nat (List.length (pageTypes w')) = latest_index (contexts w') /\
  (forall i t', i < c ->
     tabDataHelper.pageType i t' (pageTypes w') = tabDataHelper.pageType i t' (pageTypes w)) /\
  (forall i t' tag, c <= i ->
     tabDataHelper.pageType (i + 1) t' (pageTypes w) = inr tag ->
     tabDataHelper.pageType i t' (pageTypes w') = inr tag) /\
  (forall t',
     tabDataHelper.pageType (latest_index (contexts w')) t' (pageTypes w')
       = inl (NoPageTypesFound (latest_index (contexts w')))).
Proof.
  intros Hcs Htypes Hops Hrun Hstep.
  assert (aligned w) as Ha
    by (eapply aligned_run_all; [done | by apply aligned_closed | done]).
  destruct (well_formed_run_all ops w0 w) as [Hw _];
    [by apply well_formed_closed | done |].
  destruct (closeTab_world _ _ _ _ Hw Hstep)
    as (n & m & context & -> & -> & Hn & Hm & Hcs' & Hwork & Htypes' & _).
  assert (n < List.length (contexts w))%nat as Hlt by by eapply lookup_lt_Some.
  assert (pageTypes w' = delete n (pageTypes w)) as Hrows.
  { rewrite Htypes'. apply splice1_delete. by rewrite (aligned_length w Ha). }
  assert (List.length (pageTypes w') = List.length (contexts w) - 1)%nat as Hlen.
  { rewrite Hrows, length_delete; [by rewrite (aligned_length w Ha) |].
    apply lookup_lt_is_Some. by rewrite (aligned_length w Ha). }
  assert (List.length (contexts w') = List.length (contexts w)) as Hlen'
    by by rewrite Hcs', length_insert.
  split; [done |]. split; [| split; [| split; [| split; [| split]]]].
  - intros i t' Hne. unfold page_at, at_index. rewrite Hcs'.
    destruct (i <? 0) eqn:Hi; [done |]. apply Z.ltb_ge in Hi.
    rewrite list_lookup_insert_ne by lia. done.
  - intros t'. unfold page_at.
    assert (at_index (contexts w) (Z.of_nat n) = Some context) as ->.
    { apply at_index_Some. split; [lia |]. by rewrite Nat2Z.id. }
    rewrite Hcs'.
    assert (at_index (<[n := {| context_id := context_id context;
                                context_pages := delete m (context_pages context) |}]>
                        (contexts w)) (Z.of_nat n)
            = Some {| context_id := context_id context;
                      context_pages := delete m (context_pages context) |}) as ->.
    { apply at_index_Some. split; [lia |]. rewrite Nat2Z.id.
      by apply list_lookup_insert_eq. }
    simpl. apply at_index_delete.
  - unfold latest_index. rewrite Hlen', Hlen. lia.
  - intros i t' Hi. unfold tabDataHelper.pageType, tabDataHelper.contextPageTypes.
    rewrite Hrows, at_index_delete. by rewrite (proj2 (Z.ltb_lt _ _) Hi).
  - intros i t' tag Hi. unfold tabDataHelper.pageType, tabDataHelper.contextPageTypes.
    rewrite Hrows, at_index_delete. rewrite (proj2 (Z.ltb_ge _ _) Hi).
    by destruct (at_index (pageTypes w) (i + 1)).
  - intros t'. unfold tabDataHelper.pageType, tabDataHelper.contextPageTypes.
    rewrite at_index_out_of_bounds; [done |]. right.
    unfold latest_index. rewrite Hlen', Hlen. lia.
Qed.

(** Two contexts with two tabs each; the first tab of the first context is
    closed. *)
Lemma closeTab_removes_context_row_witness :
  let ops := [OpenNewTabInNewContext None;
              OpenNewTabInCurrentContext "Home";
              OpenNewTabInNewContext (Some "Cart"%string);
              OpenNewTabInCurrentContext "Help"] in
  let w := (run_all ops initial).2 in
  let w' := (closeTab 0 0 w).2 in
  workingTab w' = workingTab w /\
  (forall i t', i <> 0 -> page_at w' i t' = page_at w i t') /\
  (forall t', page_at w' 0 t' = page_at w 0 (if t' <? 0 then t' else t' + 1)) /\
  Z.of_nat (List.length (pageTypes w')) = latest_index (contexts w') /\
  (forall i t', i < 0 ->
     tabDataHelper.pageType i t' (pageTypes w') = tabDataHelper.pageType i t' (pageTypes w)) /\
  (forall i t' tag, 0 <= i ->
     tabDataHelper.pageType (i + 1) t' (pageTypes w) = inr tag ->
     tabDataHelper.pageType i t' (pageTypes w') = inr tag) /\
  (forall t',
     tabDataHelper.pageType (latest_index (contexts w')) t' (pageTypes w')
       = inl (NoPageTypesFound (latest_index (contexts w')))).
Proof.
  intros ops w w'.
  apply (closeTab_removes_context_row ops initial w w' 0 0); reflexivity.
Defined.

(** *** Going to a tab and back *)

Lemma switchWorkingTab_back (w w' : World) (c t : Z) (cur next : string) :
  well_formed w ->
  switchWorkingTab c t cur next w = (inr tt, w') ->
  exists c0 t0 previous,
    working_indices w = Some (c0, t0) /\
    workingTab w = Some previous /\
    working_indices w' = Some (c, t) /\
    (forall cur',
       exists w'',
         switchWorkingTab c0 t0 cur' cur w' = (inr tt, w'') /\
         workingTab w'' = Some previous /\
         contexts w'' = contexts w /\
         tabDataHelper.pageType c t (pageTypes w'') = inr (Some cur')) /\
    (forall cur' next',
       next' <> cur ->
       switchWorkingTab c0 t0 cur' next' w'
         = (inl (ExpectPageType (Some cur) next'), w')).
Proof.
  intros Hw Hstep.
  pose proof Hstep as Hguard. rewrite switchWorkingTab_eq in Hguard.
  apply switchWorkingTab_inr in Hstep
    as (wci & wti & page & types & Hwi & Hup & Hpage & ->).
  apply page_at_lookup in Hpage as (n & m & context & -> & -> & Hn & Hm).
  assert (contexts w <> []) as Hopen by (intros Hnil; by rewrite Hnil in Hn).
  destruct (working_tab_open w Hw Hopen)
    as (previous & n0 & m0 & context0 & Hprev & Hn0 & Hm0 & Hwi0 & Hat0).
  rewrite Hwi in Hwi0. injection Hwi0 as -> ->.
  set (w' := {| contexts := contexts w; workingTab := Some page;
                pageTypes := types; nextId := nextId w |}).
  assert (working_indices w' = Some (Z.of_nat n, Z.of_nat m)) as Hwi'.
  { destruct (open_page_indices w n m context page Hw Hn Hm) as (Hi & Hp & Hj & _).
    unfold working_indices, w'. simpl. by rewrite Hi, Hp, Hj. }
  assert ((Z.of_nat n0 =? Z.of_nat n) && (Z.of_nat m0 =? Z.of_nat m) = false) as Hother.
  { rewrite Z.eqb_sym, (Z.eqb_sym (Z.of_nat m0)).
    destruct (negb _); [done |].
    destruct (at_index (contexts w) (Z.of_nat n)); [| done].
    destruct (negb _); [done |]. rewrite Hwi in Hguard.
    by destruct (_ && _). }
  assert (tabDataHelper.pageType (Z.of_nat n0) (Z.of_nat m0) types = inr (Some cur)) as Hcur
    by by eapply pageType_updatePageType.
  assert (exists row, at_index types (Z.of_nat n) = Some row) as [row Hrow].
  { destruct (negb _); [done |].
    destruct (at_index (contexts w) (Z.of_nat n)); [| done].
    destruct (negb _); [done |]. rewrite Hwi in Hguard.
    destruct (_ && _); [done |].
    unfold tabDataHelper.pageType, tabDataHelper.contextPageTypes in Hguard.
    destruct (at_index (pageTypes w) (Z.of_nat n)) as [row |] eqn:Hrow; [| done].
    unfold tabDataHelper.updatePageType, tabDataHelper.contextPageTypes in Hup.
    destruct (at_index (pageTypes w) (Z.of_nat n0)) as [row0 |] eqn:Hrow0; [| done].
    injection Hup as <-.
    apply at_index_Some in Hrow0 as [_ Hrow0]. rewrite Nat2Z.id in Hrow0 |- *.
    rewrite at_index_insert by by eapply lookup_lt_Some.
    destruct (decide _); by eexists. }
  assert (forall cur' next',
    switchWorkingTab (Z.of_nat n0) (Z.of_nat m0) cur' next' w' =
      if bool_decide (Some cur = Some next') then
        (inr tt,
         {| contexts := contexts w; workingTab := Some previous;
            pageTypes := <[n := <[Z.of_nat m := cur']> row]> types;
            nextId := nextId w |})
      else (inl (ExpectPageType (Some cur) next'), w')) as Hback.
  { intros cur' next'. rewrite switchWorkingTab_eq.
    change (contexts w') with (contexts w). change (pageTypes w') with types.
    assert (at_index (contexts w) (Z.of_nat n0) = Some context0) as ->.
    { apply at_index_Some. split; [lia |]. by rewrite Nat2Z.id. }
    rewrite (proj2 (Z.leb_le (Z.of_nat n0) (latest_index (contexts w)))).
    2: { apply lookup_lt_Some in Hn0. unfold latest_index. lia. }
    rewrite (proj2 (Z.leb_le (Z.of_nat m0) (latest_index (context_pages context0)))).
    2: { apply lookup_lt_Some in Hm0. unfold latest_index. lia. }
    cbn [negb]. rewrite Hwi', Hother, Hcur.
    case_bool_decide; [| done].
    unfold tabDataHelper.updatePageType, tabDataHelper.contextPageTypes.
    rewrite Hrow, Nat2Z.id, updateWorkingTab_eq.
    change (page_at (with_pageTypes _ w') (Z.of_nat n0) (Z.of_nat m0))
      with (page_at w (Z.of_nat n0) (Z.of_nat m0)).
    by rewrite Hat0. }
  exists (Z.of_nat n0), (Z.of_nat m0), previous.
  split; [done |]. split; [done |]. split; [done |]. split.
  - intros cur'. rewrite Hback, bool_decide_eq_true_2 by done.
    eexists. split; [done |]. simpl. repeat split.
    unfold tabDataHelper.pageType, tabDataHelper.contextPageTypes.
    apply at_index_Some in Hrow as [_ Hrow]. rewrite Nat2Z.id in Hrow.
    rewrite at_index_insert by by eapply lookup_lt_Some.
    rewrite decide_True by done. by rewrite lookup_insert_eq.
  - intros cur' next' Hne. rewrite Hback, bool_decide_eq_false_2; [done |].
    intros [= ->]. done.
Qed.

(** X19.  Going to a tab and back.  After a [switchWorkingTab(c, t, cur,
    next)] that passes, in a test run so far by the five steps, the tab at
    [c, t] is the working tab, and the way back to the tab that was the
    working tab is [switchWorkingTab] with the indices that tab had and with
    [cur] as the expected page type: it passes whatever page type it records
    for the tab at [c, t], and makes the old working tab the working tab
    again; with any other expected page type it fails on the page type, and
    changes nothing. *)
Theorem switchWorkingTab_and_back (ops : list operation) (w0 w w' : World)
    (c t : Z) (cur next : string) :
  contexts w0 = [] ->
  run_all ops w0 = (inr tt, w) ->
  switchWorkingTab c t cur next w = (inr tt, w') ->
  exists c0 t0 previous,
    working_indices w = Some (c0, t0) /\
    workingTab w = Some previous /\
    working_indices w' = Some (c, t) /\
    (forall cur',
       exists w'',
         switchWorkingTab c0 t0 cur' cur w' = (inr tt, w'') /\
         workingTab w'' = Some previous /\
         contexts w'' = contexts w /\
         tabDataHelper.pageType c t (pageTypes w'') = inr (Some cur')) /\
    (forall cur' next',
       next' <> cur ->
       switchWorkingTab c0 t0 cur' next' w'
         = (inl (ExpectPageType (Some cur) next'), w')).
Proof.
  intros Hclosed Hrun Hstep.
  destruct (well_formed_run_all ops w0 w) as [Hw _];
    [by apply well_formed_closed | done |].
  by apply (switchWorkingTab_back w w' c t cur next).
Qed.

(** Two tabs in one context; the test goes to the first and back. *)
Lemma switchWorkingTab_and_back_witness :
  let ops := [OpenNewTabInNewContext None; OpenNewTabInCurrentContext "Login"] in
  let w := (run_all ops initial).2 in
  let w' := (switchWorkingTab 0 0 "Home" "Login" w).2 in
  exists c0 t0 previous,
    working_indices w = Some (c0, t0) /\
    workingTab w = Some previous /\
    working_indices w' = Some (0, 0) /\
    (forall cur',
       exists w'',
         switchWorkingTab c0 t0 cur' "Home" w' = (inr tt, w'') /\
         workingTab w'' = Some previous /\
         contexts w'' = contexts w /\
         tabDataHelper.pageType 0 0 (pageTypes w'') = inr (Some cur')) /\
    (forall cur' next',
       next' <> "Home"%string ->
       switchWorkingTab c0 t0 cur' next' w'
         = (inl (ExpectPageType (Some "Home"%string) next'), w')).
Proof.
  intros ops w w'.
  apply (switchWorkingTab_and_back ops initial w w' 0 0 "Home" "Login"); reflexivity.
Defined.

(** *** Page types around an opened tab *)

Lemma pageType_updatePageType_other (c t : Z) (tag : string)
    (types types' : list (gmap Z string)) (c' t' : Z) :
  tabDataHelper.updatePageType c t tag types = inr types' ->
  (c', t') <> (c, t) ->
  tabDataHelper.pageType c' t' types' = tabDataHelper.pageType c' t' types.
Proof.
  unfold tabDataHelper.updatePageType, tabDataHelper.pageType,
    tabDataHelper.contextPageTypes.
  destruct (at_index types c) as [row |] eqn:Hrow; [| done].
  intros [= <-] Hother.
  pose proof Hrow as [Hge Hlookup]%at_index_Some.
  rewrite at_index_insert by by eapply lookup_lt_Some.
  rewrite Z2Nat.id by done.
  destruct (decide (c' = c)) as [-> | Hc]; [| done].
  rewrite Hrow. rewrite lookup_insert_ne; [done |]. intros ->. done.
Qed.

(** *** Opening a tab *)

Lemma page_at_add_page (w : World) (cs : list BrowserContext) (id : nat) (new : Page)
    (c t : Z) (page : Page) :
  match at_index cs c with
  | None => None
  | Some context => at_index (context_pages context) t
  end = Some page ->
  match at_index (add_page id new <$> cs) c with
  | None => None
  | Some context => at_index (context_pages context) t
  end = Some page.
Proof.
  destruct (at_index cs c) as [context |] eqn:Hc; [| done].
  apply at_index_Some in Hc as [Hc0 Hc]. intros Ht.
  assert (at_index (add_page id new <$> cs) c = Some (add_page id new context)) as ->.
  { apply at_index_Some. split; [done |]. by rewrite list_lookup_fmap, Hc. }
  unfold add_page. destruct (Nat.eqb _ _); [| done]. simpl.
  by apply at_index_app_l.
Qed.

(** X21. [openNewTabInCurrentContext], after any passing steps from a closed
    browser: every tab that was open keeps its indices, the new tab takes an
    index [t1] of the working context that was free and becomes the working
    tab, its page type is "Blank", the tab the test leaves is recorded with
    the page type passed as the current one, and no other page type
    changes. *)
Theorem openNewTabInCurrentContext_page_types (ops : list operation) (w0 w w' : World)
    (cur : string) :
  contexts w0 = [] ->
  run_all ops w0 = (inr tt, w) ->
  openNewTabInCurrentContext cur w = (inr tt, w') ->
  exists c0 t0 t1 previous opened,
    working_indices w = Some (c0, t0) /\
    workingTab w = Some previous /\
    page_at w c0 t1 = None /\
    (forall c t page, page_at w c t = Some page -> page_at w' c t = Some page) /\
    page_at w' c0 t1 = Some opened /\
    workingTab w' = Some opened /\
    working_indices w' = Some (c0, t1) /\
    tabDataHelper.pageType c0 t0 (pageTypes w') = inr (Some cur) /\
    tabDataHelper.pageType c0 t1 (pageTypes w') = inr (Some "Blank"%string) /\
    (forall c t,
       (c, t) <> (c0, t0) -> (c, t) <> (c0, t1) ->
       tabDataHelper.pageType c t (pageTypes w')
         = tabDataHelper.pageType c t (pageTypes w)).
Proof.
  intros Hclosed Hrun Hstep.
  destruct (well_formed_run_all ops w0 w) as [Hw _];
    [by apply well_formed_closed | done |].
  destruct (well_formed_openNewTabInCurrentContext _ _ _ Hw Hstep) as [Hw' _].
  apply openNewTabInCurrentContext_world in Hstep
    as (previous & wci & wti & types1 & n & context0 & types3
        & Hprev & Hup & Hfirst & Hn & Hid & Hinit & Hw'eq & Hwi).
  assert (contexts w <> []) as Hopen by (intros Hnil; by rewrite Hnil in Hn).
  destruct (working_tab_open w Hw Hopen)
    as (page & n' & m & context & Hpage & Hn' & Hm & Hwi' & _).
  rewrite Hprev in Hpage. injection Hpage as <-.
  rewrite Hwi in Hwi'. injection Hwi' as -> ->.
  destruct (open_page_indices w n' m context previous Hw Hn' Hm) as (Hi & _ & _ & _).
  assert (n = n') as -> by lia.
  rewrite Hn in Hn'. injection Hn' as <-.
  set (c := page_context previous) in *.
  set (opened := {| page_id := nextId w; page_context := c |}) in *.
  set (len := List.length (context_pages context0)) in *.
  assert (m < len)%nat as Hmlen by by eapply lookup_lt_Some.
  assert (contexts w' !! n' = Some (add_page c opened context0)) as Hn'.
  { rewrite Hw'eq. simpl. by rewrite list_lookup_fmap, Hn. }
  assert (context_pages (add_page c opened context0) !! len = Some opened) as Hnew.
  { unfold add_page. rewrite Hid, Nat.eqb_refl. simpl.
    by rewrite lookup_app_r, Nat.sub_diag by done. }
  destruct (open_page_indices w' n' len _ opened Hw' Hn' Hnew) as (Hi' & Hp' & Hj' & Hat').
  exists (Z.of_nat n'), (Z.of_nat m), (Z.of_nat len), previous, opened.
  split; [done |]. split; [done |]. split; [| split; [| split; [| split; [| split]]]].
  - unfold page_at.
    assert (at_index (contexts w) (Z.of_nat n') = Some context0) as ->.
    { apply at_index_Some. split; [lia |]. by rewrite Nat2Z.id. }
    apply at_index_out_of_bounds. right. unfold len. lia.
  - intros c' t page. rewrite Hw'eq. unfold page_at. simpl.
    by apply (page_at_add_page w).
  - done.
  - by rewrite Hw'eq.
  - unfold working_indices. rewrite Hw'eq. simpl.
    change (page_context opened) with c in Hi', Hp'.
    rewrite Hw'eq in Hi', Hp'. simpl in Hi', Hp'.
    by rewrite Hi', Hp', Hj'.
  - rewrite Hw'eq. simpl. split; [| split].
    + rewrite (pageType_updatePageType_other _ _ _ _ _ _ _ Hinit).
      * by eapply pageType_updatePageType.
      * intros [= Heq]. lia.
    + by eapply pageType_initializePageType.
    + intros c' t Hleft Hopened.
      rewrite (pageType_updatePageType_other _ _ _ _ _ _ _ Hinit) by done.
      by rewrite (pageType_updatePageType_other _ _ _ _ _ _ _ Hup).
Qed.

(** Two tabs in one context, then a third. *)
Lemma openNewTabInCurrentContext_page_types_witness :
  let ops := [OpenNewTabInNewContext None; OpenNewTabInCurrentContext "Login"] in
  let w := (run_all ops initial).2 in
  let w' := (openNewTabInCurrentContext "Home" w).2 in
  exists c0 t0 t1 previous opened,
    working_indices w = Some (c0, t0) /\ workingTab w = Some previous /\
    page_at w c0 t1 = None /\
    (forall c t page, page_at w c t = Some page -> page_at w' c t = Some page) /\
    page_at w' c0 t1 = Some opened /\ workingTab w' = Some opened /\
    working_indices w' = Some (c0, t1) /\
    tabDataHelper.pageType c0 t0 (pageTypes w') = inr (Some "Home"%string) /\
    tabDataHelper.pageType c0 t1 (pageTypes w') = inr (Some "Blank"%string) /\
    (forall c t, (c, t) <> (c0, t0) -> (c, t) <> (c0, t1) ->
       tabDataHelper.pageType c t (pageTypes w') = tabDataHelper.pageType c t (pageTypes w)).
Proof.
  intros ops w w'.
  apply (openNewTabInCurrentContext_page_types ops initial w w' "Home"); reflexivity.
Defined.


(** The browser a successful [openNewTabInNewContext] leaves when it made
    the context itself. *)
Lemma openNewTabInNewContext_contexts (w w' : World) (cur : option string) :
  well_formed w -> openNewTabInNewContext None cur w = (inr tt, w') ->
  contexts w' =
    contexts w ++
    [ {| context_id := nextId w;
         context_pages := [ {| page_id := S (nextId w); page_context := nextId w |} ] |} ] /\
  workingTab w' = Some {| page_id := S (nextId w); page_context := nextId w |}.
Proof.
  intros Hw Hstep.
  destruct (openNewTabInNewContext_inr _ _ _ _ Hstep) as (working & Hat & Hworking & _).
  pose proof (openNewTabInNewContext_default _ _ _ Hstep) as Hlatest.
  unfold page_at in Hat. rewrite Hlatest in Hat. injection Hat as <-.
  apply openNewTabInNewContext_world in Hstep as (_ & _ & _ & _ & Hcs & _).
  split; [| done].
  rewrite Hcs, fmap_app. f_equal.
  - rewrite <- (list_fmap_id (contexts w)) at 2.
    apply list_fmap_ext. intros i context Hi.
    assert (context ∈ contexts w) as Hin by by eapply list_elem_of_lookup_2.
    pose proof (wf_fresh w Hw _ Hin) as Hlt.
    unfold add_page. rewrite (proj2 (Nat.eqb_neq _ _)); [done | lia].
  - simpl. unfold add_page. simpl. by rewrite Nat.eqb_refl.
Qed.

Lemma updatePageType_length (c t : Z) (tag : string) (types types' : list (gmap Z string)) :
  tabDataHelper.updatePageType c t tag types = inr types' ->
  List.length types' = List.length types.
Proof.
  unfold tabDataHelper.updatePageType, tabDataHelper.contextPageTypes.
  destruct (at_index types c); [| done]. intros [= <-]. apply length_insert.
Qed.

Lemma pageType_app_other (types : list (gmap Z string)) (row : gmap Z string) (c t : Z) :
  c <> Z.of_nat (List.length types) ->
  tabDataHelper.pageType c t (types ++ [row]) = tabDataHelper.pageType c t types.
Proof.
  intros Hc. unfold tabDataHelper.pageType, tabDataHelper.contextPageTypes.
  assert (at_index (types ++ [row]) c = at_index types c) as ->; [| done].
  unfold at_index. destruct (c <? 0) eqn:Hneg; [done |]. apply Z.ltb_ge in Hneg.
  destruct (decide (Z.to_nat c < List.length types)%nat).
  - by rewrite lookup_app_l.
  - rewrite !lookup_ge_None_2; [done | lia |]. rewrite length_app. simpl. lia.
Qed.

(** X22. [openNewTabInNewContext] without a context of the caller's, after any
    passing steps that keep the page types in line: every tab that was open
    keeps its indices, the new context comes last, its only tab is the
    working tab at index 0 with page type "Blank"; the tab the test leaves
    is recorded with the current page type when one is passed, and no other
    page type of the contexts that were open changes. *)
Theorem openNewTabInNewContext_page_types (ops : list operation) (w0 w w' : World)
    (cur : option string) :
  contexts w0 = [] -> pageTypes w0 = [] ->
  forallb keeps_tabs ops = true ->
  run_all ops w0 = (inr tt, w) ->
  openNewTabInNewContext None cur w = (inr tt, w') ->
  let c1 := Z.of_nat (List.length (contexts w)) in
  exists opened,
    (forall t, page_at w c1 t = None) /\
    (forall c t page, page_at w c t = Some page -> page_at w' c t = Some page) /\
    page_at w' c1 0 = Some opened /\
    workingTab w' = Some opened /\
    working_indices w' = Some (c1, 0) /\
    tabDataHelper.pageType c1 0 (pageTypes w') = inr (Some "Blank"%string) /\
    match given cur with
    | None =>
        forall c t,
          c <> c1 ->
          tabDataHelper.pageType c t (pageTypes w')
            = tabDataHelper.pageType c t (pageTypes w)
    | Some tag =>
        exists c0 t0,
          working_indices w = Some (c0, t0) /\ c0 <> c1 /\
          tabDataHelper.pageType c0 t0 (pageTypes w') = inr (Some tag) /\
          forall c t,
            c <> c1 -> (c, t) <> (c0, t0) ->
            tabDataHelper.pageType c t (pageTypes w')
              = tabDataHelper.pageType c t (pageTypes w)
    end.
Proof.
  intros Hclosed Htypes Hops Hrun Hstep c1.
  assert (aligned w) as Ha
    by (eapply aligned_run_all; [done | by apply aligned_closed | done]).
  destruct (well_formed_run_all ops w0 w) as [Hw _];
    [by apply well_formed_closed | done |].
  destruct (well_formed_openNewTabInNewContext _ _ _ Hw Hstep) as [Hw' _].
  destruct (openNewTabInNewContext_contexts _ _ _ Hw Hstep) as [Hcs Hworking].
  apply openNewTabInNewContext_world in Hstep
    as (types1 & types5 & _ & Hinit & _ & Htypes' & _ & Hgiven).
  set (opened := {| page_id := S (nextId w); page_context := nextId w |}) in *.
  set (newContext := {| context_id := nextId w; context_pages := [opened] |}) in *.
  set (len := List.length (contexts w)) in *.
  assert (contexts w' !! len = Some newContext) as Hlen.
  { rewrite Hcs. by rewrite lookup_app_r, Nat.sub_diag by done. }
  assert (context_pages newContext !! 0%nat = Some opened) as Hzero by done.
  destruct (open_page_indices w' len 0 newContext opened Hw' Hlen Hzero)
    as (Hi & Hp & Hj & Hat).
  assert (List.length types1 = len) as Hlen1.
  { unfold len. rewrite <- (aligned_length w Ha).
    destruct (given cur) as [tag |]; [| by rewrite Hgiven].
    destruct Hgiven as (wci & wti & _ & Hup). by eapply updatePageType_length. }
  assert (forall c t,
            c <> c1 ->
            tabDataHelper.pageType c t (pageTypes w') = tabDataHelper.pageType c t types1)
    as Hframe.
  { intros c t Hc. rewrite Htypes'.
    rewrite (pageType_updatePageType_other _ _ _ _ _ c t Hinit) by (intros [= ? ?]; done).
    apply pageType_app_other. by rewrite Hlen1. }
  exists opened.
  split; [| split; [| split; [| split; [| split; [| split]]]]].
  - intros t. unfold page_at. rewrite at_index_out_of_bounds; [done |]. right.
    unfold c1, len. lia.
  - intros c t page. unfold page_at.
    destruct (at_index (contexts w) c) as [context |] eqn:Hc; [| done].
    rewrite Hcs, (at_index_app_l _ _ _ _ Hc). done.
  - done.
  - done.
  - unfold working_indices. rewrite Hworking. fold opened.
    change (page_context opened) with (nextId w) in Hi, Hp |- *.
    by rewrite Hi, Hp, Hj.
  - rewrite Htypes'. by eapply pageType_initializePageType.
  - destruct (given cur) as [tag |].
    + destruct Hgiven as (wci & wti & Hwi & Hup).
      assert (contexts w <> []) as Hopen.
      { intros Hnil. destruct (working_indices_closed w Hnil) as [Hnone | Hminus];
          rewrite Hwi in *; [done |]. injection Hminus as -> ->. done. }
      destruct (working_tab_open w Hw Hopen)
        as (page & n & m & context & _ & Hn & _ & Hwi' & _).
      rewrite Hwi in Hwi'. injection Hwi' as -> ->.
      assert (Z.of_nat n <> c1) as Hne.
      { apply lookup_lt_Some in Hn. unfold c1, len. lia. }
      exists (Z.of_nat n), (Z.of_nat m). split; [done |]. split; [done |]. split.
      * rewrite Hframe by done. by eapply pageType_updatePageType.
      * intros c t Hc Hother. rewrite Hframe by done.
        by eapply pageType_updatePageType_other.
    + intros c t Hc. rewrite Hframe by done. by rewrite Hgiven.
Qed.

(** One context with one tab, then a second context. *)
Lemma openNewTabInNewContext_page_types_witness :
  let ops := [OpenNewTabInNewContext None] in
  let w := (run_all ops initial).2 in
  let w' := (openNewTabInNewContext None (Some "Login"%string) w).2 in
  exists opened,
    (forall t, page_at w 1 t = None) /\
    (forall c t page, page_at w c t = Some page -> page_at w' c t = Some page) /\
    page_at w' 1 0 = Some opened /\
    workingTab w' = Some opened /\
    working_indices w' = Some (1, 0) /\
    tabDataHelper.pageType 1 0 (pageTypes w') = inr (Some "Blank"%string) /\
    exists c0 t0,
      working_indices w = Some (c0, t0) /\ c0 <> 1 /\
      tabDataHelper.pageType c0 t0 (pageTypes w') = inr (Some "Login"%string) /\
      forall c t,
        c <> 1 -> (c, t) <> (c0, t0) ->
        tabDataHelper.pageType c t (pageTypes w')
          = tabDataHelper.pageType c t (pageTypes w).
Proof.
  intros ops w w'.
  apply (openNewTabInNewContext_page_types ops initial w w' (Some "Login"%string));
    reflexivity.
Defined.

(** *** Closing everything *)

(** The loop leaves the contexts that were open and are not in its list. *)
Lemma close_contexts_eq (cs : list BrowserContext) (w : World) :
  exists cs',
    close_contexts cs w =
      (inr tt, {| contexts := cs'; workingTab := workingTab w;
                  pageTypes := pageTypes w; nextId := nextId w |}) /\
    forall context, context ∈ cs' ->
      context_id context ∈ (context_id <$> contexts w) /\
      context_id context ∉ (context_id <$> cs).
Proof.
  revert w. induction cs as [| context cs IH]; intros w.
  - exists (contexts w). split; [by destruct w |].
    intros ctx Hin. split; [by apply list_elem_of_fmap_2 | apply not_elem_of_nil].
  - cbn [close_contexts]. unfold bind at 1. unfold pages_now, bind at 1, get_contexts, ret.
    unfold bind at 1. rewrite close_pages_eq.
    unfold bind at 1. unfold context_close at 1. cbn [contexts workingTab pageTypes nextId].
    match goal with
    | |- context [close_contexts cs ?w1] => destruct (IH w1) as (cs' & -> & Hcs')
    end.
    exists cs'. split; [done |]. cbn [contexts] in Hcs'.
    intros ctx Hin. destruct (Hcs' ctx Hin) as [Hold Hnot].
    apply list_elem_of_fmap in Hold as (ctx0 & Hid & Hin0).
    apply list_elem_of_In, filter_In in Hin0 as [Hin0 Hne].
    apply list_elem_of_In, list_elem_of_fmap in Hin0 as (ctx1 & -> & Hin1).
    rewrite context_id_remove_pages in Hne, Hid.
    apply negb_true_iff, Nat.eqb_neq in Hne.
    split.
    + rewrite Hid. by apply list_elem_of_fmap_2.
    + rewrite fmap_cons, not_elem_of_cons. split; [congruence | done].
Qed.

Lemma closeAllContexts_eq (w : World) :
  closeAllContexts w =
    (inr tt, {| contexts := []; workingTab := workingTab w;
                pageTypes := pageTypes w; nextId := nextId w |}).
Proof.
  unfold closeAllContexts, bind, get_contexts.
  destruct (close_contexts_eq (contexts w) w) as (cs' & -> & Hcs').
  destruct cs' as [| ctx cs']; [done |].
  destruct (Hcs' ctx) as [Hin Hnot]; [by left | done].
Qed.

(** X7.  [closeAllContexts] never fails and leaves no context open, whatever
    was open: no index names a page afterwards.  It does not touch the
    variables of the helpers: the working tab is still the page it was, now a
    closed one, for which [workingContextIndex()] and [workingTabIndex()] are
    -1, and the table of page types still has its rows. *)
Theorem closeAllContexts_closes_everything (w : World) :
  exists w',
    closeAllContexts w = (inr tt, w') /\
    contexts w' = [] /\
    (forall c t, page_at w' c t = None) /\
    workingTab w' = workingTab w /\
    pageTypes w' = pageTypes w /\
    (forall page, workingTab w = Some page -> working_indices w' = Some (-1, -1)).
Proof.
  rewrite closeAllContexts_eq. eexists. split; [done |]. simpl.
  repeat split.
  - intros c t. unfold page_at. simpl. by rewrite at_index_nil.
  - intros page Hpage. unfold working_indices. simpl. by rewrite Hpage.
Qed.

(** A test with two contexts and three tabs, closed at its end. *)
Example closeAllContexts_example :
  let ops := [OpenNewTabInNewContext None;
              OpenNewTabInCurrentContext "Home";
              OpenNewTabInNewContext (Some "Cart"%string)] in
  closeAllContexts (run_all ops initial).2
    = (inr tt,
       {| contexts := [];
          workingTab := Some {| page_id := 4; page_context := 3 |};
          pageTypes := [ {[ 0 := "Home"; 1 := "Cart" ]}; {[ 0 := "Blank" ]} ]%string;
          nextId := 5 |}).
Proof. vm_compute. reflexivity. Qed.

End working_tab_facts.

(** ** The fixture *)

Module playwrap_facts.
Import JsArray JsArray_facts Browser browserHelper browserHelper_facts page_types_facts
  working_tab_facts frameworkDataHelper playwrap.

Section Fixture.

Variable W : Type.

Lemma initTestData_inr (baseUrl : option string) (apiRequest browser : nat)
    (options : ErrorListenerOptions) (k k' : Worker W) :
  initTestData baseUrl apiRequest browser options k = inr k' ->
  exists url,
    baseUrl = Some url /\ url <> ""%string /\
    k' = {| tabs := with_pageTypes tabDataHelper.resetPageTypes (tabs k);
            testData := testDataHelper.resetTestData;
            stepSequence := stepSequenceHelper.resetStepSequence;
            frameworkData := init apiRequest url browser options;
            requests := requests k |}.
Proof.
  unfold initTestData. destruct baseUrl as [url |]; [| done].
  destruct (decide (url = ""%string)); [done |]. intros [= <-]. by exists url.
Qed.

(** After the fixture has run around a test, no context is open. *)
Lemma auto_inr (baseURL : option string) (request browser : nat)
    (options : ErrorListenerOptions) (use : Worker W -> Worker W) (k k' : Worker W) :
  auto baseURL request browser options use k = (inr tt, k') ->
  contexts (tabs k') = [].
Proof.
  unfold auto.
  destruct (initTestData _ _ _ _ k) as [e | k1]; [done |].
  rewrite closeAllContexts_eq. by intros [= <-].
Qed.

(** X8.  The page types are tracked in every test of a worker, not only in
    its first.  Whatever an earlier test did to the browser and to the
    variables of the helpers, once the fixture has run around it and
    [initTestData] has run for the next test, that test starts without an
    open context and with an empty table: after any run of its
    [openNewTabInCurrentContext], [openNewTabInNewContext], [switchWorkingTab]
    and [closeContext] steps that pass, the table has a row for every open
    context and [pageType(c, t)] is a string for every open tab. *)
Theorem tabs_tracked_in_every_test
    (baseURL baseURL' : option string) (request request' browser browser' : nat)
    (options options' : ErrorListenerOptions) (use : Worker W -> Worker W)
    (k k1 k2 : Worker W) (ops : list operation) (w : World) :
  auto baseURL request browser options use k = (inr tt, k1) ->
  initTestData baseURL' request' browser' options' k1 = inr k2 ->
  forallb keeps_tabs ops = true ->
  run_all ops (tabs k2) = (inr tt, w) ->
  List.length (pageTypes w) = List.length (contexts w) /\ tracked w.
Proof.
  intros Hauto Hinit Hops Hrun.
  apply auto_inr in Hauto.
  apply initTestData_inr in Hinit as (url & _ & _ & ->). simpl in Hrun.
  assert (aligned w) as Hw.
  { eapply aligned_run_all; [done | | done]. by apply aligned_closed. }
  split; [apply Hw | by apply aligned_tracked].
Qed.

End Fixture.

(** A first test opens two contexts and three tabs; the fixture closes them
    and leaves the two rows of the table and the working tab.  The next test
    opens two contexts and closes the first. *)
Lemma tabs_tracked_in_every_test_witness :
  let first (k : Worker nat) :=
    {| tabs := (run_all [OpenNewTabInNewContext None;
                         OpenNewTabInCurrentContext "Home";
                         OpenNewTabInNewContext (Some "Cart"%string)] (tabs k)).2;
       testData := testData k; stepSequence := stepSequence k;
       frameworkData := frameworkData k; requests := requests k |} in
  let url := Some "http://localhost:3000"%string in
  let k1 := (auto url 1 2 errorListenerOptions_default first (loaded nat)).2 in
  let ops := [OpenNewTabInNewContext None;
              OpenNewTabInNewContext (Some "Home"%string);
              CloseContext 0] in
  let k2 := match initTestData url 1 2 errorListenerOptions_default k1 with
            | inr k => k
            | inl _ => k1
            end in
  List.length (pageTypes (tabs k1)) = 2%nat /\
  workingTab (tabs k1) = Some {| page_id := 4; page_context := 3 |} /\
  List.length (pageTypes (run_all ops (tabs k2)).2)
    = List.length (contexts (run_all ops (tabs k2)).2) /\
  tracked (run_all ops (tabs k2)).2.
Proof.
  intros first url k1 ops k2.
  split; [vm_compute; reflexivity |]. split; [vm_compute; reflexivity |].
  apply (tabs_tracked_in_every_test nat url url 1 1 2 2
           errorListenerOptions_default errorListenerOptions_default
           first (loaded nat) k1 k2 ops (run_all ops (tabs k2)).2);
    vm_compute; reflexivity.
Defined.

End playwrap_facts.

(** ** stepSequenceHelper: the chain *)

Module stepSequence_facts.
Import JsString stepSequenceHelper.

#[local] Arguments onRejected : simpl never.

Section Chain.

Variable moduleUrl : str.
Variable engineStack : str -> option str.
Variable W : Type.

Local Abbreviation onRejected := (onRejected moduleUrl engineStack).
Local Abbreviation stepSequence := (stepSequence moduleUrl engineStack W).
Local Abbreviation addStep := (addStep moduleUrl engineStack W).
Local Abbreviation newError := (newError engineStack).
Local Abbreviation state := (state W).
Local Abbreviation Step := (Step W).
Local Abbreviation rethrow := (rethrow moduleUrl engineStack).
Local Abbreviation rethrow_all := (rethrow_all moduleUrl engineStack).
Local Abbreviation run_from := (run_from moduleUrl engineStack W).

Lemma onRejected_Error (myStack : option str) (e : Error) :
  onRejected myStack (ThrownError e) = Rejected (ThrownError (rethrow myStack e)).
Proof.
  unfold rethrow, stepSequenceHelper.onRejected.
  destruct (err_stack e) as [stack |]; [| done].
  destruct myStack as [myStack |]; [| done].
  destruct (truthy _ && truthy _); [| done].
  destruct (includes _ _ && test _ _); [| done].
  destruct (getTestCallRowInStack engineStack myStack); [done |].
  by destruct (getTestCallRowInStack engineStack stack).
Qed.

Lemma run_from_snoc (steps : list Step) (s : Step) (st : state) :
  run_from (steps ++ [s]) st =
    addStep (step_stack s) (step_title s) (step_callback s) (run_from steps) st.
Proof.
  revert st. induction steps as [| t steps IH]; intros st.
  - simpl. unfold stepSequenceHelper.addStep, catch_, then_.
    destruct (test_step _ _ st) as [[| [e | v]] st']; simpl; [done | | done].
    by rewrite onRejected_Error.
  - change ((t :: steps) ++ [s]) with (t :: (steps ++ [s])).
    cbn [run_from].
    destruct (test_step (step_title t) (step_callback t) st)
      as [[| [e | v]] st'] eqn:Et.
    + rewrite IH. unfold stepSequenceHelper.addStep, catch_, then_.
      cbn [run_from]. by rewrite Et.
    + unfold stepSequenceHelper.addStep, catch_, then_.
      cbn [run_from]. rewrite Et. rewrite onRejected_Error.
      unfold rethrow_all. rewrite app_comm_cons, fmap_app, fold_left_app. done.
    + rewrite IH. unfold stepSequenceHelper.addStep, catch_, then_.
      cbn [run_from]. by rewrite Et.
Qed.

Lemma stepSequence_run_from (steps : list Step) (st : state) :
  stepSequence steps st = run_from steps st.
Proof.
  revert st. induction steps as [| s steps IH] using rev_ind; intros st; [done |].
  rewrite run_from_snoc. unfold stepSequenceHelper.stepSequence.
  rewrite fold_left_app. cbn [fold_left].
  fold (stepSequence steps).
  unfold stepSequenceHelper.addStep, catch_, then_. by rewrite IH.
Qed.

Lemma getTestCallRowInStack_inl (callStack : str) (e : Error) :
  getTestCallRowInStack engineStack callStack = inl e ->
  e = newError found_0_rows \/ e = newError found_multiple_rows.
Proof.
  unfold getTestCallRowInStack.
  destruct (List.filter _ _) as [| [| c row] rest]; [intros [= <-]; by left.. |].
  destruct (1 <? _)%nat; [intros [= <-]; by right | done].
Qed.

Lemma rethrow_cases (myStack : option str) (e : Error) :
  rethrow myStack e = e \/
  (exists stack, rethrow myStack e = set_stack e stack) \/
  rethrow myStack e = newError found_0_rows \/
  rethrow myStack e = newError found_multiple_rows.
Proof.
  unfold rethrow, stepSequenceHelper.onRejected.
  destruct (err_stack e) as [stack |]; [| by left].
  destruct myStack as [myStack |]; [| by left].
  destruct (truthy _ && truthy _); [| by left].
  destruct (includes _ _ && test _ _); [| by left].
  destruct (getTestCallRowInStack engineStack myStack) as [e1 | row1] eqn:E1.
  { apply getTestCallRowInStack_inl in E1 as [-> | ->]; auto. }
  destruct (getTestCallRowInStack engineStack stack) as [e2 | row2] eqn:E2.
  { apply getTestCallRowInStack_inl in E2 as [-> | ->]; auto. }
  right. left. by eexists.
Qed.

Lemma rethrown_of_refl (e : Error) : rethrown_of engineStack e e.
Proof. exists e. auto. Qed.

Lemma rethrown_of_rethrow (myStack : option str) (e e1 : Error) :
  rethrown_of engineStack e e1 -> rethrown_of engineStack e (rethrow myStack e1).
Proof.
  intros (base & Hbase & He1).
  destruct (rethrow_cases myStack e1) as [-> | [[stack ->] | [-> | ->]]].
  - by exists base.
  - exists base. split; [done |]. right. exists stack.
    destruct He1 as [-> | [stack1 ->]]; done.
  - eexists. split; [right; left; done | by left].
  - eexists. split; [right; right; done | by left].
Qed.

Lemma rethrown_of_rethrow_all (stacks : list (option str)) (e e1 : Error) :
  rethrown_of engineStack e e1 ->
  rethrown_of engineStack e (rethrow_all stacks e1).
Proof.
  revert e1. induction stacks as [| myStack stacks IH]; intros e1 He1; [done |].
  apply IH. by apply rethrown_of_rethrow.
Qed.

(** *** The steps run in order *)

Lemma in_order_None (steps : list Step) (w0 w : W) (ran : list string) :
  in_order steps w0 = (None, w, ran) -> ran = step_title <$> steps.
Proof.
  revert w0 w ran. induction steps as [| s steps IH]; intros w0 w ran; simpl.
  - by intros [= <- <-].
  - destruct (step_callback s w0) as [[| [e | v]] w1]; [| done |];
      destruct (in_order steps w1) as [[failure w2] ran1] eqn:E;
      intros [= -> <- <-]; f_equal; by eapply IH.
Qed.

Lemma in_order_Some (steps : list Step) (w0 w : W) (ran : list string) (e : Error) :
  in_order steps w0 = (Some e, w, ran) ->
  exists before s after wb,
    steps = before ++ s :: after /\
    in_order before w0 = (None, wb, step_title <$> before) /\
    step_callback s wb = (Rejected (ThrownError e), w) /\
    ran = step_title <$> (before ++ [s]).
Proof.
  revert w0 w ran. induction steps as [| s steps IH]; intros w0 w ran; simpl; [done |].
  destruct (step_callback s w0) as [[| [e1 | v]] w1] eqn:Ecb.
  - destruct (in_order steps w1) as [[failure w2] ran1] eqn:E.
    intros [= -> <- <-].
    destruct (IH _ _ _ E) as (before & s' & after & wb & -> & Hbefore & Hs' & ->).
    exists (s :: before), s', after, wb. simpl. by rewrite Ecb, Hbefore.
  - intros [= <- <- <-]. by exists [], s, steps, w0.
  - destruct (in_order steps w1) as [[failure w2] ran1] eqn:E.
    intros [= -> <- <-].
    destruct (IH _ _ _ E) as (before & s' & after & wb & -> & Hbefore & Hs' & ->).
    exists (s :: before), s', after, wb. simpl. by rewrite Ecb, Hbefore.
Qed.

Lemma run_from_in_order (steps : list Step) (st : state) :
  match in_order steps (world st) with
  | (failure, w, ran) =>
      exists outcome,
        run_from steps st = (outcome, {| world := w; report := report st ++ ran |}) /\
        match failure with
        | None => outcome = Fulfilled
        | Some e =>
            exists e', outcome = Rejected (ThrownError e') /\
                       rethrown_of engineStack e e'
        end
  end.
Proof.
  revert st. induction steps as [| s steps IH]; intros st.
  - simpl. exists Fulfilled. rewrite app_nil_r. by destruct st.
  - cbn [in_order run_from]. unfold test_step.
    destruct (step_callback s (world st)) as [[| [e | v]] w1].
    + specialize (IH {| world := w1; report := report st ++ [step_title s] |}).
      simpl in IH. destruct (in_order steps w1) as [[failure w2] ran].
      destruct IH as (outcome & -> & Houtcome).
      exists outcome. by rewrite <- app_assoc.
    + eexists. split; [done |]. eexists. split; [done |].
      apply rethrown_of_rethrow_all, rethrown_of_refl.
    + specialize (IH {| world := w1; report := report st ++ [step_title s] |}).
      simpl in IH. destruct (in_order steps w1) as [[failure w2] ran].
      destruct IH as (outcome & -> & Houtcome).
      exists outcome. by rewrite <- app_assoc.
Qed.

(** [getTestCallRowInStack] throws only when the lookup fails: a row that
    matches the pattern is not empty. *)
Lemma getTestCallRowInStack_fails (callStack : str) (e : Error) :
  getTestCallRowInStack engineStack callStack = inl e ->
  lookup_fails engineStack callStack e.
Proof.
  unfold getTestCallRowInStack.
  destruct (List.filter _ _) as [| row rest] eqn:Hrows.
  { intros [= <-]. by apply lookup_no_row. }
  assert (test testFilePath row = true) as Hrow.
  { apply JsString_facts.filter_cons_inv in Hrows as (? & ? & _ & ? & _). done. }
  destruct row as [| c row]; [done |].
  destruct (1 <? _)%nat eqn:Hlen; [| done].
  intros [= <-]. apply lookup_several_rows. rewrite Hrows. by apply Nat.ltb_lt.
Qed.

Lemma getTestCallRowInStack_found (callStack row : str) :
  getTestCallRowInStack engineStack callStack = inr row ->
  List.filter (test testFilePath) (split newline callStack) = [row].
Proof.
  unfold getTestCallRowInStack.
  destruct (List.filter _ _) as [| [| c first] rest]; [done.. |].
  destruct rest as [| second rest]; [by intros [= <-] | done].
Qed.

Lemma handler_throws_rethrow (myStack : option str) (e : Error) :
  handler_throws moduleUrl engineStack myStack e (rethrow myStack e).
Proof.
  unfold rethrow, stepSequenceHelper.onRejected.
  destruct (err_stack e) as [stack |] eqn:Hstack; [| apply throws_received].
  destruct myStack as [myStack |]; [| apply throws_received].
  destruct (truthy _ && truthy _); [| apply throws_received].
  destruct (includes _ _ && test _ _) eqn:Hmentions; [| apply throws_received].
  apply andb_true_iff in Hmentions as [Hmentions _].
  destruct (getTestCallRowInStack engineStack myStack) as [e1 | stepCallRow] eqn:E1.
  { apply (throws_lookup _ _ _ _ myStack); [by left |].
    by apply getTestCallRowInStack_fails. }
  destruct (getTestCallRowInStack engineStack stack) as [e2 | promiseAwaitRow] eqn:E2.
  { apply (throws_lookup _ _ _ _ stack); [by right |].
    by apply getTestCallRowInStack_fails. }
  apply (throws_rewritten _ _ _ _ myStack stack); try done;
    by apply getTestCallRowInStack_found.
Qed.

Lemma rejects_with_rethrow_all (stacks : list (option str)) (e : Error) :
  rejects_with moduleUrl engineStack stacks e (rethrow_all stacks e).
Proof.
  revert e. induction stacks as [| myStack stacks IH]; intros e.
  - apply rejects_with_nil.
  - eapply rejects_with_cons; [apply handler_throws_rethrow | apply IH].
Qed.

(** The chain up to the first step whose callback rejects with an [Error]. *)
Lemma run_from_first_rejection (before after : list Step) (s : Step) (st : state)
    (wb w : W) (e : Error) :
  in_order before (world st) = (None, wb, step_title <$> before) ->
  step_callback s wb = (Rejected (ThrownError e), w) ->
  run_from (before ++ s :: after) st
    = (Rejected (ThrownError (rethrow_all (step_stack <$> s :: after) e)),
       {| world := w; report := report st ++ (step_title <$> (before ++ [s])) |}).
Proof.
  revert st. induction before as [| t before IH]; intros st Hbefore Hs.
  - injection Hbefore as <-. simpl. unfold test_step. by rewrite Hs.
  - change ((t :: before) ++ s :: after) with (t :: (before ++ s :: after)).
    cbn [run_from]. cbn [in_order] in Hbefore. rewrite fmap_cons in Hbefore.
    unfold test_step.
    destruct (step_callback t (world st)) as [[| [e1 | v]] w1]; [| done |];
      destruct (in_order before w1) as [[failure w2] ran] eqn:E;
      injection Hbefore as -> -> ->;
      rewrite (IH {| world := w1; report := report st ++ [step_title t] |} E Hs);
      simpl; by rewrite <- app_assoc.
Qed.


(** *** A rejection that is not an [Error] *)

Lemma run_from_app (before later : list Step) (st st1 : state) :
  run_from before st = (Fulfilled, st1) ->
  run_from (before ++ later) st = run_from later st1.
Proof.
  revert st. induction before as [| s before IH]; intros st; simpl.
  - by intros [= <-].
  - destruct (test_step _ _ st) as [[| [e | v]] st']; [apply IH | done | apply IH].
Qed.

(** C10.  When the steps added so far pass and the callback of the next
    rejects with a value that is not an [Error], the handler of [addStep]
    swallows the rejection: awaiting [stepSequence] succeeds, and the steps
    added afterwards run as they would on a sequence that starts in the state
    the callback left. *)
Theorem non_Error_rejection_swallowed (before later : list Step) (s : Step)
    (st st1 : state) (v : string) (w1 : W) :
  stepSequence before st = (Fulfilled, st1) ->
  step_callback s (world st1) = (Rejected (ThrownValue v), w1) ->
  stepSequence (before ++ [s]) st
    = (Fulfilled, {| world := w1; report := report st1 ++ [step_title s] |}) /\
  stepSequence (before ++ s :: later) st
    = stepSequence later {| world := w1; report := report st1 ++ [step_title s] |}.
Proof.
  rewrite !stepSequence_run_from. intros Hbefore Hs.
  rewrite !(run_from_app _ _ _ _ Hbefore).
  cbn [run_from]. unfold test_step. rewrite Hs. done.
Qed.

End Chain.

End stepSequence_facts.

(** ** stepSequenceHelper: the stack of a failed step *)

Module stack_facts.
Import JsString JsString_facts stepSequenceHelper.

#[local] Arguments test : simpl never.

Lemma testFilePath_newline_free : newline_free testFilePath = true.
Proof. reflexivity. Qed.

Lemma testFilePath_not_empty : test testFilePath [] = false.
Proof. reflexivity. Qed.

Section Stack.

Variable moduleUrl : str.
Variable engineStack : str -> option str.

Local Abbreviation onRejected := (onRejected moduleUrl engineStack).
Local Abbreviation getTestCallRowInStack := (getTestCallRowInStack engineStack).

(** A stack with exactly one row of a spec file: [getTestCallRowInStack]
    returns the row, which is a row without a newline, and the stack as a
    whole matches the pattern. *)
Lemma getTestCallRowInStack_one (callStack row : str) :
  List.filter (test testFilePath) (split newline callStack) = [row] ->
  getTestCallRowInStack callStack = inr row /\
  test testFilePath row = true /\
  test testFilePath callStack = true /\
  truthy (Some callStack) = true /\
  exists before after,
    split newline callStack = before ++ row :: after /\
    (forall r, r ∈ before -> test testFilePath r = false) /\
    (forall r, r ∈ before ++ row :: after -> newline ∉ r).
Proof.
  intros Hfilter.
  destruct (filter_singleton _ _ _ Hfilter) as (before & after & Hsplit & Hb & _ & Hrow).
  assert (row ∈ split newline callStack) as Hin.
  { rewrite Hsplit. apply elem_of_app. right. by left. }
  assert (test testFilePath callStack = true) as Htest by by eapply test_row.
  repeat split; [| done | done | |].
  - unfold stepSequenceHelper.getTestCallRowInStack. rewrite Hfilter.
    destruct row; [by rewrite testFilePath_not_empty in Hrow | done].
  - destruct callStack; [by rewrite testFilePath_not_empty in Htest | done].
  - exists before, after. repeat split; [done.. |].
    intros r Hr. rewrite <- Hsplit in Hr. by eapply split_sep_free.
Qed.

(** The handler of a step on a failure whose stack mentions the helper
    module, when the stack and the stack captured at the [addStep] call have
    exactly one row of a spec file each. *)
Lemma onRejected_rewrites_stack_with (e : Error)
    (stack myStack stepCallRow promiseAwaitRow : str) :
  err_stack e = Some stack ->
  includes stack moduleUrl = true ->
  List.filter (test testFilePath) (split newline myStack) = [stepCallRow] ->
  List.filter (test testFilePath) (split newline stack) = [promiseAwaitRow] ->
  (forall a b, substitution stepCallRow promiseAwaitRow a b = stepCallRow) ->
  includes stepCallRow moduleUrl = false ->
  exists before after stack',
    split newline stack = before ++ promiseAwaitRow :: after /\
    onRejected (Some myStack) (ThrownError e)
      = Rejected (ThrownError (set_stack e stack')) /\
    split newline stack' =
      List.filter (fun row => negb (includes row moduleUrl))
        (before ++ stepCallRow :: after) /\
    stepCallRow ∈ split newline stack' /\
    (forall row, row ∈ split newline stack' -> includes row moduleUrl = false).
Proof.
  intros Hstack Hurl HmyStack Hfilter Hdollar Hplain.
  destruct (getTestCallRowInStack_one _ _ HmyStack)
    as (Hget1 & Htest1 & HtestMy & Htruthy1 & b1 & a1 & Hsplit1 & _ & Hfree1).
  destruct (getTestCallRowInStack_one _ _ Hfilter)
    as (Hget2 & Htest2 & _ & Htruthy2 & before & after & Hsplit & Hbefore & Hfree).
  set (rows := before ++ stepCallRow :: after).
  set (rows' := List.filter (fun row => negb (includes row moduleUrl)) rows).
  assert (newline ∉ stepCallRow) as HfreeStep.
  { apply Hfree1, elem_of_app. right. by left. }
  assert (forall row, row ∈ rows -> newline ∉ row) as Hrows.
  { intros row [Hin | [-> | Hin]%elem_of_cons]%elem_of_app; [| done |];
      apply Hfree, elem_of_app; [by left | right; by right]. }
  assert (forall row, row ∈ rows' <-> row ∈ rows /\ includes row moduleUrl = false)
    as Hrows'.
  { intros row. unfold rows'. rewrite !list_elem_of_In, filter_In.
    by rewrite negb_true_iff. }
  assert (stepCallRow ∈ rows') as Hin.
  { apply Hrows'. split; [| done]. apply elem_of_app. right. by left. }
  assert (rewrite_stack moduleUrl stack promiseAwaitRow stepCallRow
          = join newline rows') as Hrewrite.
  { unfold rewrite_stack.
    rewrite <- (join_split newline stack) at 1. rewrite Hsplit.
    rewrite replace_row_with; [| | | done].
    - rewrite split_join; [done | by destruct before | done].
    - apply Hfree, elem_of_app. right. by left.
    - intros row Hrow. eapply includes_test; [done | by apply Hbefore]. }
  assert (split newline (join newline rows') = rows') as Hsplit'.
  { apply split_join.
    - intros Hnil. rewrite Hnil in Hin. by apply elem_of_nil in Hin.
    - intros row Hrow. apply Hrows. by apply Hrows'. }
  exists before, after, (join newline rows').
  split; [done |]. split; [| rewrite Hsplit'; split; [done | split; [done |]]].
  - unfold stepSequenceHelper.onRejected. rewrite Hstack, Htruthy1, Htruthy2.
    rewrite Hurl, HtestMy. cbn [andb]. by rewrite Hget1, Hget2, Hrewrite.
  - intros row Hrow. by apply Hrows'.
Qed.

Lemma onRejected_rewrites_stack (e : Error)
    (stack myStack stepCallRow promiseAwaitRow : str) :
  err_stack e = Some stack ->
  includes stack moduleUrl = true ->
  List.filter (test testFilePath) (split newline myStack) = [stepCallRow] ->
  List.filter (test testFilePath) (split newline stack) = [promiseAwaitRow] ->
  includes stepCallRow ["$"%char] = false ->
  includes stepCallRow moduleUrl = false ->
  exists before after stack',
    split newline stack = before ++ promiseAwaitRow :: after /\
    onRejected (Some myStack) (ThrownError e)
      = Rejected (ThrownError (set_stack e stack')) /\
    split newline stack' =
      List.filter (fun row => negb (includes row moduleUrl))
        (before ++ stepCallRow :: after) /\
    stepCallRow ∈ split newline stack' /\
    (forall row, row ∈ split newline stack' -> includes row moduleUrl = false).
Proof.
  intros Hstack Hurl HmyStack Hfilter Hdollar Hplain.
  apply onRejected_rewrites_stack_with; [done.. | | done].
  intros a b. by apply substitution_plain.
Qed.

(** A handler leaves an [Error] whose stack does not mention the helper
    module as it is. *)
Lemma rethrow_plain (myStack : option str) (e : Error) (stack : str) :
  err_stack e = Some stack -> includes stack moduleUrl = false ->
  rethrow moduleUrl engineStack myStack e = e.
Proof.
  intros Hstack Hplain.
  unfold rethrow, stepSequenceHelper.onRejected. rewrite Hstack, Hplain.
  destruct myStack; [| done]. by destruct (truthy _ && truthy _).
Qed.

Lemma rethrow_all_plain (stacks : list (option str)) (e : Error) (stack : str) :
  err_stack e = Some stack -> includes stack moduleUrl = false ->
  rethrow_all moduleUrl engineStack stacks e = e.
Proof.
  intros Hstack Hplain. induction stacks as [| myStack stacks IH]; [done |].
  unfold rethrow_all. simpl. rewrite (rethrow_plain _ _ _ Hstack Hplain).
  exact IH.
Qed.

Variable W : Type.

(** C2, as the source has it.  The steps added so far pass, and the callback
    of the next fails with an [Error] whose stack mentions the helper module.
    The stack has exactly one row of a spec file, the row of the [await]; the
    stack captured when the step was added has exactly one too, the row of
    the call that added the step, and that row has no dollar sign and does
    not mention the helper module.  Then, whatever steps were added later,
    awaiting [stepSequence] rejects with the same [Error] with its stack
    rewritten: the rows of the old stack with the row of the [await] replaced
    by the row of the call, without the rows that mention the helper module.
    The row of the call is a row of the new stack, and no row of it mentions
    the helper module. *)
Theorem rewritten_stack_points_at_step (before later : list (Step W)) (s : Step W)
    (st st1 : state W) (w1 : W) (e : Error)
    (stack myStack stepCallRow promiseAwaitRow : str) :
  includes moduleUrl [newline] = false ->
  stepSequence moduleUrl engineStack W before st = (Fulfilled, st1) ->
  step_callback s (world st1) = (Rejected (ThrownError e), w1) ->
  step_stack s = Some myStack ->
  err_stack e = Some stack ->
  includes stack moduleUrl = true ->
  List.filter (test testFilePath) (split newline myStack) = [stepCallRow] ->
  List.filter (test testFilePath) (split newline stack) = [promiseAwaitRow] ->
  includes stepCallRow ["$"%char] = false ->
  includes stepCallRow moduleUrl = false ->
  exists rowsBefore rowsAfter stack',
    split newline stack = rowsBefore ++ promiseAwaitRow :: rowsAfter /\
    stepSequence moduleUrl engineStack W (before ++ s :: later) st
      = (Rejected (ThrownError (set_stack e stack')),
         {| world := w1; report := report st1 ++ [step_title s] |}) /\
    split newline stack' =
      List.filter (fun row => negb (includes row moduleUrl))
        (rowsBefore ++ stepCallRow :: rowsAfter) /\
    stepCallRow ∈ split newline stack' /\
    (forall row, row ∈ split newline stack' -> includes row moduleUrl = false).
Proof.
  intros Hurl Hbefore Hcallback HmyStack Hstack Hmentions Hstep Hawait Hdollar Hplain.
  destruct (onRejected_rewrites_stack e stack myStack stepCallRow promiseAwaitRow)
    as (rowsBefore & rowsAfter & stack' & Hsplit & Hhandler & Hrows & Hin & Hnone);
    [done.. |].
  exists rowsBefore, rowsAfter, stack'. repeat split; [done | | done..].
  rewrite stepSequence_facts.stepSequence_run_from in Hbefore |- *.
  rewrite (stepSequence_facts.run_from_app _ _ _ _ _ _ _ Hbefore).
  cbn [run_from]. unfold test_step. rewrite Hcallback.
  change (rethrow_all moduleUrl engineStack (step_stack <$> s :: later) e)
    with (rethrow_all moduleUrl engineStack (step_stack <$> later)
            (rethrow moduleUrl engineStack (step_stack s) e)).
  assert (rethrow moduleUrl engineStack (step_stack s) e = set_stack e stack') as ->.
  { unfold rethrow. by rewrite HmyStack, Hhandler. }
  rewrite (rethrow_all_plain _ _ stack'); [done | done |].
  rewrite <- (join_split newline stack'). apply includes_join.
  - intros Hnl. apply list_elem_of_split in Hnl as (a & b & Hab).
    assert (includes moduleUrl [newline] = true) as Hcontra
      by (apply includes_spec; by exists a, b).
    congruence.
  - intros Hnil. rewrite Hnil in Hin. by apply elem_of_nil in Hin.
  - done.
Qed.

(** X20.  Dollar signs in the row of the call.  [String.replace] takes a
    dollar sign of the replacement text for a pattern only with a dollar
    sign, an ampersand, a backtick or an apostrophe after it.  So the stack
    of a failed step is rewritten also when the row of the call that added
    the step has dollar signs, as the path of a route file has, as long as
    none of them is followed by one of these four characters: with one row
    of a spec file in each of the two stacks, the row of the call stands, as
    it is, in the place of the row of the [await], and no row of the new
    stack mentions the helper module. *)
Theorem rewritten_stack_with_dollar_signs (before later : list (Step W)) (s : Step W)
    (st st1 : state W) (w1 : W) (e : Error)
    (stack myStack stepCallRow promiseAwaitRow : str) :
  includes moduleUrl [newline] = false ->
  stepSequence moduleUrl engineStack W before st = (Fulfilled, st1) ->
  step_callback s (world st1) = (Rejected (ThrownError e), w1) ->
  step_stack s = Some myStack ->
  err_stack e = Some stack ->
  includes stack moduleUrl = true ->
  List.filter (test testFilePath) (split newline myStack) = [stepCallRow] ->
  List.filter (test testFilePath) (split newline stack) = [promiseAwaitRow] ->
  has_dollar_pattern stepCallRow = false ->
  includes stepCallRow moduleUrl = false ->
  exists rowsBefore rowsAfter stack',
    split newline stack = rowsBefore ++ promiseAwaitRow :: rowsAfter /\
    stepSequence moduleUrl engineStack W (before ++ s :: later) st
      = (Rejected (ThrownError (set_stack e stack')),
         {| world := w1; report := report st1 ++ [step_title s] |}) /\
    split newline stack' =
      List.filter (fun row => negb (includes row moduleUrl))
        (rowsBefore ++ stepCallRow :: rowsAfter) /\
    stepCallRow ∈ split newline stack' /\
    (forall row, row ∈ split newline stack' -> includes row moduleUrl = false).
Proof.
  intros Hurl Hbefore Hcallback HmyStack Hstack Hmentions Hstep Hawait Hdollar Hplain.
  destruct (onRejected_rewrites_stack_with e stack myStack stepCallRow promiseAwaitRow)
    as (rowsBefore & rowsAfter & stack' & Hsplit & Hhandler & Hrows & Hin & Hnone);
    [done.. | intros a b; by apply substitution_literal | done |].
  exists rowsBefore, rowsAfter, stack'. repeat split; [done | | done..].
  rewrite stepSequence_facts.stepSequence_run_from in Hbefore |- *.
  rewrite (stepSequence_facts.run_from_app _ _ _ _ _ _ _ Hbefore).
  cbn [run_from]. unfold test_step. rewrite Hcallback.
  change (rethrow_all moduleUrl engineStack (step_stack <$> s :: later) e)
    with (rethrow_all moduleUrl engineStack (step_stack <$> later)
            (rethrow moduleUrl engineStack (step_stack s) e)).
  assert (rethrow moduleUrl engineStack (step_stack s) e = set_stack e stack') as ->.
  { unfold rethrow. by rewrite HmyStack, Hhandler. }
  rewrite (rethrow_all_plain _ _ stack'); [done | done |].
  rewrite <- (join_split newline stack'). apply includes_join.
  - intros Hnl. apply list_elem_of_split in Hnl as (a & b & Hab).
    assert (includes moduleUrl [newline] = true) as Hcontra
      by (apply includes_spec; by exists a, b).
    congruence.
  - intros Hnil. rewrite Hnil in Hin. by apply elem_of_nil in Hin.
  - done.
Qed.

End Stack.

End stack_facts.

(** ** stepSequenceHelper: the rows of a spec file *)

Module spec_rows_facts.
Import JsString JsString_facts stepSequenceHelper.

#[local] Arguments test : simpl never.

(** What the pattern itself matches. *)
Lemma matches_testFilePath (m : str) :
  matches testFilePath m <->
  exists sep dir a b line col,
    m = sep :: dir ++ a :: lit "spec" ++ b :: lit "ts:" ++ line ++ ":"%char :: col /\
    (sep = "\"%char \/ sep = "/"%char) /\
    dir <> [] /\ forallb not_line_terminator dir = true /\
    not_line_terminator a = true /\ not_line_terminator b = true /\
    line <> [] /\ forallb is_digit line = true /\
    col <> [] /\ forallb is_digit col = true.
Proof.
  unfold testFilePath, Dot, Digit.
  change (fun c => negb (is_line_terminator c)) with not_line_terminator.
  split.
  - intros (s0 & m0 & -> & Hsep & H)%matches_Cat.
    apply matches_Alt in Hsep.
    apply matches_Cat in H as (dir & m1 & -> & [Hdir0 Hdir]%matches_Plus_Sym & H).
    apply matches_Cat in H as (s1 & m2 & -> & (a & -> & Ha)%matches_Sym & H).
    apply matches_Cat in H as (s2 & m3 & -> & ->%matches_Literal & H).
    apply matches_Cat in H as (s3 & m4 & -> & (b & -> & Hb)%matches_Sym & H).
    apply matches_Cat in H as (s4 & m5 & -> & ->%matches_Literal & H).
    apply matches_Cat in H as (line & m6 & -> & [Hline0 Hline]%matches_Plus_Sym & H).
    apply matches_Cat in H
      as (s5 & col & -> & ->%matches_Chr & [Hcol0 Hcol]%matches_Plus_Sym).
    assert (exists sep, s0 = [sep] /\ (sep = "\"%char \/ sep = "/"%char))
      as (sep & -> & Hsep').
    { destruct Hsep as [->%matches_Chr | ->%matches_Chr]; eexists; eauto. }
    exists sep, dir, a, b, line, col. repeat split; done.
  - intros (sep & dir & a & b & line & col & -> & Hsep & Hdir0 & Hdir & Ha & Hb
            & Hline0 & Hline & Hcol0 & Hcol).
    apply matches_Cat.
    exists [sep], (dir ++ a :: lit "spec" ++ b :: lit "ts:" ++ line ++ ":"%char :: col).
    split; [done |]. split.
    { apply matches_Alt. destruct Hsep as [-> | ->]; [left | right]; by apply matches_Chr. }
    apply matches_Cat. eexists dir, _. split; [done |].
    split; [by apply matches_Plus_Sym |].
    apply matches_Cat. eexists [a], _. split; [done |].
    split; [apply matches_Sym; by exists a |].
    apply matches_Cat. eexists (lit "spec"), _. split; [done |].
    split; [by apply matches_Literal |].
    apply matches_Cat. eexists [b], _. split; [done |].
    split; [apply matches_Sym; by exists b |].
    apply matches_Cat. eexists (lit "ts:"), _. split; [done |].
    split; [by apply matches_Literal |].
    apply matches_Cat. eexists line, _. split; [done |].
    split; [by apply matches_Plus_Sym |].
    apply matches_Cat. eexists [":"%char], col. split; [done |].
    split; [by apply matches_Chr | by apply matches_Plus_Sym].
Qed.

(** X11.  The rows that count as rows of a spec file.  [testFilePath.test(row)]
    holds exactly when the row has, somewhere, a backslash or a slash, then
    one or more characters, then any one character, [spec], any one character,
    [ts:], one or more digits, a colon and one or more digits, where the
    characters before [spec] and the one after it are any characters but line
    terminators: the two dots of [.spec.ts] are not escaped in the pattern, so
    they need not be dots in the row. *)
Theorem testFilePath_spec (row : str) :
  test testFilePath row = true <->
  exists pre sep dir a b line col post,
    row = pre ++ sep :: dir ++ a :: lit "spec" ++ b :: lit "ts:"
            ++ line ++ ":"%char :: col ++ post /\
    (sep = "\"%char \/ sep = "/"%char) /\
    dir <> [] /\ forallb not_line_terminator dir = true /\
    not_line_terminator a = true /\ not_line_terminator b = true /\
    line <> [] /\ forallb is_digit line = true /\
    col <> [] /\ forallb is_digit col = true.
Proof.
  rewrite test_spec. split.
  - intros (pre & m & post & -> & Hm).
    apply matches_testFilePath in Hm
      as (sep & dir & a & b & line & col & -> & Hrest).
    exists pre, sep, dir, a, b, line, col, post. split; [| done].
    f_equal. by do 3 (simpl; rewrite <- ?app_assoc).
  - intros (pre & sep & dir & a & b & line & col & post & -> & Hrest).
    exists pre,
      (sep :: dir ++ a :: lit "spec" ++ b :: lit "ts:" ++ line ++ ":"%char :: col),
      post.
    split; [| apply matches_testFilePath; by exists sep, dir, a, b, line, col].
    f_equal. by do 3 (simpl; rewrite <- ?app_assoc).
Qed.

(** A row of a spec file on Windows and one on Linux; a row of a page
    object; and a row of a file whose name does not end in [.spec.ts] and
    that counts as a row of a spec file. *)
Example testFilePath_example :
  test testFilePath (lit "    at C:\repo\tests\login.spec.ts:12:8") = true /\
  test testFilePath (lit "    at /repo/tests/login.spec.ts:12:8") = true /\
  test testFilePath (lit "    at LoginPage.fill (/repo/pages/login.ts:7:5)") = false /\
  test testFilePath (lit "    at check (/repo/pages/login_spec.ts:40:3)") = true.
Proof. vm_compute. repeat split. Qed.

Section Lookup.

Variable engineStack : str -> option str.
Local Abbreviation getTestCallRowInStack := (getTestCallRowInStack engineStack).
Local Abbreviation newError := (newError engineStack).

(** [getTestCallRowInStack], by the number of rows that match: a row that
    matches the pattern is not empty. *)
Lemma getTestCallRowInStack_filter (callStack : str) :
  getTestCallRowInStack callStack =
    match List.filter (test testFilePath) (split newline callStack) with
    | [] => inl (newError found_0_rows)
    | [row] => inr row
    | _ :: _ :: _ => inl (newError found_multiple_rows)
    end.
Proof.
  unfold stepSequenceHelper.getTestCallRowInStack.
  destruct (List.filter _ _) as [| row rest] eqn:Hl; [done |].
  assert (test testFilePath row = true) as Hrow.
  { apply filter_cons_inv in Hl as (? & ? & _ & ? & _). done. }
  destruct row as [| c row]; [by rewrite stack_facts.testFilePath_not_empty in Hrow |].
  by destruct rest.
Qed.

(** X10.  [getTestCallRowInStack(callStack)] returns a row exactly when it
    is the one row of the stack that matches the pattern of spec files; it
    throws [Found 0 rows] exactly when no row of the stack matches, and
    [Found multiple rows] exactly when two rows at least match, be they the
    same text. *)
Theorem getTestCallRowInStack_spec (callStack : str) :
  let rows := split newline callStack in
  (forall row,
     getTestCallRowInStack callStack = inr row <->
     exists before after,
       rows = before ++ row :: after /\ test testFilePath row = true /\
       (forall r, r ∈ before -> test testFilePath r = false) /\
       (forall r, r ∈ after -> test testFilePath r = false)) /\
  (getTestCallRowInStack callStack = inl (newError found_0_rows) <->
     forall r, r ∈ rows -> test testFilePath r = false) /\
  (getTestCallRowInStack callStack = inl (newError found_multiple_rows) <->
     exists a r1 b r2 c,
       rows = a ++ r1 :: b ++ r2 :: c /\
       test testFilePath r1 = true /\ test testFilePath r2 = true).
Proof.
  intros rows. subst rows. rewrite getTestCallRowInStack_filter.
  split; [| split].
  - intros row. rewrite <- filter_singleton_iff.
    destruct (List.filter _ _) as [| x [| y rest]]; split; try done.
    + by intros [= ->].
    + by intros [= ->].
  - rewrite <- filter_nil_iff.
    destruct (List.filter _ _) as [| x [| y rest]]; split; done.
  - rewrite <- filter_two_iff.
    destruct (List.filter _ _) as [| x [| y rest]]; simpl; split; intros H;
      try done; try lia.
Qed.

End Lookup.

End spec_rows_facts.

(** ** stepSequenceHelper: what the handlers leave alone *)

Module rejection_facts.
Import JsString JsString_facts stepSequenceHelper login_test.

#[local] Arguments test : simpl never.
#[local] Arguments onRejected : simpl never.

Section Plain.

Variable moduleUrl : str.
Variable engineStack : str -> option str.
Variable W : Type.

Local Abbreviation rethrow := (rethrow moduleUrl engineStack).
Local Abbreviation rethrow_all := (rethrow_all moduleUrl engineStack).
Local Abbreviation stepSequence := (stepSequence moduleUrl engineStack W).
Local Abbreviation addStep := (addStep moduleUrl engineStack W).
Local Abbreviation added := (added moduleUrl engineStack W).

(** The handler rethrows an [Error] as it is when the stack of the [Error]
    does not mention the helper module, or is undefined. *)
Lemma rethrow_unmentioned (myStack : option str) (e : Error) :
  (forall stack, err_stack e = Some stack -> includes stack moduleUrl = false) ->
  rethrow myStack e = e.
Proof.
  intros Hplain. unfold stepSequenceHelper.rethrow, stepSequenceHelper.onRejected.
  destruct (err_stack e) as [stack |]; [| done].
  rewrite (Hplain stack eq_refl).
  destruct myStack; [| done]. by destruct (truthy _ && truthy _).
Qed.

(** And when the stack captured at the [addStep] call has no row of a spec
    file, or is undefined. *)
Lemma rethrow_no_spec_row (myStack : option str) (e : Error) :
  (forall stack, myStack = Some stack -> test testFilePath stack = false) ->
  rethrow myStack e = e.
Proof.
  intros Hplain. unfold stepSequenceHelper.rethrow, stepSequenceHelper.onRejected.
  destruct (err_stack e) as [stack |]; [| done].
  destruct myStack as [myStack |]; [| done].
  rewrite (Hplain myStack eq_refl), andb_false_r.
  by destruct (truthy _ && truthy _).
Qed.

Lemma rethrow_all_untouched (stacks : list (option str)) (e : Error) :
  (forall stack, err_stack e = Some stack -> includes stack moduleUrl = false) \/
  (forall stack, Some stack ∈ stacks -> test testFilePath stack = false) ->
  rethrow_all stacks e = e.
Proof.
  intros Hplain. induction stacks as [| myStack stacks IH]; [done |].
  unfold stepSequenceHelper.rethrow_all. simpl.
  assert (rethrow myStack e = e) as ->.
  { destruct Hplain as [He | Hmy]; [by apply rethrow_unmentioned |].
    apply rethrow_no_spec_row. intros stack ->. apply Hmy. by left. }
  apply IH. destruct Hplain as [He | Hmy]; [by left | right].
  intros stack Hin. apply Hmy. by right.
Qed.

(** X12.  When the callback of a step fails with an [Error] whose stack does
    not mention the helper module, or that has no stack, awaiting
    [stepSequence] rejects with that very [Error], message and stack as they
    were, whatever steps were added later; the same holds when the stacks
    captured at the [addStep] calls of the step and of the steps added later
    have no row of a spec file. *)
Theorem plain_error_propagates (before later : list (Step W)) (s : Step W)
    (st st1 : state W) (w1 : W) (e : Error) :
  stepSequence before st = (Fulfilled, st1) ->
  step_callback s (world st1) = (Rejected (ThrownError e), w1) ->
  (forall stack, err_stack e = Some stack -> includes stack moduleUrl = false) \/
  (forall stack, Some stack ∈ step_stack <$> s :: later ->
     test testFilePath stack = false) ->
  stepSequence (before ++ s :: later) st
    = (Rejected (ThrownError e),
       {| world := w1; report := report st1 ++ [step_title s] |}).
Proof.
  intros Hbefore Hcallback Hplain.
  rewrite stepSequence_facts.stepSequence_run_from in Hbefore |- *.
  rewrite (stepSequence_facts.run_from_app _ _ _ _ _ _ _ Hbefore).
  cbn [run_from]. unfold test_step. rewrite Hcallback.
  by rewrite rethrow_all_untouched.
Qed.

(** *** A sequence that was rejected *)

Lemma addStep_rejected (seq : promise W) (s : Step W) (st st' : state W) (e : Error) :
  seq st = (Rejected (ThrownError e), st') ->
  addStep (step_stack s) (step_title s) (step_callback s) seq st
    = (Rejected (ThrownError (rethrow (step_stack s) e)), st').
Proof.
  intros Hseq. unfold stepSequenceHelper.addStep, catch_, then_. rewrite Hseq.
  by rewrite stepSequence_facts.onRejected_Error.
Qed.

(** X13.  A sequence that has rejected with an [Error] stays rejected until
    it is reset: on whatever sequence that rejects so, the callbacks of the
    steps added afterwards do not run (the state and the report are those the
    rejection left), and awaiting the sequence rejects with an [Error], the
    one it had, passed through the handlers of the steps added. *)
Theorem rejected_sequence_stays_rejected (seq : promise W) (steps : list (Step W))
    (st st' : state W) (e : Error) :
  seq st = (Rejected (ThrownError e), st') ->
  added steps seq st
    = (Rejected (ThrownError (rethrow_all (step_stack <$> steps) e)), st') /\
  rethrown_of engineStack e (rethrow_all (step_stack <$> steps) e).
Proof.
  intros Hseq. split.
  - revert seq e Hseq. induction steps as [| s steps IH]; intros seq e Hseq; [done |].
    unfold stepSequenceHelper.added. simpl.
    fold (added steps (addStep (step_stack s) (step_title s) (step_callback s) seq)).
    rewrite (IH _ (rethrow (step_stack s) e)); [done |].
    by apply addStep_rejected.
  - apply stepSequence_facts.rethrown_of_rethrow_all, stepSequence_facts.rethrown_of_refl.
Qed.

End Plain.

(** The click fails with an [Error] whose stack has neither a row of the
    helper nor one of the test: the sequence rejects with it as it is. *)
Lemma plain_error_propagates_witness :
  let opened := mkStep (Some called_from_test) "open" passes in
  let click := mkStep (Some called_from_test) "click"
                 (fails_with (ThrownError boom_elsewhere)) in
  let check := mkStep (Some called_from_test) "check" passes in
  stepSequence url engine nat ([opened] ++ click :: [check]) start
    = (Rejected (ThrownError boom_elsewhere),
       {| world := 2%nat; report := ["open"] ++ ["click"] |}%string).
Proof.
  intros opened click check.
  apply (plain_error_propagates url engine nat [opened] [check] click start
           {| world := 1%nat; report := ["open"%string] |} 2%nat boom_elsewhere);
    [reflexivity | reflexivity |].
  left. intros stack [= <-]. reflexivity.
Defined.

(** The sequence of a test whose click failed, not reset: the steps of the
    next test are added to it. *)
Lemma rejected_sequence_stays_rejected_witness :
  let failed := stepSequence url engine nat
                  [mkStep (Some called_from_test) "click"
                     (fails_with (ThrownError boom_elsewhere))] in
  let next := [mkStep (Some called_from_test) "open" passes;
               mkStep (Some called_from_test) "check" passes] in
  added url engine nat next failed start
    = (Rejected (ThrownError
         (rethrow_all url engine (step_stack <$> next) boom_elsewhere)),
       {| world := 1%nat; report := ["click"%string] |}) /\
  rethrown_of engine boom_elsewhere
    (rethrow_all url engine (step_stack <$> next) boom_elsewhere).
Proof.
  intros failed next.
  apply (rejected_sequence_stays_rejected url engine nat failed next start
           {| world := 1%nat; report := ["click"%string] |} boom_elsewhere).
  reflexivity.
Defined.

End rejection_facts.

(** ** stepSequenceHelper: a test run *)

Module stepSequence_examples.
Import JsString JsString_facts stepSequenceHelper login_test.

(** Four steps: the second rejects with a string, the third with an [Error].
    The first three run, the fourth does not, and the sequence rejects with
    the [Error], its stack pointing at the call that added the third step. *)
Example steps_run_in_order_example :
  stepSequence url engine nat
    [mkStep (Some called_from_test) "open" passes;
     mkStep (Some called_from_test) "dismiss" (fails_with (ThrownValue "no banner"));
     mkStep (Some called_from_test) "click" (fails_with (ThrownError boom));
     mkStep (Some called_from_test) "check" passes] start
  = (Rejected (ThrownError
       (set_stack boom
          (rows ["Error: boom";
                 "    at LoginPage.click (/repo/pages/login.ts:21:11)";
                 "    at /repo/tests/login.spec.ts:12:8"]))),
     {| world := 3%nat; report := ["open"; "dismiss"; "click"]%string |}).
Proof. vm_compute. reflexivity. Qed.


(** The stack of the failure mentions the helper module, and the stack of
    the call that added the step has a row of the spec file; but the stack of
    the failure has no row of a spec file.  Awaiting the sequence rejects with
    the [Error] of [getTestCallRowInStack]: its stack does not have the row of
    the call, and two of its rows mention the helper module. *)
Lemma lookup_error_hides_step_row :
  let s := mkStep (Some called_from_test) "click"
             (fails_with (ThrownError boom_without_test_row)) in
  includes (default [] (err_stack boom_without_test_row)) url = true /\
  List.filter (test testFilePath) (split newline called_from_test) = [step_row] /\
  exists thrownByLookup stack',
    stepSequence url engine nat [s] start
      = (Rejected (ThrownError thrownByLookup),
         {| world := 1%nat; report := ["click"%string] |}) /\
    err_message thrownByLookup = found_0_rows /\
    err_stack thrownByLookup = Some stack' /\
    List.filter (fun row => bool_decide (row = step_row)) (split newline stack') = [] /\
    List.length (List.filter (fun row => includes row url) (split newline stack')) = 2%nat.
Proof.
  split; [reflexivity |]. split; [vm_compute; reflexivity |].
  eexists _, _. split; [vm_compute; reflexivity |].
  split; [reflexivity |]. split; [reflexivity |].
  split; vm_compute; reflexivity.
Qed.

(** The failed click of the example: awaiting the sequence rejects with the
    [Error] of the click, the row of the call that added the step in the
    place of the row of the [await]. *)
Lemma rewritten_stack_witness :
  let opened := mkStep (Some called_from_test) "open" passes in
  let click := mkStep (Some called_from_test) "click"
                 (fails_with (ThrownError boom)) in
  let check := mkStep (Some called_from_test) "check" passes in
  exists rowsBefore rowsAfter stack',
    split newline (default [] (err_stack boom))
      = rowsBefore ++ await_row :: rowsAfter /\
    stepSequence url engine nat ([opened] ++ click :: [check]) start
      = (Rejected (ThrownError (set_stack boom stack')),
         {| world := 2%nat; report := ["open"] ++ ["click"] |}%string) /\
    split newline stack' =
      List.filter (fun row => negb (includes row url))
        (rowsBefore ++ step_row :: rowsAfter) /\
    step_row ∈ split newline stack' /\
    (forall row, row ∈ split newline stack' -> includes row url = false).
Proof.
  intros opened click check.
  apply (stack_facts.rewritten_stack_points_at_step url engine nat
           [opened] [check] click start
           {| world := 1%nat; report := ["open"%string] |} 2%nat boom
           (default [] (err_stack boom)) called_from_test step_row await_row);
    vm_compute; reflexivity.
Defined.

(** The second step of the example rejects with a string: the sequence of the
    first two steps is fulfilled, and a third step runs. *)
Lemma non_Error_rejection_witness :
  let opened := mkStep (Some called_from_test) "open" passes in
  let dismiss := mkStep (Some called_from_test) "dismiss"
                   (fails_with (ThrownValue "no banner")) in
  let check := mkStep (Some called_from_test) "check" passes in
  stepSequence url engine nat ([opened] ++ [dismiss]) start
    = (Fulfilled, {| world := 2%nat; report := ["open"] ++ ["dismiss"] |}%string) /\
  stepSequence url engine nat ([opened] ++ dismiss :: [check]) start
    = stepSequence url engine nat [check]
        {| world := 2%nat; report := ["open"] ++ ["dismiss"] |}%string.
Proof.
  intros opened dismiss check.
  apply (stepSequence_facts.non_Error_rejection_swallowed url engine nat
           [opened] [check] dismiss start
           {| world := 1%nat; report := ["open"%string] |} "no banner" 2%nat);
    reflexivity.
Defined.

(** The failed click of the test of a route file: the row of the call, with
    its dollar sign, stands in the place of the row of the [await]. *)
Lemma rewritten_stack_with_dollar_signs_witness :
  let click := mkStep (Some called_from_route_test) "click"
                 (fails_with (ThrownError boom_in_route)) in
  let check := mkStep (Some called_from_route_test) "check" passes in
  exists rowsBefore rowsAfter stack',
    split newline (default [] (err_stack boom_in_route))
      = rowsBefore ++ route_await_row :: rowsAfter /\
    stepSequence url engine nat ([] ++ click :: [check]) start
      = (Rejected (ThrownError (set_stack boom_in_route stack')),
         {| world := 1%nat; report := [] ++ ["click"] |}%string) /\
    split newline stack' =
      List.filter (fun row => negb (includes row url))
        (rowsBefore ++ route_step_row :: rowsAfter) /\
    route_step_row ∈ split newline stack' /\
    (forall row, row ∈ split newline stack' -> includes row url = false).
Proof.
  intros click check.
  apply (stack_facts.rewritten_stack_with_dollar_signs url engine nat
           [] [check] click start start 1%nat boom_in_route
           (default [] (err_stack boom_in_route)) called_from_route_test
           route_step_row route_await_row);
    vm_compute; reflexivity.
Defined.

(** Two dollar signs in a row are a pattern: the row that comes to stand in
    the stack has one, and is not the row of the call. *)
Example dollar_pattern_example :
  has_dollar_pattern (lit "    at /repo/tests/routes/$$.spec.ts:12:8") = true /\
  stepSequence url engine nat
    [mkStep (Some called_from_dollars_test) "click" (fails_with (ThrownError boom))]
    start
  = (Rejected (ThrownError
       (set_stack boom
          (rows ["Error: boom";
                 "    at LoginPage.click (/repo/pages/login.ts:21:11)";
                 "    at /repo/tests/routes/$.spec.ts:12:8"]))),
     {| world := 1%nat; report := ["click"%string] |}).
Proof. vm_compute. by split. Qed.

End stepSequence_examples.
